(** * Treatment-aware Q-networks (algorithms_step/model.py)

    A shallow embedding of the three network classes of [model.py]
    ([SimpleQNetwork], [CEQNetwork_1], [CEQNetwork_2]) and of the PyTorch
    tensor operations their forward passes call, followed by the laws of
    the forward computation.

    - Tensor entries range over an arbitrary scalar type (class [Scalar]),
      which also fixes the index that [topk] returns on a row. No law of
      arithmetic is assumed of all scalars: the theorems that need one state
      it for the constants 0 and 1 (class [ScalarUnits]) or for the entries it
      concerns (predicate [regular]), so that they apply to IEEE floats.
    - A 2-D tensor is the list of its rows, the first axis being the batch.
    - The batch [data] is a Python dict that [forward] updates in place: it
      is a [gmap] threaded through a state monad, which also carries the
      exceptions and a log of the sub-module calls. *)

From Stdlib Require Import ZArith List Bool Lia.
From stdpp Require Import base option list gmap strings.

Open Scope string_scope.
Open Scope nat_scope.
Open Scope list_scope.

#[global] Set Warnings "-clear-no-such-hyp".

(** ** Scalars *)

(** The entries of the tensors, with the operations of PyTorch that depend
    on them. [topk_index r] is the index that [r.topk(1)] returns for a row
    [r] of scores: an index of the row. PyTorch documents it as the index of
    a largest entry (class [TopkLargest] below) and leaves open which one it
    is when several entries are equal, so that it is not fixed here. *)
Class Scalar (R : Type) := {
  s0 : R;
  s1 : R;
  sadd : R → R → R;
  ssub : R → R → R;
  smul : R → R → R;
  sltb : R → R → bool;          (* strict comparison *)
  of_Z : Z → R;                 (* cast of an integer-valued entry *)
  topk_index : list R → nat;
  topk_index_lt : ∀ r : list R, r ≠ [] → topk_index r < length r
}.

(** The arithmetic of the constants 0 and 1, which is exact in IEEE
    arithmetic as well. *)
Class ScalarUnits (R : Type) `{Scalar R} : Prop := {
  sadd_0_0 : sadd s0 s0 = s0;
  sadd_0_1 : sadd s0 s1 = s1;
  sadd_1_0 : sadd s1 s0 = s1;
  ssub_1_0 : ssub s1 s0 = s1;
  ssub_1_1 : ssub s1 s1 = s0;
  of_Z_0 : of_Z 0 = s0;
  of_Z_1 : of_Z 1 = s1;
  s1_neq_s0 : s1 ≠ s0
}.

(** An entry on which the multiplications by 0 and by 1 and the addition of
    0 are exact. In IEEE arithmetic these are the finite entries: an
    infinity or a NaN multiplied by 0 is a NaN. *)
Definition regular {R} `{Scalar R} (x : R) : Prop :=
  smul s0 x = s0 ∧ smul s1 x = x ∧ sadd s0 x = x ∧ sadd x s0 = x.

(** Index [k] of the row [r] holds a largest entry: no entry of [r] is
    strictly above it. *)
Definition largest {R} `{Scalar R} (r : list R) (k : nat) : Prop :=
  ∃ v, r !! k = Some v ∧ ∀ j x, r !! j = Some x → sltb v x = false.

(** What the documentation of [topk] states of the index it returns. *)
Class TopkLargest (R : Type) `{Scalar R} : Prop :=
  topk_index_largest : ∀ r : list R, r ≠ [] → largest r (topk_index r).

(** ** Exceptions *)

Inductive error :=
| KeyError (k : string)   (* data[k] with k absent *)
| IndexError              (* l[-1] on an empty Python list *)
| TypeError               (* a dict entry of a kind that is not modelled *)
| ShapeMismatch           (* RuntimeError: the sizes of the tensors do not fit *)
| IndexOutOfBounds        (* RuntimeError: scatter or topk index out of range *)
| EmptyTensorList.        (* RuntimeError: cat or stack of an empty list *)

Inductive result (A : Type) :=
| Ok (a : A)
| Err (e : error).
Arguments Ok {A} a.
Arguments Err {A} e.

#[export] Instance result_ret : MRet result := λ A a, Ok a.
#[export] Instance result_bind : MBind result := λ A B f m,
  match m with Ok a => f a | Err e => Err e end.

Definition is_Ok {A} (r : result A) : Prop := ∃ a, r = Ok a.

Definition of_option {A} (e : error) (o : option A) : result A :=
  match o with Some a => Ok a | None => Err e end.

(** Sub-modules of the networks, as they appear in the call log. *)
Inductive module_name := Encoder | LogitsT | Fc | FcT0 | FcT1.

#[export] Instance module_name_eq_dec : EqDecision module_name.
Proof. solve_decision. Defined.

(** The action-value heads. *)
Definition is_value_head (m : module_name) : bool :=
  match m with Fc | FcT0 | FcT1 => true | _ => false end.

(** ** Python lists *)

(** [l[-k:]]: the last [k] items, and the whole list when [k = 0]
    (since [-0 = 0]). *)
Definition slice_last {A} (k : nat) (l : list A) : list A :=
  if decide (k = 0) then l else drop (length l - k) l.

(** [l[-1]] *)
Definition item_last {A} (l : list A) : result A := of_option IndexError (last l).

(** ** Tensors and the PyTorch operations of [model.py] *)

(** A 2-D tensor: one row per sample of the batch. *)
Abbreviation tensor R := (list (list R)).
(** A 3-D tensor: per sample, one row per timestep. *)
Abbreviation tensor3 R := (list (list (list R))).
(** An integer-valued tensor (indices and class labels, after [.long()]). *)
Abbreviation long_tensor := (list (list Z)).
Abbreviation long_tensor3 := (list (list (list Z))).

Section Torch.
Context {R : Type} `{Scalar R}.
#[local] Abbreviation tensor := (tensor R).
#[local] Abbreviation tensor3 := (tensor3 R).

(** [t.shape[0]] and [t.shape[-1]] of a 2-D tensor. *)
Definition size0 {A} (t : list (list A)) : nat := length t.
Definition size1 {A} (t : list (list A)) : nat := from_option length 0 (head t).

(** [torch.zeros(t.shape).type(t.type())] *)
Definition zeros_like (t : tensor) : tensor := map (map (λ _, s0)) t.
Definition zeros_like3 (t : tensor3) : tensor3 := map zeros_like t.

(** *** nn.Linear, nn.ReLU, nn.Sequential *)

(** [nn.Linear(in_features, out_features)]: the weight has shape
    [(out_features, in_features)], the bias [(out_features)]; both are given
    by their entries. *)
Record Linear := mkLinear {
  in_features : nat;
  out_features : nat;
  weight : nat → nat → R;
  bias : nat → R
}.

Definition dot (w : nat → R) (x : list R) : R :=
  foldr sadd s0 (imap (λ k xk, smul xk (w k)) x).

Definition Linear_row (l : Linear) (x : list R) : list R :=
  map (λ j, sadd (dot (weight l j) x) (bias l j)) (seq 0 (out_features l)).

(** [F.linear]: the last axis of the input must be [in_features]. *)
Definition Linear_forward (l : Linear) (x : tensor) : result tensor :=
  if forallb (λ row, Nat.eqb (length row) (in_features l)) x
  then Ok (map (Linear_row l) x)
  else Err ShapeMismatch.

Definition relu (x : R) : R := if sltb x s0 then s0 else x.

Inductive Module_ :=
| Linear_ (l : Linear)
| ReLU.

Definition Module_forward (m : Module_) (x : tensor) : result tensor :=
  match m with
  | Linear_ l => Linear_forward l x
  | ReLU => Ok (map (map relu) x)
  end.

#[local] Abbreviation Sequential := (list Module_).

Fixpoint Sequential_forward (ms : Sequential) (x : tensor) : result tensor :=
  match ms with
  | [] => Ok x
  | m :: ms' => y ← Module_forward m x; Sequential_forward ms' y
  end.

(** *** torch.cat, torch.stack, F.pad, view *)

(** [torch.cat([a, b], dim=-1)]: the batch sizes must agree. *)
Definition cat2 (a b : tensor) : result tensor :=
  if decide (size0 a = size0 b) then Ok (zip_with app a b) else Err ShapeMismatch.

(** [torch.cat(ts, dim=-1)] *)
Fixpoint cat (ts : list tensor) : result tensor :=
  match ts with
  | [] => Err EmptyTensorList
  | [t] => Ok t
  | t :: ts' => r ← cat ts'; cat2 t r
  end.

(** [torch.stack(ts, dim=1)]: all tensors must have one shape; sample [i] of
    the result lists row [i] of every tensor, in order. *)
Definition stack1 {A} (ts : list (list (list A))) : result (list (list (list A))) :=
  match ts with
  | [] => Err EmptyTensorList
  | t0 :: _ =>
      if forallb (λ t, Nat.eqb (size0 t) (size0 t0) && Nat.eqb (size1 t) (size1 t0)) ts
      then Ok (imap (λ i _, map (λ t, default [] (t !! i)) ts) t0)
      else Err ShapeMismatch
  end.

(** [F.pad(t, pad=(p, 0))]: [p] zeros on the left of the last axis; a negative
    [p] removes [-p] entries there instead. *)
Definition pad_left (p : Z) (t : tensor) : result tensor :=
  if decide (0 ≤ p)%Z then Ok (map (λ row, replicate (Z.to_nat p) s0 ++ row) t)
  else if decide (- p ≤ Z.of_nat (size1 t))%Z then Ok (map (drop (Z.to_nat (- p))) t)
  else Err ShapeMismatch.

(** [t.view(t.shape[0], -1)]: the second size cannot be inferred for an empty
    batch. *)
Definition view_flat (t : tensor3) : result tensor :=
  if decide (size0 t = 0) then Err ShapeMismatch else Ok (map (λ rows, concat rows) t).

(** *** scatter *)

(** One row of [self.scatter(dim, index, v)] along its last axis: every index
    must lie inside the row. *)
Fixpoint scatter_row (v : R) (row : list R) (index : list Z) : result (list R) :=
  match index with
  | [] => Ok row
  | k :: index' =>
      if decide (0 ≤ k < Z.of_nat (length row))%Z
      then scatter_row v (<[Z.to_nat k := v]> row) index'
      else Err IndexOutOfBounds
  end.

(** The other axes, row by row: the rows of [self] that [index] does not
    reach are returned as they are. *)
Fixpoint scatter_along {A B} (f : A → B → result A) (self : list A) (index : list B)
    : result (list A) :=
  match index, self with
  | [], _ => Ok self
  | _ :: _, [] => Err ShapeMismatch
  | ix :: index', r :: self' =>
      r' ← f r ix; rest ← scatter_along f self' index'; Ok (r' :: rest)
  end.

(** The writes of [self.scatter(1, index, v)] and of [self.scatter(2, index, v)],
    once the shapes have been checked. *)
Definition scatter1_kernel (self : tensor) (index : long_tensor) (v : R) : result tensor :=
  scatter_along (scatter_row v) self index.

Definition scatter2_kernel (self : tensor3) (index : long_tensor3) (v : R)
    : result tensor3 :=
  scatter_along (λ s ix, scatter1_kernel s ix v) self index.

(** [self.scatter(1, index, v)] on a 2-D tensor. An [index] without entries
    leaves [self] as it is. Otherwise the shapes are checked before anything
    is written: along the axes other than the one of the scatter, [index] may
    be shorter than [self], never longer. *)
Definition scatter1 (self : tensor) (index : long_tensor) (v : R) : result tensor :=
  if decide (concat index = []) then Ok self
  else if decide (size0 index ≤ size0 self) then scatter1_kernel self index v
  else Err ShapeMismatch.

(** [self.scatter(2, index, v)] on a 3-D tensor. *)
Definition scatter2 (self : tensor3) (index : long_tensor3) (v : R)
    : result tensor3 :=
  if decide (concat (concat index) = []) then Ok self
  else if decide (size0 index ≤ size0 self ∧ size1 index ≤ size1 self)
       then scatter2_kernel self index v
       else Err ShapeMismatch.

(** *** topk *)

(** The index part [row.topk(1)[1]] for one row; no entry to select in an
    empty row. *)
Definition topk1_row (row : list R) : result (list Z) :=
  match row with
  | [] => Err IndexOutOfBounds
  | _ :: _ => Ok [Z.of_nat (topk_index row)]
  end.

(** [t.topk(1, 1, True, True)[1]] on a 2-D tensor. *)
Definition topk1 (t : tensor) : result long_tensor := mapM topk1_row t.

(** [t.topk(1, 2, True, True)[1]] on a 3-D tensor. *)
Definition topk1_3 (t : tensor3) : result long_tensor3 := mapM topk1 t.

(** *** Broadcasting, torch.where and arithmetic *)

Definition broadcast_dim (a b : nat) : result nat :=
  if decide (a = b) then Ok a
  else if decide (a = 1) then Ok b
  else if decide (b = 1) then Ok a
  else Err ShapeMismatch.

Definition expand_dim {A} (n : nat) (l : list A) : list A :=
  match l with
  | [x] => replicate n x
  | _ => l
  end.

Definition expand {A} (n m : nat) (t : list (list A)) : list (list A) :=
  expand_dim n (map (expand_dim m) t).

(** An elementwise operation on two 2-D tensors, broadcast to one shape. *)
Definition broadcast2 {A B C} (f : A → B → C) (a : list (list A)) (b : list (list B))
    : result (list (list C)) :=
  n ← broadcast_dim (size0 a) (size0 b);
  m ← broadcast_dim (size1 a) (size1 b);
  Ok (zip_with (zip_with f) (expand n m a) (expand n m b)).

(** [torch.where(cond, x, y)] *)
Definition where_ (cond : list (list bool)) (x y : tensor) : result tensor :=
  xy ← broadcast2 pair x y;
  broadcast2 (λ (c : bool) (p : R * R), if c then p.1 else p.2) cond xy.

(** [t == 1] on an integer-valued tensor. *)
Definition eq_1 (t : long_tensor) : list (list bool) :=
  map (map (λ k, bool_decide (k = 1%Z))) t.

(** [t.float()] *)
Definition float (t : long_tensor) : tensor := map (map of_Z) t.

(** [1 - t] *)
Definition one_minus (t : tensor) : tensor := map (map (ssub s1)) t.

Definition mul (a b : tensor) : result tensor := broadcast2 smul a b.
Definition add (a b : tensor) : result tensor := broadcast2 sadd a b.

End Torch.

Arguments Linear : clear implicits.
Arguments Module_ : clear implicits.

(** [nn.Sequential(...)] *)
Abbreviation Sequential R := (list (Module_ R)).

(** ** The batch dict and the monad of a forward call *)

(** The entries of [data], of the kinds that the code is written for: a
    tensor, or a Python list of tensors. What Python does with an entry of
    another kind depends on the operation that meets it (a 2-D tensor under
    ['state'], for instance, is iterated row by row) and is not modelled: a
    computation that reads such an entry stops with [TypeError]. *)
Inductive value (R : Type) :=
| VTensor (t : tensor R)
| VTensors (ts : list (tensor R))
| VLong (t : long_tensor)
| VLongs (ts : list long_tensor).
Arguments VTensor {R} t.
Arguments VTensors {R} ts.
Arguments VLong {R} t.
Arguments VLongs {R} ts.

(** The dict [out] that a forward call returns: keys ['t'], ['y'], ['z']. *)
Record Out (R : Type) := mkOut {
  out_t : tensor R;     (* treatment logits of the latest timestep *)
  out_y : tensor R;     (* action values *)
  out_z : tensor R      (* window block *)
}.
Arguments mkOut {R} _ _ _.
Arguments out_t {R} _.
Arguments out_y {R} _.
Arguments out_z {R} _.

(** A computation on the dict [data]: it returns the dict as it leaves it,
    the sub-modules it called, in order, and a value or the exception that
    stopped it. The updates made before an exception stay, as in Python. *)
Definition M (R A : Type) : Type :=
  gmap string (value R) → gmap string (value R) * list module_name * result A.

#[export] Instance M_ret {R} : MRet (M R) := λ A a d, (d, [], Ok a).
#[export] Instance M_bind {R} : MBind (M R) := λ A B f m d,
  match m d with
  | (d1, log1, Ok a) => match f a d1 with (d2, log2, r) => (d2, log1 ++ log2, r) end
  | (d1, log1, Err e) => (d1, log1, Err e)
  end.

(** The parameters of a network: the entries of the tensor registered under
    each name of its [state_dict] (a bias has the single row 0). *)
Abbreviation params R := (string → nat → nat → R).

Section Dict.
Context {R : Type} `{Scalar R}.
#[local] Abbreviation M := (M R).

Definition lift {A} (r : result A) : M A := λ d, (d, [], r).

(** [data[k]] *)
Definition getitem (k : string) : M (value R) :=
  λ d, (d, [], of_option (KeyError k) (d !! k)).

(** [data[k] = v] *)
Definition setitem (k : string) (v : value R) : M unit :=
  λ d, (<[k := v]> d, [], Ok ()).

Definition get_tensor (k : string) : M (tensor R) :=
  v ← getitem k; lift (match v with VTensor t => Ok t | _ => Err TypeError end).
Definition get_tensors (k : string) : M (list (tensor R)) :=
  v ← getitem k; lift (match v with VTensors ts => Ok ts | _ => Err TypeError end).
Definition get_long (k : string) : M long_tensor :=
  v ← getitem k; lift (match v with VLong t => Ok t | _ => Err TypeError end).
Definition get_longs (k : string) : M (list long_tensor) :=
  v ← getitem k; lift (match v with VLongs ts => Ok ts | _ => Err TypeError end).

(** [module(x)] for a sub-module [module = nn.Sequential(...)]. *)
Definition call_module (name : module_name) (module : Sequential R) (x : tensor R)
    : M (tensor R) :=
  λ d, (d, [name], Sequential_forward module x).

(** [nn.Linear(i, o)] registered under [name]. *)
Definition nn_Linear (θ : params R) (name : string) (i o : nat) : Module_ R :=
  Linear_ (mkLinear i o (θ (String.append name ".weight")) (θ (String.append name ".bias") 0)).

(** *** class AbstractDQN *)

Class AbstractDQN (Net : Type) := mkDQN {
  encoder : Net → Sequential R;
  _forward : Net → M (Out R)
}.

(** [AbstractDQN.__init__]: the encoder. *)
Definition AbstractDQN_init (θ : params R) (state_size fc1_units fc2_units : nat)
    : Sequential R :=
  [nn_Linear θ "encoder.0" state_size fc1_units; ReLU;
   nn_Linear θ "encoder.2" fc1_units fc2_units; ReLU].

(** [AbstractDQN.forward] *)
Definition forward `{AbstractDQN Net} (self : Net) : M (Out R) :=
  state ← get_tensors "state";
  z ← mapM (call_module Encoder (encoder self)) state;
  setitem "z" (VTensors z);;
  _forward self.

(** Lines shared by [CEQNetwork_1._forward] and [CEQNetwork_2._forward]:
    the one-hot treatment block of the training branch, from the labels
    [data['t']], *)
Definition onehot_truth (step : nat) (t_stack : tensor3 R) : M (tensor R) :=
  data_t ← get_longs "t";
  _t ← lift (stack1 (slice_last step data_t));
  onehot_t ← lift (scatter2 (zeros_like3 t_stack) _t s1);
  lift (view_flat onehot_t).

(** and of the evaluation branch, from the predicted classes. *)
Definition onehot_predicted (t_stack : tensor3 R) : M (tensor R) :=
  index ← lift (topk1_3 t_stack);
  onehot_t ← lift (scatter2 (zeros_like3 t_stack) index s1);
  lift (view_flat onehot_t).

End Dict.

(** ** class SimpleQNetwork (Variant A) *)

Module SimpleQNetwork.
Section Def.
Context {R : Type} `{Scalar R}.

Record t := mk {
  encoder : Sequential R;
  name : string;
  fc1_units : nat;
  fc2_units : nat;
  step : nat;
  logits_t : Sequential R;
  fc : Sequential R;
  training : bool
}.

Definition __init__ (θ : params R)
    (state_size action_size fc1_units fc2_units step num_treatment : nat) : t :=
  {| encoder := AbstractDQN_init θ state_size fc1_units fc2_units;
     name := "SimpleQNetwork";
     fc1_units := fc1_units;
     fc2_units := fc2_units;
     step := step;
     logits_t := [nn_Linear θ "logits_t.0" fc2_units (fc2_units / 2); ReLU;
                  nn_Linear θ "logits_t.2" (fc2_units / 2) num_treatment];
     fc := [nn_Linear θ "fc.0" (fc2_units * step) (fc2_units * step / 2); ReLU;
            nn_Linear θ "fc.2" (fc2_units * step / 2) action_size];
     training := true |}.

(** [nn.Module.train(mode)] and [nn.Module.eval()] *)
Definition train (mode : bool) (self : t) : t :=
  mk (encoder self) (name self) (fc1_units self) (fc2_units self) (step self)
     (logits_t self) (fc self) mode.
Definition eval (self : t) : t := train false self.

Definition _forward (self : t) : M R (Out R) :=
  data_z ← get_tensors "z";
  let z := slice_last (step self) data_z in
  t ← mapM (call_module LogitsT (logits_t self)) z;
  z ← lift (cat z);
  z ← lift (pad_left (Z.of_nat (fc2_units self * step self) - Z.of_nat (size1 z)) z);
  y ← call_module Fc (fc self) z;
  let onehot := zeros_like y in
  prev_action ← get_long "prev_action";
  onehot ← lift (scatter1 onehot prev_action s1);
  setitem "onehot_prev_action" (VTensor onehot);;
  y ← (if training self then
         data_t ← get_longs "t";
         t_last ← lift (item_last data_t);
         onehot ← get_tensor "onehot_prev_action";
         lift (where_ (eq_1 t_last) onehot y)
       else
         t_last ← lift (item_last t);
         _t ← lift (topk1 t_last);
         onehot ← get_tensor "onehot_prev_action";
         lift (where_ (eq_1 _t) onehot y));
  t_last ← lift (item_last t);
  mret (mkOut t_last y z).

#[global] Instance dqn : AbstractDQN t := mkDQN t encoder _forward.

End Def.
Arguments t : clear implicits.
End SimpleQNetwork.

(** ** class CEQNetwork_1 (Variant B) *)

Module CEQNetwork_1.
Section Def.
Context {R : Type} `{Scalar R}.

Record t := mk {
  encoder : Sequential R;
  name : string;
  fc1_units : nat;
  fc2_units : nat;
  num_treatment : nat;
  step : nat;
  logits_t : Sequential R;
  fc : Sequential R;
  training : bool
}.

Definition __init__ (θ : params R)
    (state_size action_size fc1_units fc2_units step num_treatment : nat) : t :=
  {| encoder := AbstractDQN_init θ state_size fc1_units fc2_units;
     name := "CEQNetwork_1";
     fc1_units := fc1_units;
     fc2_units := fc2_units;
     num_treatment := num_treatment;
     step := step;
     logits_t := [nn_Linear θ "logits_t.0" fc2_units (fc2_units / 2); ReLU;
                  nn_Linear θ "logits_t.2" (fc2_units / 2) num_treatment];
     fc := [nn_Linear θ "fc.0" ((fc2_units + num_treatment) * step)
                               ((fc2_units + num_treatment) * step / 2); ReLU;
            nn_Linear θ "fc.2" ((fc2_units + num_treatment) * step / 2) action_size];
     training := true |}.

Definition train (mode : bool) (self : t) : t :=
  mk (encoder self) (name self) (fc1_units self) (fc2_units self) (num_treatment self)
     (step self) (logits_t self) (fc self) mode.
Definition eval (self : t) : t := train false self.

Definition _forward (self : t) : M R (Out R) :=
  data_z ← get_tensors "z";
  let z := slice_last (step self) data_z in
  t ← mapM (call_module LogitsT (logits_t self)) z;
  z ← lift (cat z);
  z ← lift (pad_left (Z.of_nat (fc2_units self * step self) - Z.of_nat (size1 z)) z);
  t_stack ← lift (stack1 t);
  onehot_t ← (if training self then onehot_truth (step self) t_stack
              else onehot_predicted t_stack);
  onehot_t ← lift (pad_left (Z.of_nat (num_treatment self * step self)
                             - Z.of_nat (size1 onehot_t)) onehot_t);
  x ← lift (cat [z; onehot_t]);
  y ← call_module Fc (fc self) x;
  t_last ← lift (item_last t);
  mret (mkOut t_last y z).

#[global] Instance dqn : AbstractDQN t := mkDQN t encoder _forward.

End Def.
Arguments t : clear implicits.
End CEQNetwork_1.

(** ** class CEQNetwork_2 (Variant C) *)

Module CEQNetwork_2.
Section Def.
Context {R : Type} `{Scalar R}.

Record t := mk {
  encoder : Sequential R;
  name : string;
  fc1_units : nat;
  fc2_units : nat;
  num_treatment : nat;
  step : nat;
  logits_t : Sequential R;
  fc_t0 : Sequential R;
  fc_t1 : Sequential R;
  training : bool
}.

Definition __init__ (θ : params R)
    (state_size action_size fc1_units fc2_units step num_treatment : nat) : t :=
  {| encoder := AbstractDQN_init θ state_size fc1_units fc2_units;
     name := "CEQNetwork_2";
     fc1_units := fc1_units;
     fc2_units := fc2_units;
     num_treatment := num_treatment;
     step := step;
     logits_t := [nn_Linear θ "logits_t.0" fc2_units (fc2_units / 2); ReLU;
                  nn_Linear θ "logits_t.2" (fc2_units / 2) num_treatment];
     fc_t0 := [nn_Linear θ "fc_t0.0" ((fc2_units + num_treatment) * step)
                                     ((fc2_units + num_treatment) * step / 2); ReLU;
               nn_Linear θ "fc_t0.2" ((fc2_units + num_treatment) * step / 2) action_size];
     fc_t1 := [nn_Linear θ "fc_t1.0" ((fc2_units + num_treatment) * step)
                                     ((fc2_units + num_treatment) * step / 2); ReLU;
               nn_Linear θ "fc_t1.2" ((fc2_units + num_treatment) * step / 2) action_size];
     training := true |}.

Definition train (mode : bool) (self : t) : t :=
  mk (encoder self) (name self) (fc1_units self) (fc2_units self) (num_treatment self)
     (step self) (logits_t self) (fc_t0 self) (fc_t1 self) mode.
Definition eval (self : t) : t := train false self.

Definition _forward (self : t) : M R (Out R) :=
  data_z ← get_tensors "z";
  let z := slice_last (step self) data_z in
  t ← mapM (call_module LogitsT (logits_t self)) z;
  z ← lift (cat z);
  z ← lift (pad_left (Z.of_nat (fc2_units self * step self) - Z.of_nat (size1 z)) z);
  t_stack ← lift (stack1 t);
  '(onehot_t, t_bernoulli) ←
    (if training self then
       onehot_t ← onehot_truth (step self) t_stack;
       data_t ← get_longs "t";
       t_last ← lift (item_last data_t);
       mret (onehot_t, float t_last)
     else
       onehot_t ← onehot_predicted t_stack;
       t_last ← lift (item_last t);
       index ← lift (topk1 t_last);
       mret (onehot_t, float index));
  onehot_t ← lift (pad_left (Z.of_nat (num_treatment self * step self)
                             - Z.of_nat (size1 onehot_t)) onehot_t);
  x0 ← lift (cat [z; onehot_t]);
  y_t0 ← call_module FcT0 (fc_t0 self) x0;
  x1 ← lift (cat [z; onehot_t]);
  y_t1 ← call_module FcT1 (fc_t1 self) x1;
  a ← lift (mul t_bernoulli y_t1);
  b ← lift (mul (one_minus t_bernoulli) y_t0);
  y ← lift (add a b);
  t_last ← lift (item_last t);
  mret (mkOut t_last y z).

#[global] Instance dqn : AbstractDQN t := mkDQN t encoder _forward.

End Def.
Arguments t : clear implicits.
End CEQNetwork_2.

(** ** Vocabulary of the laws *)

(** [tab N f] is the list [f 0; ...; f (N-1)]. *)
Definition tab {A} (N : nat) (f : nat → A) : list A := map f (seq 0 N).

(** Row [i] of a tensor. *)
Definition row {A} (t : list (list A)) (i : nat) : list A := default [] (t !! i).

(** The rows of sample [i] in a list of tensors, one per timestep. *)
Definition rows_at {A} (i : nat) (ts : list (list (list A))) : list (list A) :=
  map (λ t, row t i) ts.

(** [N] rows of width [w]. *)
Definition shaped {A} (N w : nat) (t : list (list A)) : Prop :=
  length t = N ∧ Forall (λ r, length r = w) t.

(** The input and output widths of a stack of layers. *)
Inductive typed {R} : Sequential R → nat → nat → Prop :=
| typed_nil i : typed [] i i
| typed_ReLU ms i o : typed ms i o → typed (ReLU :: ms) i o
| typed_Linear l ms o : typed ms (out_features l) o → typed (Linear_ l :: ms) (in_features l) o.

(** An [N × 1] integer tensor, from its entries. *)
Definition column (v : list Z) : long_tensor := map (λ a, [a]) v.

(** The one-hot vector of width [n] for class [k]: a one at index [k], zeros
    elsewhere. *)
Definition one_hot {R} `{Scalar R} (n k : nat) : list R := <[k := s1]> (replicate n s0).

(** The sum of the entries of a vector. *)
Definition ssum {R} `{Scalar R} (l : list R) : R := foldr sadd s0 l.

(** Slot [j] of a block made of slots of width [n]. *)
Definition slot {A} (n j : nat) (r : list A) : list A := take n (drop (j * n) r).

(** [k] is the lowest index of a largest entry of [l]. *)
Definition first_max {R} `{Scalar R} (l : list R) (k : nat) : Prop :=
  ∃ v, l !! k = Some v ∧
       (∀ j x, l !! j = Some x → sltb v x = false) ∧
       (∀ j x, j < k → l !! j = Some x → sltb x v = true).

(** The window block of sample [i], from the latent tensors [zs] of all
    timesteps: zeros for the timesteps missing on the left, then the latent
    vectors of the last [step] timesteps. *)
Definition window_row {R} `{Scalar R} (fc2_units step : nat) (zs : list (tensor R)) (i : nat)
    : list R :=
  replicate (fc2_units * (step - length zs)) s0
  ++ concat (rows_at i (drop (length zs - step) zs)).

(** The labels of sample [i], one per timestep. *)
Definition labels_at (i : nat) (labs : list (list Z)) : list Z :=
  map (λ col, default 0%Z (col !! i)) labs.

(** The predicted classes of sample [i], one per timestep, from the logits
    of the timesteps. *)
Definition predicted_at {R} `{Scalar R} (i : nat) (t : list (tensor R)) : list Z :=
  map (λ r, Z.of_nat (topk_index r)) (rows_at i t).

(** The classes that fill the treatment block of sample [i]: the labels of
    the last [step] timesteps in training mode, the predictions of the
    Treatment Head for those timesteps in evaluation mode. *)
Definition window_classes_at {R} `{Scalar R} (mode : bool) (step : nat)
    (labs : list (list Z)) (t : list (tensor R)) (i : nat) : list Z :=
  if mode then labels_at i (drop (length labs - step) labs) else predicted_at i t.

(** The treatment block of a sample, from the classes of the timesteps of
    its window: zero slots for the timesteps missing on the left, then one
    one-hot slot per timestep. *)
Definition treatment_row {R} `{Scalar R} (num_treatment step L : nat) (classes : list Z)
    : list R :=
  replicate (num_treatment * (step - L)) s0
  ++ concat (map (λ k, one_hot num_treatment (Z.to_nat k)) classes).

(** The input of the value heads of Variants B and C for one sample: its
    window block, then its treatment block. *)
Definition joint_row {R} `{Scalar R} (fc2_units num_treatment step : nat)
    (zs : list (tensor R)) (classes : list Z) (i : nat) : list R :=
  window_row fc2_units step zs i ++ treatment_row num_treatment step (length zs) classes.

(** Line 161 for one sample: [k * y1 + (1 - k) * y0], entry by entry. *)
Definition blend_row {R} `{Scalar R} (k : Z) (y1 y0 : list R) : list R :=
  zip_with sadd (map (smul (of_Z k)) y1) (map (smul (ssub s1 (of_Z k))) y0).

(** *** Well-formed batches *)

(** [data['state']] lists at least one tensor, each of [N ≥ 1] rows of width
    [state_size]. *)
Record batch {R} (state_size N : nat) (d : gmap string (value R))
    (states : list (tensor R)) : Prop := {
  batch_state : d !! "state" = Some (VTensors states);
  batch_nonempty : states ≠ [];
  batch_size : 0 < N;
  batch_shaped : Forall (shaped N state_size) states
}.

(** [data['prev_action']] holds one action index per sample, inside
    [[0, action_size)]. *)
Record prev_action_ok {R} (action_size N : nat) (d : gmap string (value R))
    (acts : list Z) : Prop := {
  prev_action_field : d !! "prev_action" = Some (VLong (column acts));
  prev_action_length : length acts = N;
  prev_action_range : Forall (λ a, 0 ≤ a < Z.of_nat action_size)%Z acts
}.

(** The last tensor of [data['t']] holds one label per sample. *)
Record latest_labels {R} (N : nat) (d : gmap string (value R)) (labels : list Z) : Prop := {
  latest_field : ∃ ts, d !! "t" = Some (VLongs ts) ∧ last ts = Some (column labels);
  latest_length : length labels = N
}.

(** [data['t']] lists one label tensor per timestep, aligned with the [L]
    states: one label per sample, inside [[0, num_treatment)]. *)
Record labels_ok {R} (num_treatment N L : nat) (d : gmap string (value R))
    (labs : list (list Z)) : Prop := {
  labels_field : d !! "t" = Some (VLongs (map column labs));
  labels_aligned : length labs = L;
  labels_range :
    Forall (λ col, length col = N ∧ Forall (λ k, 0 ≤ k < Z.of_nat num_treatment)%Z col) labs
}.

(** *** The laws *)

(** The window block law: [N] rows of width [fc2_units * step]; with fewer
    than [step] timesteps, zeros on the left and then all latent vectors of
    the sample, in order; otherwise the latent vectors of the last [step]
    timesteps. *)
Definition window_law {R} `{Scalar R} (fc2_units step N : nat) (zs : list (tensor R))
    (window_block : tensor R) : Prop :=
  length window_block = N ∧
  ∀ i, i < N → ∃ r,
    window_block !! i = Some r ∧ length r = fc2_units * step ∧
    (length zs < step →
       r = replicate (fc2_units * (step - length zs)) s0 ++ concat (rows_at i zs)) ∧
    (step ≤ length zs → r = concat (rows_at i (drop (length zs - step) zs))).

(** The treatment block law, for a block whose rows hold [step] slots of
    width [num_treatment] and a sequence of [L] timesteps: the slots of the
    missing timesteps, on the left, are zero; every other slot is the one-hot
    vector of the class of its timestep, sums to one and is not zero. *)
Definition treatment_block_law {R} `{Scalar R} (num_treatment step L N : nat)
    (classes : nat → list Z) (block : tensor R) : Prop :=
  length block = N ∧
  ∀ i, i < N → ∃ r,
    block !! i = Some r ∧ length r = num_treatment * step ∧
    ∀ j, j < step →
      (j < step - L → slot num_treatment j r = replicate num_treatment s0) ∧
      (step - L ≤ j →
         ∃ k, classes i !! (j - (step - L)) = Some k ∧
              (0 ≤ k < Z.of_nat num_treatment)%Z ∧
              slot num_treatment j r = one_hot num_treatment (Z.to_nat k) ∧
              ssum (slot num_treatment j r) = s1 ∧
              slot num_treatment j r ≠ replicate num_treatment s0).

(** The claim of the specification on malformed batches: the call fails
    with a shape error and no action-value head has been called. *)
Definition fails_fast {R} (m : M R (Out R)) (d : gmap string (value R)) : Prop :=
  ∃ d' log, m d = (d', log, Err ShapeMismatch) ∧
            Forall (λ c, is_value_head c = false) log.

(** *** Effects on the batch *)

(** The dicts [d1] and [d2] have the same entries outside the keys [U]. *)
Definition agree_off {R} (U : gset string) (d1 d2 : gmap string (value R)) : Prop :=
  ∀ k, k ∉ U → d1 !! k = d2 !! k.

(** [m] writes no key outside [W]. *)
Definition writes_only {R A} (W : gset string) (m : M R A) : Prop :=
  ∀ d, agree_off W d (m d).1.1.

(** Started from dicts that agree outside [U], the runs of [m] call the same
    modules, end alike, and leave dicts that agree outside [U]; outside [U']
    when they return. *)
Definition indep {R A} (U U' : gset string) (m : M R A) : Prop :=
  ∀ d1 d2, agree_off U d1 d2 →
    (m d1).1.2 = (m d2).1.2 ∧ (m d1).2 = (m d2).2 ∧
    agree_off U (m d1).1.1 (m d2).1.1 ∧
    (is_Ok (m d1).2 → agree_off U' (m d1).1.1 (m d2).1.1).

(** *** The schedule of the sub-module calls *)

(** The calls of a run of [m] follow the schedule [T]: the log is a prefix of
    [T] whatever the outcome, and all of [T] when the run returns. *)
Definition on_schedule {R A} (m : M R A) (T : list module_name)
    (d : gmap string (value R)) : Prop :=
  (m d).1.2 `prefix_of` T ∧ (is_Ok (m d).2 → (m d).1.2 = T).

Definition follows {R A} (T : list module_name) (m : M R A) : Prop :=
  ∀ d, on_schedule m T d.

(** The schedule of a forward call on a batch [d] whose ['state'] is a list
    of tensors: the encoder once per timestep, the Treatment Head once per
    timestep of the window, then the value heads. Without ['state'], nothing
    is called. *)
Definition schedule {R} (step : nat) (heads : list module_name)
    (d : gmap string (value R)) : list module_name :=
  match d !! "state" with
  | Some (VTensors states) =>
      replicate (length states) Encoder
      ++ replicate (length (slice_last step states)) LogitsT ++ heads
  | _ => []
  end.

(** The dicts [d1] and [d2] have the same entries at the keys [K]. *)
Definition agree_on {R} (K : gset string) (d1 d2 : gmap string (value R)) : Prop :=
  ∀ k, k ∈ K → d1 !! k = d2 !! k.

(** *** The samples of a batch *)

(** Sample [i] of a tensor, as a tensor of one row, *)
Definition sample_of {A} (i : nat) (t : list (list A)) : list (list A) := [row t i].

(** and of a field of the batch. *)
Definition sample {R} (i : nat) (v : value R) : value R :=
  match v with
  | VTensor t => VTensor (sample_of i t)
  | VTensors ts => VTensors (map (sample_of i) ts)
  | VLong t => VLong (sample_of i t)
  | VLongs ts => VLongs (map (sample_of i) ts)
  end.

(** ** A kernel of [topk] *)

Section Kernel.
Context {A : Type} (ltb : A → A → bool).

(** The scan from the left that moves only to a strictly larger entry, and
    so keeps the first of several equal largest entries. *)
Fixpoint scan_largest (best : nat) (bv : A) (i : nat) (l : list A) : nat :=
  match l with
  | [] => best
  | x :: l' =>
      if ltb bv x then scan_largest i x (S i) l' else scan_largest best bv (S i) l'
  end.

Definition first_largest (r : list A) : nat :=
  match r with
  | [] => 0
  | x :: l => scan_largest 0 x 1 l
  end.

(** The indices of the largest entries of a row, in increasing order. *)
Definition largest_indices (r : list A) : list nat :=
  List.filter
    (λ i, match r !! i with
          | Some v => forallb (λ x, negb (ltb v x)) r
          | None => false
          end)
    (seq 0 (length r)).

(** The index that the kernel returns. On the rows [[0; 2; 2; 2]] and
    [[30; 30; 30; 30; 30]] the CPU kernel of PyTorch returns index 2, and on
    rows of up to three scores the first of the largest entries: here, a row
    of up to three scores gives the first of its largest entries, a longer
    row the middle one. The laws are stated for every instance of [Scalar];
    this kernel serves the instances of the examples. *)
Definition kernel_index (r : list A) : nat :=
  if decide (length r ≤ 3) then first_largest r
  else let m := largest_indices r in nth (length m / 2) m (first_largest r).

Lemma scan_largest_lt best bv i (l : list A) :
  best < i → scan_largest best bv i l < i + length l.
Proof.
  revert best bv i. induction l as [|x l IH]; intros best bv i Hb; simpl; [lia|].
  destruct (ltb bv x).
  - specialize (IH i x (S i)). lia.
  - specialize (IH best bv (S i)). lia.
Qed.

Lemma first_largest_lt (r : list A) : r ≠ [] → first_largest r < length r.
Proof.
  destruct r as [|x l]; [done|]. intros _. simpl.
  pose proof (scan_largest_lt 0 x 1 l). lia.
Qed.

Lemma kernel_index_lt (r : list A) : r ≠ [] → kernel_index r < length r.
Proof.
  intros Hr. unfold kernel_index. destruct (decide _); [by apply first_largest_lt|].
  cbv zeta.
  destruct (nth_in_or_default (length (largest_indices r) / 2) (largest_indices r)
              (first_largest r)) as [Hin| ->]; [|by apply first_largest_lt].
  apply filter_In in Hin as [Hin _]. apply in_seq in Hin. lia.
Qed.

End Kernel.

(** ** Integer scalars, and the scenarios of the specification *)

#[export] Instance Z_scalar : Scalar Z := {|
  s0 := 0%Z; s1 := 1%Z;
  sadd := Z.add; ssub := Z.sub; smul := Z.mul;
  sltb := Z.ltb;
  of_Z := λ k, k;
  topk_index := kernel_index Z.ltb;
  topk_index_lt := kernel_index_lt Z.ltb
|}.

Module Scenario.

(** Some weights. *)
Definition theta : params Z := λ name i j,
  ((Z.of_nat (String.length name) + Z.of_nat i + 2 * Z.of_nat j) mod 5 - 2)%Z.

(** [state_size=4, action_size=2, step=4, num_treatment=2], with two units
    per hidden layer. *)
Definition netA : SimpleQNetwork.t Z := SimpleQNetwork.__init__ theta 4 2 2 2 4 2.
Definition netB : CEQNetwork_1.t Z := CEQNetwork_1.__init__ theta 4 2 2 2 4 2.
Definition netC : CEQNetwork_2.t Z := CEQNetwork_2.__init__ theta 4 2 2 2 4 2.

(** A batch of one sample and four timesteps; the latest label is 1 and the
    previous action is 0. *)
Definition states4 : list (tensor Z) :=
  [[[1; 0; 2; -1]]; [[0; 1; 1; 3]]; [[2; 2; 0; 1]]; [[1; -1; 0; 2]]]%Z.
Definition labels4 : list (list Z) := [[0]; [0]; [1]; [1]]%Z.
Definition data4 : gmap string (value Z) :=
  <["state" := VTensors states4]>
    (<["prev_action" := VLong [[0%Z]]]>
       (<["t" := VLongs (map column labels4)]> ∅)).

(** The same batch with the labels of another run. *)
Definition data4' : gmap string (value Z) :=
  <["t" := VLongs (map column [[1]; [1]; [0]; [0]]%Z)]> data4.

(** A batch of one sample and two timesteps, shorter than [step]. *)
Definition states2 : list (tensor Z) := [[[1; 0; 2; -1]]; [[0; 1; 1; 3]]]%Z.
Definition data2 : gmap string (value Z) :=
  <["state" := VTensors states2]>
    (<["prev_action" := VLong [[1%Z]]]>
       (<["t" := VLongs (map column [[1]; [0]]%Z)]> ∅)).

(** A state of three features, where [state_size] is four. *)
Definition data_narrow : gmap string (value Z) :=
  <["state" := VTensors [[[1; 0; 2; -1]]; [[0; 1; 1]]]%Z]> data4.

(** A latest label outside [[0, num_treatment)]. *)
Definition data_label5 : gmap string (value Z) :=
  <["t" := VLongs (map column [[0]; [0]; [1]; [5]]%Z)]> data4.

(** A batch of two samples whose latest label tensor has a single row. *)
Definition states4x2 : list (tensor Z) :=
  [[[1; 0; 2; -1]; [0; 0; 1; 1]]; [[0; 1; 1; 3]; [1; 1; 0; 0]];
   [[2; 2; 0; 1]; [0; 2; 0; 2]]; [[1; -1; 0; 2]; [3; 0; 1; 0]]]%Z.
Definition data_one_label : gmap string (value Z) :=
  <["state" := VTensors states4x2]>
    (<["prev_action" := VLong [[0]; [1]]%Z]>
       (<["t" := VLongs [[[0]; [0]]; [[0]; [1]]; [[1]; [0]]; [[1]]]%Z]> ∅)).

(** A batch of two samples with three previous actions. *)
Definition data_three_actions : gmap string (value Z) :=
  <["prev_action" := VLong [[0]; [1]; [0]]%Z]> data_one_label.

(** A batch that has been through a forward call before: it has a field
    ['z']. *)
Definition data_reused : gmap string (value Z) := <["z" := VTensors []]> data4.

End Scenario.

(** Further batches. *)
Module Examples.

(** Parameters that differ from [Scenario.theta] in the Treatment Head
    only. *)
Definition theta_other : params Z := λ name,
  if String.prefix "logits_t" name then (λ _ _, 3%Z) else Scenario.theta name.

(** The batch of the scenario without its previous actions, and without its
    labels. *)
Definition data_no_prev_action : gmap string (value Z) :=
  delete "prev_action" Scenario.data4.
Definition data_no_labels : gmap string (value Z) := delete "t" Scenario.data4.

(** A batch with no timestep. *)
Definition data_empty : gmap string (value Z) := <["state" := VTensors []]> ∅.

(** The batch of the scenario with one more timestep before the others. *)
Definition states5 : list (tensor Z) :=
  [[[3; 1; 0; 2]]; [[1; 0; 2; -1]]; [[0; 1; 1; 3]]; [[2; 2; 0; 1]]; [[1; -1; 0; 2]]]%Z.
Definition data5 : gmap string (value Z) :=
  <["state" := VTensors states5]> Scenario.data4.

(** The batch of the scenario with another previous action. *)
Definition data_other_action : gmap string (value Z) :=
  <["prev_action" := VLong [[1%Z]]]> Scenario.data4.

(** Two timesteps that do not hold the same number of samples. *)
Definition states_ragged : list (tensor Z) :=
  [[[1; 0; 2; -1]]; [[0; 1; 1; 3]; [1; 1; 0; 0]]]%Z.
Definition data_ragged : gmap string (value Z) :=
  <["state" := VTensors states_ragged]> Scenario.data4.

(** The batch of the scenario with the labels of two timesteps only. *)
Definition data_two_labels : gmap string (value Z) :=
  <["t" := VLongs (map column [[1]; [0]]%Z)]> Scenario.data4.

(** A well-formed batch of two samples and four timesteps. *)
Definition labels4x2 : list (list Z) := [[0; 1]; [0; 0]; [1; 0]; [1; 1]]%Z.
Definition data4x2 : gmap string (value Z) :=
  <["state" := VTensors Scenario.states4x2]>
    (<["prev_action" := VLong [[0]; [1]]%Z]>
       (<["t" := VLongs (map column labels4x2)]> ∅)).

(** The same batch with label tensors of a single row. *)
Definition data_labels_one_row : gmap string (value Z) :=
  <["t" := VLongs (map column Scenario.labels4)]> data4x2.


(** Parameters whose value heads [fc_t0] and [fc_t1] differ. *)
Definition theta_heads : params Z := λ name i j,
  if String.prefix "fc_t1" name then ((Z.of_nat i + Z.of_nat j) mod 3 - 1)%Z
  else Scenario.theta name i j.
Definition netC_heads : CEQNetwork_2.t Z := CEQNetwork_2.__init__ theta_heads 4 2 2 2 4 2.

(** Four treatment classes, with a Treatment Head whose scores are
    [[0; 2; 2; 2]] whatever the state: its weights are zero. *)
Definition theta_tie : params Z := λ name i j,
  if String.eqb name "logits_t.2.bias" then (if Nat.eqb j 0 then 0 else 2)%Z
  else if String.prefix "logits_t" name then 0%Z
  else Scenario.theta name i j.
Definition netA_tie : SimpleQNetwork.t Z := SimpleQNetwork.__init__ theta_tie 4 2 2 2 4 4.

End Examples.

(** ** Scalars with the special values of IEEE arithmetic *)

(** The integers, for the finite floats, with the two infinities and NaN.
    The arithmetic of the finite values is exact (neither rounding nor
    overflow is modelled); the special values follow IEEE 754. *)
Inductive ieee := Fin (z : Z) | PInf | NInf | NaN.

Definition ieee_opp (x : ieee) : ieee :=
  match x with Fin a => Fin (- a) | PInf => NInf | NInf => PInf | NaN => NaN end.

Definition ieee_add (x y : ieee) : ieee :=
  match x, y with
  | NaN, _ | _, NaN => NaN
  | PInf, NInf | NInf, PInf => NaN
  | PInf, _ | _, PInf => PInf
  | NInf, _ | _, NInf => NInf
  | Fin a, Fin b => Fin (a + b)
  end.

Definition ieee_sub (x y : ieee) : ieee := ieee_add x (ieee_opp y).

(** An infinity [x] multiplied by the finite value [a]: NaN for [a = 0]. *)
Definition ieee_scale (a : Z) (x : ieee) : ieee :=
  if (a =? 0)%Z then NaN else if (a <? 0)%Z then ieee_opp x else x.

Definition ieee_mul (x y : ieee) : ieee :=
  match x, y with
  | NaN, _ | _, NaN => NaN
  | Fin a, Fin b => Fin (a * b)
  | Fin a, _ => ieee_scale a y
  | _, Fin b => ieee_scale b x
  | PInf, _ => y
  | NInf, _ => ieee_opp y
  end.

(** [x < y]: false when [x] or [y] is NaN. *)
Definition ieee_ltb (x y : ieee) : bool :=
  match x, y with
  | NaN, _ | _, NaN => false
  | Fin a, Fin b => (a <? b)%Z
  | _, NInf | PInf, _ => false
  | NInf, _ | _, PInf => true
  end.

(** The order of [topk], which ranks NaN above every other value. *)
Definition ieee_topk_ltb (x y : ieee) : bool :=
  match x, y with
  | NaN, _ => false
  | _, NaN => true
  | _, _ => ieee_ltb x y
  end.

#[export] Instance ieee_scalar : Scalar ieee := {|
  s0 := Fin 0; s1 := Fin 1;
  sadd := ieee_add; ssub := ieee_sub; smul := ieee_mul;
  sltb := ieee_ltb;
  of_Z := Fin;
  topk_index := kernel_index ieee_topk_ltb;
  topk_index_lt := kernel_index_lt ieee_topk_ltb
|}.

(** The scenario with a value head whose bias has diverged. *)
Module Overflow.

(** The parameters [Examples.theta_heads], but for the bias of the last layer
    of [fc_t0], which is infinite. *)
Definition theta_inf : params ieee := λ name i j,
  if String.eqb name "fc_t0.2.bias" then PInf else Fin (Examples.theta_heads name i j).
Definition netC_inf : CEQNetwork_2.t ieee := CEQNetwork_2.__init__ theta_inf 4 2 2 2 4 2.

(** The batch of the scenario: its latest label is 1. *)
Definition fin (v : value Z) : value ieee :=
  match v with
  | VTensor t => VTensor (map (map Fin) t)
  | VTensors ts => VTensors (map (map (map Fin)) ts)
  | VLong t => VLong t
  | VLongs ts => VLongs ts
  end.
Definition data4_fin : gmap string (value ieee) := fin <$> Scenario.data4.

End Overflow.

(** * Lemmas *)

(** ** Integer scalars satisfy the laws *)

#[export] Instance Z_units : ScalarUnits Z.
Proof. split; simpl; intros; lia. Qed.

Lemma Z_regular (x : Z) : regular x.
Proof. unfold regular. simpl. lia. Qed.

(** ** The scalars of IEEE arithmetic: the constants, and the regular entries *)

#[export] Instance ieee_units : ScalarUnits ieee.
Proof. by split. Qed.

Lemma ieee_regular (x : ieee) : regular x ↔ ∃ a, x = Fin a.
Proof.
  unfold regular. split.
  - intros (H0 & _). destruct x; try done. eauto.
  - intros [a ->]. simpl. split_and!; f_equal; lia.
Qed.

Section KernelFacts.
Context {A : Type} (ltb : A → A → bool).
Hypothesis ltb_irrefl : ∀ x, ltb x x = false.
Hypothesis ltb_trans : ∀ x y z, ltb x y = true → ltb y z = true → ltb x z = true.
Hypothesis ltb_negtrans : ∀ x y z, ltb x y = false → ltb y z = false → ltb x z = false.

(** The scan keeps the first of the largest entries. *)
Lemma scan_largest_spec (pre l : list A) best bv :
  pre !! best = Some bv →
  (∀ j x, pre !! j = Some x → ltb bv x = false) →
  (∀ j x, j < best → pre !! j = Some x → ltb x bv = true) →
  let k := scan_largest ltb best bv (length pre) l in
  ∃ kv, (pre ++ l) !! k = Some kv ∧
    (∀ j x, (pre ++ l) !! j = Some x → ltb kv x = false) ∧
    (∀ j x, j < k → (pre ++ l) !! j = Some x → ltb x kv = true).
Proof.
  revert pre best bv. induction l as [|y l IH]; intros pre best bv Hbest Hmax Hfirst; simpl.
  - exists bv. rewrite app_nil_r. by split_and!.
  - assert (best < length pre) as Hlt by by eapply lookup_lt_Some.
    destruct (ltb bv y) eqn:Hy.
    + specialize (IH (pre ++ [y]) (length pre) y).
      rewrite length_app in IH. simpl in IH. rewrite Nat.add_1_r in IH.
      rewrite <- app_assoc in IH. simpl in IH. apply IH.
      * rewrite lookup_app_r by lia. by rewrite Nat.sub_diag.
      * intros j x Hj. destruct (decide (j < length pre)) as [Hjl|Hjl].
        -- rewrite lookup_app_l in Hj by done.
           destruct (ltb y x) eqn:Hyx; [|done].
           pose proof (Hmax j x Hj) as Hbx.
           by rewrite (ltb_trans bv y x Hy Hyx) in Hbx.
        -- rewrite lookup_app_r in Hj by lia.
           destruct (j - length pre) as [|n] eqn:Hn; simpl in Hj; [|done].
           injection Hj as <-. apply ltb_irrefl.
      * intros j x Hjl Hj. rewrite lookup_app_l in Hj by done.
        destruct (decide (j < best)) as [Hjb|Hjb].
        -- eapply ltb_trans; [by eapply Hfirst | done].
        -- destruct (ltb x y) eqn:Hxy; [done|].
           by rewrite (ltb_negtrans bv x y (Hmax j x Hj) Hxy) in Hy.
    + specialize (IH (pre ++ [y]) best bv).
      rewrite length_app in IH. simpl in IH. rewrite Nat.add_1_r in IH.
      rewrite <- app_assoc in IH. simpl in IH. apply IH.
      * by rewrite lookup_app_l.
      * intros j x Hj. destruct (decide (j < length pre)) as [Hjl|Hjl].
        -- rewrite lookup_app_l in Hj by done. by eapply Hmax.
        -- rewrite lookup_app_r in Hj by lia.
           destruct (j - length pre) as [|n] eqn:Hn; simpl in Hj; [|done]. congruence.
      * intros j x Hjb Hj. rewrite lookup_app_l in Hj by lia. by eapply Hfirst.
Qed.

Lemma first_largest_spec (r : list A) :
  r ≠ [] →
  ∃ kv, r !! first_largest ltb r = Some kv ∧
    (∀ j x, r !! j = Some x → ltb kv x = false) ∧
    (∀ j x, j < first_largest ltb r → r !! j = Some x → ltb x kv = true).
Proof.
  destruct r as [|x l]; [done|]. intros _.
  apply (scan_largest_spec [x] l 0 x); [done| |].
  - intros [|j] y [= <-]. apply ltb_irrefl.
  - intros j y Hj. lia.
Qed.

(** The index of the kernel holds a largest entry. *)
Lemma kernel_index_spec (r : list A) :
  r ≠ [] →
  ∃ kv, r !! kernel_index ltb r = Some kv ∧ ∀ j x, r !! j = Some x → ltb kv x = false.
Proof.
  intros Hr.
  assert (∃ kv, r !! first_largest ltb r = Some kv ∧
                ∀ j x, r !! j = Some x → ltb kv x = false) as Hfirst.
  { destruct (first_largest_spec r Hr) as (kv & Hkv & Hmax & _). eauto. }
  unfold kernel_index. destruct (decide _); [done|]. cbv zeta.
  destruct (nth_in_or_default (length (largest_indices ltb r) / 2) (largest_indices ltb r)
              (first_largest ltb r)) as [Hin| ->]; [|done].
  apply filter_In in Hin as [_ Hin].
  destruct (r !! nth _ _ _) as [v|] eqn:Hv; [|done].
  exists v. split; [done|]. intros j x Hj.
  rewrite forallb_forall in Hin. apply negb_true_iff, Hin.
  apply list_elem_of_In. by eapply list_elem_of_lookup_2.
Qed.

End KernelFacts.

#[export] Instance Z_topk_largest : TopkLargest Z.
Proof.
  intros r Hr. unfold largest. simpl.
  apply kernel_index_spec; [| | |done].
  - intros x. apply Z.ltb_irrefl.
  - intros x y z Hxy Hyz. apply Z.ltb_lt in Hxy, Hyz. apply Z.ltb_lt. lia.
  - intros x y z Hxy Hyz. apply Z.ltb_ge in Hxy, Hyz. apply Z.ltb_ge. lia.
Qed.

#[export] Instance ieee_topk_largest : TopkLargest ieee.
Proof.
  intros r Hr. unfold largest. simpl.
  destruct (kernel_index_spec ieee_topk_ltb) with (r := r) as (v & Hv & Hmax); [| | |done|].
  - by intros [a| | |]; simpl; rewrite ?Z.ltb_irrefl.
  - intros [a| | |] [b| | |] [c| | |]; simpl; try done.
    intros Hab Hbc. apply Z.ltb_lt in Hab, Hbc. apply Z.ltb_lt. lia.
  - intros [a| | |] [b| | |] [c| | |]; simpl; try done.
    intros Hab Hbc. apply Z.ltb_ge in Hab, Hbc. apply Z.ltb_ge. lia.
  - exists v. split; [done|]. intros j x Hj. specialize (Hmax j x Hj).
    by destruct v, x.
Qed.

Section Effects.
Context {R : Type} `{Scalar R}.
Implicit Types (d : gmap string (value R)) (U W : gset string).

Lemma agree_off_refl U d : agree_off U d d.
Proof. by intros k _. Qed.

Lemma agree_off_trans U d1 d2 d3 : agree_off U d1 d2 → agree_off U d2 d3 → agree_off U d1 d3.
Proof. intros H12 H23 k Hk. by rewrite H12, H23. Qed.

Lemma agree_off_mono U U' d1 d2 : U ⊆ U' → agree_off U d1 d2 → agree_off U' d1 d2.
Proof. intros HU Hd k Hk. apply Hd. set_solver. Qed.

Lemma agree_off_empty d1 d2 : agree_off ∅ d1 d2 → d1 = d2.
Proof. intros Hd. apply map_eq. intros k. apply Hd. set_solver. Qed.

Lemma bind_run {A B} (m : M R A) (f : A → M R B) d :
  (m ≫= f) d =
  match m d with
  | (d1, log1, Ok a) => match f a d1 with (d2, log2, r) => (d2, log1 ++ log2, r) end
  | (d1, log1, Err e) => (d1, log1, Err e)
  end.
Proof. reflexivity. Qed.

(** *** Frame rules *)

Lemma writes_only_ret W {A} (a : A) : writes_only W (mret a : M R A).
Proof. intros d. apply agree_off_refl. Qed.

Lemma writes_only_lift W {A} (r : result A) : writes_only W (lift r : M R A).
Proof. intros d. apply agree_off_refl. Qed.

Lemma writes_only_call_module W nm (ms : Sequential R) x :
  writes_only W (call_module nm ms x).
Proof. intros d. apply agree_off_refl. Qed.

Lemma writes_only_getitem W k : writes_only W (getitem (R:=R) k).
Proof. intros d. apply agree_off_refl. Qed.

Lemma writes_only_setitem W k (v : value R) : k ∈ W → writes_only W (setitem k v).
Proof. intros Hk d k' Hk'. simpl. rewrite lookup_insert_ne; [done | set_solver]. Qed.

Lemma writes_only_bind W {A B} (m : M R A) (f : A → M R B) :
  writes_only W m → (∀ a, writes_only W (f a)) → writes_only W (m ≫= f).
Proof.
  intros Hm Hf d. rewrite bind_run. specialize (Hm d).
  destruct (m d) as [[d1 log1] [a|e]]; simpl in *; [|done].
  specialize (Hf a d1). destruct (f a d1) as [[d2 log2] r]; simpl in *.
  by eapply agree_off_trans.
Qed.

Lemma writes_only_mapM W {A B} (f : A → M R B) (l : list A) :
  (∀ x, writes_only W (f x)) → writes_only W (mapM f l).
Proof.
  intros Hf. induction l as [|x l IH]; simpl.
  - apply writes_only_ret.
  - apply writes_only_bind; [done | intros y].
    apply writes_only_bind; [done | intros k]. apply writes_only_ret.
Qed.

(** *** Independence rules *)

Lemma indep_pure U {A} (m : M R A) (log : list module_name) (r : result A) :
  (∀ d, m d = (d, log, r)) → indep U U m.
Proof. intros Hm d1 d2 Hd. rewrite !Hm. simpl. auto. Qed.

Lemma indep_ret U {A} (a : A) : indep U U (mret a : M R A).
Proof. by apply (indep_pure U _ [] (Ok a)). Qed.

Lemma indep_lift U {A} (r : result A) : indep U U (lift r : M R A).
Proof. by apply (indep_pure U _ [] r). Qed.

Lemma indep_call_module U nm (ms : Sequential R) x : indep U U (call_module nm ms x).
Proof. by apply (indep_pure U _ [nm] (Sequential_forward ms x)). Qed.

Lemma indep_getitem U k : k ∉ U → indep U U (getitem (R:=R) k).
Proof. intros Hk d1 d2 Hd. unfold getitem. simpl. rewrite (Hd k Hk). auto. Qed.

Lemma indep_setitem U k (v : value R) : indep U (U ∖ {[k]}) (setitem k v).
Proof.
  intros d1 d2 Hd. simpl. repeat split; try done.
  - intros k' Hk'. destruct (decide (k = k')) as [->|Hne].
    + by rewrite !lookup_insert_eq.
    + rewrite !lookup_insert_ne by done. by apply Hd.
  - intros _ k' Hk'. destruct (decide (k = k')) as [->|Hne].
    + by rewrite !lookup_insert_eq.
    + rewrite !lookup_insert_ne by done. apply Hd. set_solver.
Qed.

Lemma indep_bind U U1 U2 {A B} (m : M R A) (f : A → M R B) :
  indep U U1 m → (∀ a, indep U1 U2 (f a)) → U1 ⊆ U → indep U U2 (m ≫= f).
Proof.
  intros Hm Hf HU d1 d2 Hd. rewrite !bind_run.
  destruct (Hm d1 d2 Hd) as (Hlog & Hr & HdU & HdU1).
  destruct (m d1) as [[d1' log1] r1], (m d2) as [[d2' log2] r2]; simpl in *; subst.
  destruct r2 as [a|e]; simpl; [|split_and!; try done; by intros [??]].
  destruct (Hf a d1' d2' (HdU1 (ex_intro _ a eq_refl))) as (Hlog' & Hr' & HdU' & HdU2).
  destruct (f a d1') as [[d1'' log1'] r1'], (f a d2') as [[d2'' log2'] r2']; simpl in *; subst.
  split_and!; try done. by eapply agree_off_mono.
Qed.

Lemma indep_weaken U U1 U2 {A} (m : M R A) : indep U U1 m → U1 ⊆ U2 → indep U U2 m.
Proof.
  intros Hm HU d1 d2 Hd. destruct (Hm d1 d2 Hd) as (? & ? & ? & Hok).
  split_and!; try done. intros Hr. eapply agree_off_mono; eauto.
Qed.

Lemma indep_mapM U {A B} (f : A → M R B) (l : list A) :
  (∀ x, indep U U (f x)) → indep U U (mapM f l).
Proof.
  intros Hf. induction l as [|x l IH]; simpl.
  - apply indep_ret.
  - eapply indep_bind; [done | intros y | done].
    eapply indep_bind; [done | intros k | done]. apply indep_ret.
Qed.

Lemma indep_get_tensor U k : k ∉ U → indep U U (get_tensor (R:=R) k).
Proof. intros. eapply indep_bind; [by apply indep_getitem | intros; apply indep_lift | done]. Qed.
Lemma indep_get_tensors U k : k ∉ U → indep U U (get_tensors (R:=R) k).
Proof. intros. eapply indep_bind; [by apply indep_getitem | intros; apply indep_lift | done]. Qed.
Lemma indep_get_long U k : k ∉ U → indep U U (get_long (R:=R) k).
Proof. intros. eapply indep_bind; [by apply indep_getitem | intros; apply indep_lift | done]. Qed.
Lemma indep_get_longs U k : k ∉ U → indep U U (get_longs (R:=R) k).
Proof. intros. eapply indep_bind; [by apply indep_getitem | intros; apply indep_lift | done]. Qed.

Lemma indep_if U U' {A} (b : bool) (m1 m2 : M R A) :
  indep U U' m1 → indep U U' m2 → indep U U' (if b then m1 else m2).
Proof. by destruct b. Qed.

Lemma writes_only_if W {A} (b : bool) (m1 m2 : M R A) :
  writes_only W m1 → writes_only W m2 → writes_only W (if b then m1 else m2).
Proof. by destruct b. Qed.

End Effects.

Ltac indep_go :=
  lazymatch goal with
  | |- indep _ _ (mret _) => apply indep_ret
  | |- indep _ _ (lift _) => apply indep_lift
  | |- indep _ _ (call_module _ _ _) => apply indep_call_module
  | |- indep _ _ (get_tensor _) => apply indep_get_tensor; set_solver
  | |- indep _ _ (get_tensors _) => apply indep_get_tensors; set_solver
  | |- indep _ _ (get_long _) => apply indep_get_long; set_solver
  | |- indep _ _ (get_longs _) => apply indep_get_longs; set_solver
  | |- indep _ _ (setitem _ _) => apply indep_setitem
  | |- indep _ _ (mapM _ _) => apply indep_mapM; intros; indep_go
  | |- indep _ _ (_ ≫= _) => eapply indep_bind; [indep_go | intros; indep_go | set_solver]
  | |- indep _ _ (if _ then _ else _) => apply indep_if; indep_go
  | |- indep _ _ (match ?p with (_, _) => _ end) => destruct p; indep_go
  | |- indep _ _ (let _ := _ in _) => cbv zeta; indep_go
  | |- indep _ _ ?m => let h := head_of m in unfold h; indep_go
  end
with head_of m := lazymatch m with ?f _ => head_of f | _ => m end.

Section ListFacts.
Context {A B C : Type}.

Lemma tab_length N (f : nat → A) : length (tab N f) = N.
Proof. unfold tab. by rewrite length_map, length_seq. Qed.

Lemma tab_lookup N (f : nat → A) i : i < N → tab N f !! i = Some (f i).
Proof.
  intros Hi. unfold tab. rewrite list_lookup_fmap.
  rewrite lookup_seq_lt by done. done.
Qed.

Lemma tab_ext N (f g : nat → A) : (∀ i, i < N → f i = g i) → tab N f = tab N g.
Proof.
  intros Hfg. unfold tab. apply map_ext_in. intros i Hi.
  apply in_seq in Hi. apply Hfg. lia.
Qed.

Lemma map_tab N (f : nat → A) (g : A → B) : map g (tab N f) = tab N (λ i, g (f i)).
Proof. unfold tab. by rewrite map_map. Qed.

Lemma zip_with_tab N (f : nat → A) (g : nat → B) (h : A → B → C) :
  zip_with h (tab N f) (tab N g) = tab N (λ i, h (f i) (g i)).
Proof. unfold tab. induction (seq 0 N) as [|x l IH]; simpl; [done | by rewrite IH]. Qed.

Lemma imap_tab (t : list B) (f : nat → A) : imap (λ i _, f i) t = tab (length t) f.
Proof.
  apply list_eq. intros i. rewrite list_lookup_imap.
  destruct (decide (i < length t)) as [Hi|Hi].
  - rewrite tab_lookup by done.
    destruct (lookup_lt_is_Some_2 t i Hi) as [x Hx]. by rewrite Hx.
  - rewrite lookup_ge_None_2 by lia. simpl.
    rewrite lookup_ge_None_2; [done | rewrite tab_length; lia].
Qed.

Lemma tab_S N (f : nat → A) : tab (S N) f = f 0 :: tab N (λ i, f (S i)).
Proof. unfold tab. simpl. f_equal. by rewrite <- seq_shift, map_map. Qed.

Lemma head_tab N (f : nat → A) : 0 < N → head (tab N f) = Some (f 0).
Proof. destruct N; [lia|]. by rewrite tab_S. Qed.

Lemma Forall_tab N (f : nat → A) (P : A → Prop) :
  (∀ i, i < N → P (f i)) → Forall P (tab N f).
Proof.
  intros HP. unfold tab. apply Forall_forall. intros x Hx.
  apply list_elem_of_In, in_map_iff in Hx as (i & <- & Hi). apply in_seq in Hi. apply HP. lia.
Qed.

End ListFacts.

Lemma tab_rows {A} (t : list (list A)) N : length t = N → t = tab N (row t).
Proof.
  intros <-. apply list_eq. intros i.
  destruct (decide (i < length t)) as [Hi|Hi].
  - rewrite tab_lookup by done. unfold row.
    destruct (lookup_lt_is_Some_2 t i Hi) as [x Hx]. by rewrite Hx.
  - rewrite !lookup_ge_None_2; [done | rewrite tab_length; lia | lia].
Qed.

Section SliceFacts.
Context {A B : Type}.

Lemma slice_last_drop k (l : list A) :
  slice_last k l = drop (if decide (k = 0) then 0 else length l - k) l.
Proof. unfold slice_last. by destruct (decide (k = 0)). Qed.

Lemma Forall_slice_last (P : A → Prop) k l : Forall P l → Forall P (slice_last k l).
Proof. rewrite slice_last_drop. apply Forall_drop. Qed.

Lemma slice_last_nonempty k (l : list A) : l ≠ [] → slice_last k l ≠ [].
Proof.
  intros Hl Hs. apply (f_equal length) in Hs. rewrite slice_last_drop, length_drop in Hs.
  destruct l; [done|]. simpl in *. destruct (decide (k = 0)); lia.
Qed.

Lemma length_slice_last k (l : list A) :
  length (slice_last k l) = if decide (k = 0) then length l else min k (length l).
Proof. rewrite slice_last_drop, length_drop. destruct (decide (k = 0)); lia. Qed.

Lemma last_drop_lt n (l : list A) : n < length l → last (drop n l) = last l.
Proof.
  intros Hn. rewrite !last_lookup, length_drop, lookup_drop. f_equal. lia.
Qed.

Lemma last_slice_last k (l : list A) : last (slice_last k l) = last l.
Proof.
  rewrite slice_last_drop. destruct l as [|x l]; [by rewrite drop_nil|].
  apply last_drop_lt. simpl. destruct (decide (k = 0)); lia.
Qed.

End SliceFacts.

Section ResultFacts.
Context {A B : Type}.

Lemma mapM_Ok (f : A → result B) l k :
  mapM f l = Ok k ↔ Forall2 (λ x y, f x = Ok y) l k.
Proof.
  revert k. induction l as [|x l IH]; intros k; simpl.
  - split; [intros [= <-]; constructor | by inversion 1].
  - split.
    + destruct (f x) as [y|] eqn:Hy; simpl; [|done].
      destruct (mapM f l) as [k'|] eqn:Hk; simpl; [|done].
      intros [= <-]. constructor; [done | by apply IH].
    + inversion 1 as [|? y ? k' Hy Hk]; subst. rewrite Hy. simpl.
      apply IH in Hk. rewrite Hk. done.
Qed.

Lemma mapM_Ok_total (f : A → result B) (g : A → B) l :
  Forall (λ x, f x = Ok (g x)) l → mapM f l = Ok (map g l).
Proof.
  intros Hl. apply mapM_Ok. induction Hl; simpl; constructor; auto.
Qed.

End ResultFacts.

Section ShapeFacts.
Context {A : Type}.
Implicit Types t : list (list A).

Lemma shaped_tab N w (f : nat → list A) :
  (∀ i, i < N → length (f i) = w) → shaped N w (tab N f).
Proof. intros Hf. split; [apply tab_length | by apply Forall_tab]. Qed.

Lemma shaped_row N w t i : shaped N w t → i < N → length (row t i) = w.
Proof.
  intros [Hlen Hall] Hi. unfold row.
  destruct (lookup_lt_is_Some_2 t i) as [r Hr]; [lia|]. rewrite Hr. simpl.
  by eapply (proj1 (Forall_lookup _ _) Hall).
Qed.

Lemma shaped_tab_rows N w t : shaped N w t → t = tab N (row t).
Proof. intros [Hlen _]. by apply tab_rows. Qed.

Lemma size1_shaped N w t : shaped N w t → 0 < N → size1 t = w.
Proof.
  intros [Hlen Hall] HN. unfold size1. destruct t as [|r t]; simpl in *; [lia|].
  by inversion Hall.
Qed.

Lemma size1_tab N (f : nat → list A) : 0 < N → size1 (tab N f) = length (f 0).
Proof. intros HN. unfold size1. by rewrite head_tab. Qed.

Lemma size0_tab N (f : nat → list A) : size0 (tab N f) = N.
Proof. apply tab_length. Qed.

End ShapeFacts.

Section TorchFacts.
Context {R : Type} `{Scalar R}.
Implicit Types (t x y : tensor R) (ms : Sequential R).

(** *** Layers *)

Lemma Linear_forward_ok N (l : Linear R) x :
  shaped N (in_features l) x →
  Linear_forward l x = Ok (map (Linear_row l) x) ∧
  shaped N (out_features l) (map (Linear_row l) x).
Proof.
  intros [Hlen Hall]. unfold Linear_forward.
  assert (forallb (λ r, Nat.eqb (length r) (in_features l)) x = true) as ->.
  { apply forallb_forall. intros r Hr. apply Nat.eqb_eq.
    by apply (proj1 (Forall_forall _ _) Hall), list_elem_of_In. }
  split; [done|]. split; [by rewrite length_map|].
  apply Forall_forall. intros r Hr. apply list_elem_of_In, in_map_iff in Hr as (r' & <- & _).
  unfold Linear_row. by rewrite length_map, length_seq.
Qed.

Lemma Linear_forward_Err (l : Linear R) x :
  Exists (λ r, length r ≠ in_features l) x → Linear_forward l x = Err ShapeMismatch.
Proof.
  intros Hex. unfold Linear_forward.
  destruct (forallb _ x) eqn:Hall; [|done]. exfalso.
  apply Exists_exists in Hex as (r & Hr & Hne). apply Hne, Nat.eqb_eq.
  rewrite forallb_forall in Hall. by apply Hall, list_elem_of_In.
Qed.

Lemma Sequential_forward_typed ms i o N x :
  typed ms i o → shaped N i x →
  ∃ y, Sequential_forward ms x = Ok y ∧ shaped N o y.
Proof.
  intros Hty. revert x. induction Hty as [i|ms i o _ IH|l ms o _ IH]; intros x Hx; simpl.
  - eauto.
  - apply IH. destruct Hx as [Hlen Hall]. split; [by rewrite length_map|].
    apply Forall_forall. intros r Hr.
    apply list_elem_of_In, in_map_iff in Hr as (r' & <- & Hr'). rewrite length_map.
    by apply (proj1 (Forall_forall _ _) Hall), list_elem_of_In.
  - destruct (Linear_forward_ok N l x Hx) as [-> Hy]. simpl. by apply IH.
Qed.

(** A stack of layers raises nothing but shape errors. *)
Lemma Sequential_forward_Err ms x e : Sequential_forward ms x = Err e → e = ShapeMismatch.
Proof.
  revert x. induction ms as [|m ms IH]; intros x; simpl; [done|].
  destruct m as [l|]; simpl.
  - unfold Linear_forward. destruct (forallb _ x); simpl; [apply IH | by intros [= <-]].
  - apply IH.
Qed.

Lemma mapM_typed ms i o N (xs : list (tensor R)) :
  typed ms i o → Forall (shaped N i) xs →
  ∃ ys, mapM (Sequential_forward ms) xs = Ok ys ∧ Forall (shaped N o) ys ∧
        length ys = length xs.
Proof.
  intros Hty Hxs. induction Hxs as [|x xs Hx _ (ys & Hys & Hsh & Hlen)]; simpl.
  - exists []. by split_and!.
  - destruct (Sequential_forward_typed ms i o N x Hty Hx) as (y & -> & Hy). simpl.
    rewrite Hys. simpl. exists (y :: ys). split_and!; [done | by constructor | simpl; lia].
Qed.

(** *** cat and pad *)

Lemma cat2_tab N (f g : nat → list R) :
  cat2 (tab N f) (tab N g) = Ok (tab N (λ i, f i ++ g i)).
Proof.
  unfold cat2. rewrite !size0_tab. rewrite decide_True by done. by rewrite zip_with_tab.
Qed.

Lemma cat_tab N (ts : list (tensor R)) :
  ts ≠ [] → Forall (λ t, length t = N) ts →
  cat ts = Ok (tab N (λ i, concat (rows_at i ts))).
Proof.
  intros Hne Hall. induction Hall as [|t ts Ht Hall IH]; [done|].
  destruct ts as [|t' ts].
  - simpl. f_equal. rewrite (tab_rows t N Ht) at 1. apply tab_ext. intros i _.
    simpl. by rewrite app_nil_r.
  - change (cat (t :: t' :: ts)) with (cat (t' :: ts) ≫= cat2 t).
    rewrite IH by done. simpl. rewrite (tab_rows t N Ht) at 1. by rewrite cat2_tab.
Qed.

Lemma length_concat_rows_at N w (ts : list (tensor R)) i :
  Forall (shaped N w) ts → i < N → length (concat (rows_at i ts)) = w * length ts.
Proof.
  intros Hall Hi. induction Hall as [|t ts Ht _ IH]; simpl; [lia|].
  rewrite length_app, IH, (shaped_row N w t i Ht Hi). lia.
Qed.

Lemma pad_left_tab N (p : Z) (f : nat → list R) :
  (0 ≤ p)%Z → pad_left p (tab N f) = Ok (tab N (λ i, replicate (Z.to_nat p) s0 ++ f i)).
Proof. intros Hp. unfold pad_left. rewrite decide_True by done. by rewrite map_tab. Qed.

Lemma pad_left_tab_crop N (p : Z) (f : nat → list R) :
  (p < 0)%Z → (∀ i, i < N → length (f i) = Z.to_nat (- p)) → 0 < N →
  pad_left p (tab N f) = Ok (tab N (λ _, [])).
Proof.
  intros Hp Hf HN. unfold pad_left. rewrite decide_False by lia.
  rewrite size1_tab, (Hf 0) by done. rewrite decide_True by lia.
  rewrite map_tab. f_equal. apply tab_ext. intros i Hi.
  apply drop_ge. rewrite Hf by done. lia.
Qed.

(** A block of [L] slots of width [w] each, left-padded to [step] slots:
    lines 47-48 (and 103) of [model.py]. *)
Lemma cat_pad_slots N w step L (f : nat → list R) :
  0 < N →
  (∀ i, i < N → length (f i) = w * (if decide (step = 0) then L else min step L)) →
  pad_left (Z.of_nat (w * step) - Z.of_nat (size1 (tab N f))) (tab N f)
  = Ok (tab N (λ i, replicate (w * (step - L)) s0
                    ++ (if decide (step = 0) then [] else f i))).
Proof.
  intros HN Hf. rewrite size1_tab, (Hf 0) by done.
  destruct (decide (step = 0)) as [->|Hstep].
  - destruct (decide (w * L = 0)) as [HwL|HwL].
    + rewrite pad_left_tab by lia. f_equal. apply tab_ext. intros i Hi.
      specialize (Hf i Hi). rewrite HwL in Hf.
      apply nil_length_inv in Hf. rewrite Hf.
      replace (Z.to_nat (Z.of_nat (w * 0) - Z.of_nat (w * L))) with 0 by lia.
      by replace (w * (0 - L)) with 0 by lia.
    + rewrite pad_left_tab_crop; [|lia| |done].
      * f_equal. apply tab_ext. intros i Hi. by replace (w * (0 - L)) with 0 by lia.
      * intros i Hi. rewrite Hf by done. lia.
  - rewrite pad_left_tab by nia. f_equal. apply tab_ext. intros i Hi. do 2 f_equal. nia.
Qed.

End TorchFacts.

Section ScatterFacts.
Context {R : Type} `{Scalar R}.

Lemma length_one_hot n k : length (one_hot n k : list R) = n.
Proof. unfold one_hot. by rewrite length_insert, length_replicate. Qed.

Lemma scatter_along_map {A B} (f : A → B → result A) (g : B → A) (a : A) (ix : list B) :
  Forall (λ b, f a b = Ok (g b)) ix →
  scatter_along f (replicate (length ix) a) ix = Ok (map g ix).
Proof.
  induction 1 as [|b ix Hb _ IH]; simpl; [done|]. rewrite Hb. simpl. by rewrite IH.
Qed.

Lemma scatter_along_Err {A B} (f : A → B → result A) (a : A) (ix : list B) e n :
  length ix ≤ n →
  Forall (λ b, ∀ e', f a b = Err e' → e' = e) ix →
  Exists (λ b, ∃ e', f a b = Err e') ix →
  scatter_along f (replicate n a) ix = Err e.
Proof.
  intros Hn Hall Hex. revert n Hn. induction Hall as [|b ix Hb Hall IH]; intros n Hn.
  - by inversion Hex.
  - destruct n as [|n]; simpl in *; [lia|].
    destruct (f a b) as [a'|e'] eqn:Hf; simpl.
    + inversion Hex as [?? [e' He']|?? Hex']; subst; [congruence|].
      rewrite IH; [done | done | lia].
    + by rewrite (Hb e').
Qed.

Lemma concat_column (ks : list Z) : concat (column ks) = ks.
Proof. unfold column. induction ks as [|k ks IH]; simpl; [done | by rewrite IH]. Qed.

Lemma scatter1_kernel_empty (self : tensor R) (index : long_tensor) v :
  concat index = [] → length index ≤ length self →
  scatter1_kernel self index v = Ok self.
Proof.
  unfold scatter1_kernel. revert self.
  induction index as [|ix index IH]; intros self Hnil Hlen; [by destruct self|].
  simpl in Hnil. apply app_eq_nil in Hnil as [-> Hnil].
  destruct self as [|r self]; simpl in *; [lia|]. rewrite IH; [done|done|lia].
Qed.

(** With an index of no more rows than [self], [scatter] is its writes. *)
Lemma scatter1_checked (self : tensor R) (index : long_tensor) v :
  length index ≤ length self → scatter1 self index v = scatter1_kernel self index v.
Proof.
  intros Hlen. unfold scatter1. destruct (decide (concat index = [])) as [Hnil|_].
  - by rewrite scatter1_kernel_empty.
  - by rewrite decide_True.
Qed.

(** The one-hot rows that [scatter] writes into fresh zeros, for a column of
    classes inside the width. *)
Lemma scatter1_one_hot n (ks : list Z) :
  Forall (λ k, 0 ≤ k < Z.of_nat n)%Z ks →
  scatter1 (replicate (length ks) (replicate n s0)) (column ks) s1
  = Ok (map (λ k, one_hot n (Z.to_nat k)) ks).
Proof.
  intros Hks. rewrite scatter1_checked.
  2: { unfold column. by rewrite length_map, length_replicate. }
  unfold scatter1_kernel, column.
  rewrite <- (length_map (λ a : Z, [a]) ks) at 1.
  rewrite (scatter_along_map _ (λ ix, one_hot n (Z.to_nat (default 0%Z (head ix))))).
  - by rewrite map_map.
  - apply Forall_map. eapply Forall_impl; [done|]. intros k Hk. simpl.
    rewrite length_replicate. by rewrite decide_True.
Qed.

(** A class outside the width makes [scatter] fail. *)
Lemma scatter1_out n m (ks : list Z) :
  length ks ≤ m →
  Exists (λ k, ¬ (0 ≤ k < Z.of_nat n)%Z) ks →
  scatter1 (replicate m (replicate n s0)) (column ks) s1 = Err IndexOutOfBounds.
Proof.
  intros Hm Hex. rewrite scatter1_checked.
  2: { unfold column. by rewrite length_map, length_replicate. }
  unfold scatter1_kernel, column. apply scatter_along_Err.
  - by rewrite length_map.
  - apply Forall_map, Forall_forall. intros k _ e'. simpl. rewrite length_replicate.
    destruct (decide _); [done | by intros [= <-]].
  - apply Exists_fmap. eapply Exists_impl; [done|]. intros k Hk. simpl.
    rewrite length_replicate. rewrite decide_False by done. eauto.
Qed.

Lemma zeros_like_shaped N w (t : tensor R) :
  shaped N w t → zeros_like t = replicate N (replicate w s0).
Proof.
  intros [<- Hall]. unfold zeros_like. induction Hall as [|r t Hr _ IH]; simpl; [done|].
  rewrite IH. f_equal. rewrite <- Hr. clear. induction r; simpl; [done | by f_equal].
Qed.

Lemma map_as_tab {A B} (f : A → B) (l : list A) (a : A) :
  map f l = tab (length l) (λ i, f (default a (l !! i))).
Proof.
  apply list_eq. intros i. rewrite list_lookup_fmap.
  destruct (decide (i < length l)) as [Hi|Hi].
  - rewrite tab_lookup by done. destruct (lookup_lt_is_Some_2 l i Hi) as [x Hx].
    by rewrite Hx.
  - rewrite !lookup_ge_None_2; [done | rewrite tab_length; lia | lia].
Qed.

End ScatterFacts.

Section TopkFacts.
Context {R : Type} `{Scalar R}.

Lemma topk1_row_index (r : list R) : r ≠ [] → topk1_row r = Ok [Z.of_nat (topk_index r)].
Proof. by destruct r. Qed.

Lemma topk1_column N w (t : tensor R) :
  shaped N w t → 0 < w → topk1 t = Ok (column (map (λ r, Z.of_nat (topk_index r)) t)).
Proof.
  intros [_ Hall] Hw. unfold topk1, column. rewrite map_map.
  apply mapM_Ok_total. eapply Forall_impl; [done|]. intros r Hr. simpl in *.
  apply topk1_row_index. intros ->. simpl in *. lia.
Qed.

(** A class that scores strictly above every other class is the one
    selected. *)
Lemma topk_index_unique `{!TopkLargest R} (r : list R) k v :
  r !! k = Some v →
  (∀ j x, j ≠ k → r !! j = Some x → sltb x v = true) →
  topk_index r = k.
Proof.
  intros Hk Habove.
  destruct (topk_index_largest r) as (w & Hw & Hmax); [by intros ->|].
  destruct (decide (topk_index r = k)) as [|Hne]; [done|].
  pose proof (Hmax k v Hk) as Hf. by rewrite (Habove _ _ Hne Hw) in Hf.
Qed.

End TopkFacts.

Lemma broadcast_dim_same n : broadcast_dim n n = Ok n.
Proof. unfold broadcast_dim. by rewrite decide_True. Qed.

Lemma broadcast_dim_1_l n : broadcast_dim 1 n = Ok n.
Proof.
  unfold broadcast_dim. destruct (decide (1 = n)) as [<-|]; [done|].
  by rewrite decide_True.
Qed.

Lemma expand_dim_id {A} n (l : list A) : length l = n → expand_dim n l = l.
Proof. destruct l as [|x [|y l]]; simpl; try done. by intros <-. Qed.

Lemma expand_tab {A} N w (f : nat → list A) :
  (∀ i, i < N → length (f i) = w) → expand N w (tab N f) = tab N f.
Proof.
  intros Hf. unfold expand. rewrite map_tab.
  rewrite expand_dim_id by apply tab_length.
  apply tab_ext. intros i Hi. by apply expand_dim_id, Hf.
Qed.

Lemma expand_tab_column {A} N w (c : nat → A) :
  expand N w (tab N (λ i, [c i])) = tab N (λ i, replicate w (c i)).
Proof. unfold expand. rewrite map_tab. simpl. by rewrite expand_dim_id by apply tab_length. Qed.

Lemma broadcast2_same {A B C} N w (f : A → B → C) (fa : nat → list A) (fb : nat → list B) :
  (∀ i, i < N → length (fa i) = w) → (∀ i, i < N → length (fb i) = w) → 0 < N →
  broadcast2 f (tab N fa) (tab N fb) = Ok (tab N (λ i, zip_with f (fa i) (fb i))).
Proof.
  intros Ha Hb HN. unfold broadcast2.
  rewrite !size0_tab, broadcast_dim_same. simpl.
  rewrite !size1_tab, Ha, Hb, broadcast_dim_same by done. simpl.
  rewrite !expand_tab by done. by rewrite zip_with_tab.
Qed.

Lemma broadcast2_column {A B C} N w (f : A → B → C) (c : nat → A) (fb : nat → list B) :
  (∀ i, i < N → length (fb i) = w) → 0 < N →
  broadcast2 f (tab N (λ i, [c i])) (tab N fb) = Ok (tab N (λ i, map (f (c i)) (fb i))).
Proof.
  intros Hb HN. unfold broadcast2.
  rewrite !size0_tab, broadcast_dim_same. simpl.
  rewrite !size1_tab, Hb by done. simpl. rewrite broadcast_dim_1_l. simpl.
  rewrite expand_tab_column, expand_tab by done. rewrite zip_with_tab.
  f_equal. apply tab_ext. intros i Hi. apply zip_with_replicate_l. by rewrite Hb.
Qed.

Section WhereFacts.
Context {R : Type} `{Scalar R}.

Lemma column_tab (ks : list Z) : column ks = tab (length ks) (λ i, [default 0%Z (ks !! i)]).
Proof. unfold column. apply (map_as_tab (λ a, [a])). Qed.

Lemma where_column N w (ks : list Z) (fx fy : nat → list R) :
  length ks = N → 0 < N →
  (∀ i, i < N → length (fx i) = w) → (∀ i, i < N → length (fy i) = w) →
  where_ (eq_1 (column ks)) (tab N fx) (tab N fy)
  = Ok (tab N (λ i, if decide (default 0%Z (ks !! i) = 1%Z) then fx i else fy i)).
Proof.
  intros Hks HN Hx Hy. unfold where_.
  rewrite (broadcast2_same N w) by done. simpl.
  unfold eq_1. rewrite column_tab, Hks, map_tab. simpl.
  rewrite (broadcast2_column N w); [|intros i Hi|done].
  - f_equal. apply tab_ext. intros i Hi.
    rewrite bool_decide_decide. destruct (decide _).
    + change (map _ (zip_with pair (fx i) (fy i))) with ((zip (fx i) (fy i)).*1).
      apply fst_zip. rewrite Hx, Hy by done. done.
    + change (map _ (zip_with pair (fx i) (fy i))) with ((zip (fx i) (fy i)).*2).
      apply snd_zip. rewrite Hx, Hy by done. done.
  - rewrite length_zip_with, Hx, Hy by done. lia.
Qed.

End WhereFacts.

Section StackFacts.
Context {A : Type}.

Lemma stack1_tab N w (ts : list (list (list A))) :
  ts ≠ [] → Forall (shaped N w) ts → 0 < N →
  stack1 ts = Ok (tab N (λ i, rows_at i ts)).
Proof.
  intros Hne Hall HN. unfold stack1. destruct ts as [|t0 ts]; [done|].
  assert (shaped N w t0) as Ht0 by by inversion Hall.
  assert (forallb (λ t, Nat.eqb (size0 t) (size0 t0) && Nat.eqb (size1 t) (size1 t0))
            (t0 :: ts) = true) as ->.
  { apply forallb_forall. intros t Ht. apply list_elem_of_In in Ht.
    pose proof (proj1 (Forall_forall _ _) Hall t Ht) as Hsh.
    rewrite (size1_shaped N w t), (size1_shaped N w t0) by done.
    unfold size0. rewrite (proj1 Hsh), (proj1 Ht0). by rewrite !Nat.eqb_refl. }
  f_equal. rewrite imap_tab. by rewrite (proj1 Ht0).
Qed.

Lemma rows_at_shaped N w (ts : list (list (list A))) i :
  Forall (shaped N w) ts → i < N → shaped (length ts) w (rows_at i ts).
Proof.
  intros Hall Hi. split; [unfold rows_at; by rewrite length_map|].
  unfold rows_at. apply Forall_map. eapply Forall_impl; [done|].
  intros t Ht. simpl. by eapply shaped_row.
Qed.

Lemma mapM_tab {B} (f : A → result B) N (g : nat → A) (h : nat → B) :
  (∀ i, i < N → f (g i) = Ok (h i)) → mapM f (tab N g) = Ok (tab N h).
Proof.
  intros Hf. apply mapM_Ok. unfold tab.
  apply Forall2_fmap, Forall_Forall2_diag, Forall_forall.
  intros i Hi. apply list_elem_of_In, in_seq in Hi. apply Hf. lia.
Qed.

Lemma scatter_along_tab {B} (f : A → B → result A) N (a : nat → A) (b : nat → B)
    (c : nat → A) :
  (∀ i, i < N → f (a i) (b i) = Ok (c i)) →
  scatter_along f (tab N a) (tab N b) = Ok (tab N c).
Proof.
  revert a b c. induction N as [|N IH]; intros a b c Hf; [done|].
  rewrite !tab_S. simpl. rewrite Hf by lia. simpl.
  rewrite (IH _ _ (λ i, c (S i))); [done|]. intros i Hi. apply Hf. lia.
Qed.

End StackFacts.

Section BlockFacts.
Context {R : Type} `{Scalar R}.

Lemma view_flat_tab N (f : nat → list (list R)) :
  0 < N → view_flat (tab N f) = Ok (tab N (λ i, concat (f i))).
Proof.
  intros HN. unfold view_flat. rewrite size0_tab. rewrite decide_False by lia.
  by rewrite map_tab.
Qed.

Lemma zeros_like3_tab N L w (f : nat → list (list R)) :
  (∀ i, i < N → shaped L w (f i)) →
  zeros_like3 (tab N f) = tab N (λ _, replicate L (replicate w s0)).
Proof.
  intros Hf. unfold zeros_like3. rewrite map_tab. apply tab_ext. intros i Hi.
  by apply zeros_like_shaped, Hf.
Qed.

Lemma concat_concat_nil {A} (X : list (list (list A))) x :
  concat (concat X) = [] → x ∈ X → concat x = [].
Proof.
  induction X as [|x' X IH]; intros Hnil Hx; [by apply elem_of_nil in Hx|].
  simpl in Hnil. rewrite concat_app in Hnil. apply app_eq_nil in Hnil as [Hx' HX].
  apply elem_of_cons in Hx as [->|Hx]; [done | by apply IH].
Qed.

(** With an index of no more rows per sample than [self], [scatter] is its
    writes. *)
Lemma scatter2_checked N L L' (a : nat → tensor R) (b : nat → long_tensor) v :
  (∀ i, i < N → length (a i) = L) → (∀ i, i < N → length (b i) = L') → L' ≤ L →
  scatter2 (tab N a) (tab N b) v = scatter2_kernel (tab N a) (tab N b) v.
Proof.
  intros Ha Hb Hle. unfold scatter2.
  destruct (decide (concat (concat (tab N b)) = [])) as [Hnil|Hne].
  - symmetry. unfold scatter2_kernel. apply scatter_along_tab. intros i Hi.
    apply scatter1_kernel_empty; [|rewrite Ha, Hb by done; done].
    apply (concat_concat_nil (tab N b)); [done|].
    apply list_elem_of_lookup. exists i. by apply tab_lookup.
  - destruct N as [|N]; [done|].
    rewrite decide_True; [done|]. unfold size0.
    rewrite !tab_length, !size1_tab, Ha, Hb by lia. lia.
Qed.

(** An index of more rows per sample than [self] is rejected. *)
Lemma scatter2_long N L L' (a : nat → tensor R) (ks : nat → list Z) v :
  0 < N → (∀ i, i < N → length (a i) = L) → (∀ i, i < N → length (ks i) = L') → L < L' →
  scatter2 (tab N a) (tab N (λ i, column (ks i))) v = Err ShapeMismatch.
Proof.
  intros HN Ha Hk Hlt. unfold scatter2.
  destruct (decide (concat (concat (tab N (λ i, column (ks i)))) = [])) as [Hnil|Hne].
  - apply (concat_concat_nil _ (column (ks 0))) in Hnil.
    + rewrite concat_column in Hnil. specialize (Hk 0 HN). rewrite Hnil in Hk.
      simpl in Hk. lia.
    + apply list_elem_of_lookup. exists 0.
      exact (tab_lookup N (λ i, column (ks i)) 0 HN).
  - rewrite decide_False; [done|]. intros [_ Hsize].
    rewrite !size1_tab, Ha in Hsize by done. unfold column in Hsize.
    rewrite length_map, Hk in Hsize by done. lia.
Qed.

(** The one-hot rows of the samples whose classes over the window are [ks]. *)
Lemma scatter2_one_hot N L w (ks : nat → list Z) :
  (∀ i, i < N → length (ks i) = L ∧ Forall (λ k, 0 ≤ k < Z.of_nat w)%Z (ks i)) →
  scatter2 (tab N (λ _, replicate L (replicate w s0))) (tab N (λ i, column (ks i))) s1
  = Ok (tab N (λ i, map (λ k, one_hot w (Z.to_nat k)) (ks i))).
Proof.
  intros Hks. rewrite (scatter2_checked N L L); [| |..|done].
  - unfold scatter2_kernel. apply scatter_along_tab.
    intros i Hi. destruct (Hks i Hi) as [<- Hin].
    rewrite <- scatter1_checked; [by apply scatter1_one_hot|].
    unfold column. by rewrite length_map, length_replicate.
  - intros i Hi. apply length_replicate.
  - intros i Hi. unfold column. rewrite length_map. by apply Hks.
Qed.

Lemma rows_at_column (i : nat) (labs : list (list Z)) :
  Forall (λ col, i < length col) labs →
  rows_at i (map column labs) = column (map (λ col, default 0%Z (col !! i)) labs).
Proof.
  intros Hall. unfold rows_at, column. rewrite !map_map.
  apply map_ext_in. intros col Hcol.
  pose proof (proj1 (Forall_forall _ _) Hall col (proj2 (list_elem_of_In _ _) Hcol)) as Hi.
  unfold row. rewrite list_lookup_fmap.
  destruct (lookup_lt_is_Some_2 col i Hi) as [a Ha]. by rewrite Ha.
Qed.

End BlockFacts.

Section RunFacts.
Context {R : Type} `{Scalar R}.
Implicit Types d : gmap string (value R).

Lemma run_bind {A B} (m : M R A) (f : A → M R B) d d1 log1 a d2 log2 r :
  m d = (d1, log1, Ok a) → f a d1 = (d2, log2, r) → (m ≫= f) d = (d2, log1 ++ log2, r).
Proof. intros Hm Hf. by rewrite bind_run, Hm, Hf. Qed.

Lemma run_lift {A} (r : result A) a d : r = Ok a → lift r d = (d, [], Ok a).
Proof. by intros ->. Qed.

Lemma run_get_tensor d k t : d !! k = Some (VTensor t) → get_tensor k d = (d, [], Ok t).
Proof. intros Hk. unfold get_tensor. rewrite bind_run. unfold getitem. by rewrite Hk. Qed.

Lemma run_get_tensors d k ts : d !! k = Some (VTensors ts) → get_tensors k d = (d, [], Ok ts).
Proof. intros Hk. unfold get_tensors. rewrite bind_run. unfold getitem. by rewrite Hk. Qed.

Lemma run_get_long d k t : d !! k = Some (VLong t) → get_long k d = (d, [], Ok t).
Proof. intros Hk. unfold get_long. rewrite bind_run. unfold getitem. by rewrite Hk. Qed.

Lemma run_get_longs d k ts : d !! k = Some (VLongs ts) → get_longs k d = (d, [], Ok ts).
Proof. intros Hk. unfold get_longs. rewrite bind_run. unfold getitem. by rewrite Hk. Qed.

Lemma run_call_module nm (ms : Sequential R) x y d :
  Sequential_forward ms x = Ok y → call_module nm ms x d = (d, [nm], Ok y).
Proof. unfold call_module. by intros ->. Qed.

(** The comprehension [[module(x) for x in xs]] calls the module until it
    raises. *)
Lemma run_mapM_call nm (ms : Sequential R) (xs : list (tensor R)) d :
  ∃ n, n ≤ length xs ∧
    mapM (call_module nm ms) xs d = (d, replicate n nm, mapM (Sequential_forward ms) xs) ∧
    (is_Ok (mapM (Sequential_forward ms) xs) → n = length xs).
Proof.
  induction xs as [|x xs (n & Hn & IH & Hok)]; simpl.
  - exists 0. split_and!; done.
  - rewrite bind_run. unfold call_module at 1.
    destruct (Sequential_forward ms x) as [y|e]; simpl.
    + rewrite bind_run, IH. destruct (mapM (Sequential_forward ms) xs) as [ys|e]; simpl.
      * exists (S n). split_and!; [lia| by rewrite app_nil_r |].
        intros _. f_equal. apply Hok. by eexists.
      * exists (S n). split_and!; [lia|done|]. by intros [??].
    + exists 1. split_and!; [lia|done|]. by intros [??].
Qed.

Lemma run_mapM_call_Ok nm (ms : Sequential R) (xs ys : list (tensor R)) d :
  mapM (Sequential_forward ms) xs = Ok ys →
  mapM (call_module nm ms) xs d = (d, replicate (length xs) nm, Ok ys).
Proof.
  intros Hys. destruct (run_mapM_call nm ms xs d) as (n & _ & Hrun & Hn).
  rewrite Hrun, Hys, Hn; [done | by eexists].
Qed.

End RunFacts.

Section WindowFacts.
Context {R : Type} `{Scalar R}.

Lemma length_window_row fc2_units step N (zs : list (tensor R)) i :
  Forall (shaped N fc2_units) zs → i < N →
  length (window_row fc2_units step zs i) = fc2_units * step.
Proof.
  intros Hzs Hi. unfold window_row.
  rewrite length_app, length_replicate.
  rewrite (length_concat_rows_at N fc2_units) by (by apply Forall_drop || done).
  rewrite length_drop. nia.
Qed.

(** Lines 47-48: the window block of the sliced latent sequence. *)
Lemma window_block fc2_units step N (zs : list (tensor R)) z :
  zs ≠ [] → 0 < N → Forall (shaped N fc2_units) zs →
  cat (slice_last step zs) = Ok z →
  pad_left (Z.of_nat (fc2_units * step) - Z.of_nat (size1 z)) z
  = Ok (tab N (window_row fc2_units step zs)).
Proof.
  intros Hne HN Hzs Hcat.
  rewrite (cat_tab N) in Hcat.
  2: by apply slice_last_nonempty.
  2: { apply Forall_slice_last. eapply Forall_impl; [done|]. by intros t [? _]. }
  injection Hcat as <-.
  rewrite (cat_pad_slots N fc2_units step (length zs)); [|done|].
  - f_equal. apply tab_ext. intros i Hi. unfold window_row. f_equal.
    rewrite slice_last_drop. destruct (decide (step = 0)) as [->|]; [|done].
    rewrite Nat.sub_0_r, drop_all. done.
  - intros i Hi. rewrite (length_concat_rows_at N fc2_units); [|by apply Forall_slice_last|done].
    rewrite length_slice_last. done.
Qed.

End WindowFacts.

Lemma Forall2_last {A B} (P : A → B → Prop) l k x :
  Forall2 P l k → last l = Some x → ∃ y, last k = Some y ∧ P x y.
Proof.
  intros HF. revert x. induction HF as [|a b l k Hab HF IH]; intros x; [done|].
  destruct l as [|a' l], k as [|b' k]; try by inversion HF.
  - intros [= <-]. eauto.
  - intros Hl. apply IH in Hl. done.
Qed.

Lemma last_is_Some {A} (l : list A) : l ≠ [] → ∃ x, last l = Some x.
Proof.
  intros Hl. destruct (last l) eqn:Hlast; [eauto|]. by apply last_None in Hlast.
Qed.

Lemma last_Forall {A} (P : A → Prop) (l : list A) x : Forall P l → last l = Some x → P x.
Proof.
  intros Hall Hl. apply last_Some in Hl as [l' ->]. apply Forall_app in Hall as [_ Hx].
  by inversion Hx.
Qed.

Section Stages.
Context {R : Type} `{Scalar R}.
Implicit Types d : gmap string (value R).

(** The treatment logits of the timesteps in the window, and those of the
    latest timestep. *)
Lemma logits_stage (logits_t : Sequential R) fc2_units num_treatment step N
    (zs : list (tensor R)) :
  typed logits_t fc2_units num_treatment →
  zs ≠ [] → Forall (shaped N fc2_units) zs →
  ∃ t zl tl,
    mapM (Sequential_forward logits_t) (slice_last step zs) = Ok t ∧
    Forall (shaped N num_treatment) t ∧ length t = length (slice_last step zs) ∧
    t ≠ [] ∧
    last zs = Some zl ∧ Sequential_forward logits_t zl = Ok tl ∧
    last t = Some tl ∧ shaped N num_treatment tl.
Proof.
  intros Hty Hne Hzs.
  destruct (mapM_typed logits_t fc2_units num_treatment N (slice_last step zs) Hty)
    as (t & Ht & Hsh & Hlen); [by apply Forall_slice_last|].
  destruct (last_is_Some zs Hne) as [zl Hzl].
  pose proof Ht as HF. apply mapM_Ok in HF.
  destruct (Forall2_last _ _ _ zl HF) as (tl & Htl & Hfl); [by rewrite last_slice_last|].
  exists t, zl, tl. split_and!; try done.
  - intros ->. simpl in Hlen. symmetry in Hlen. apply nil_length_inv in Hlen.
    by apply (slice_last_nonempty step zs).
  - by eapply last_Forall.
Qed.

End Stages.

Section SimpleQNetwork_forward.
Context {R : Type} `{Scalar R}.
Variables (θ : params R).
Variables (state_size action_size fc1_units fc2_units step num_treatment : nat).
Variable mode : bool.

#[local] Abbreviation net :=
  (SimpleQNetwork.train mode
     (SimpleQNetwork.__init__ θ state_size action_size fc1_units fc2_units step num_treatment)).

Lemma SimpleQNetwork_encoder_typed : typed (SimpleQNetwork.encoder net) state_size fc2_units.
Proof.
  simpl. unfold AbstractDQN_init, nn_Linear.
  apply (typed_Linear (mkLinear _ _ _ _)), typed_ReLU,
        (typed_Linear (mkLinear _ _ _ _)), typed_ReLU, typed_nil.
Qed.

Lemma SimpleQNetwork_logits_t_typed :
  typed (SimpleQNetwork.logits_t net) fc2_units num_treatment.
Proof.
  simpl. unfold nn_Linear.
  apply (typed_Linear (mkLinear _ _ _ _)), typed_ReLU,
        (typed_Linear (mkLinear _ _ _ _)), typed_nil.
Qed.

Lemma SimpleQNetwork_fc_typed :
  typed (SimpleQNetwork.fc net) (fc2_units * step) action_size.
Proof.
  simpl. unfold nn_Linear.
  apply (typed_Linear (mkLinear _ _ _ _)), typed_ReLU,
        (typed_Linear (mkLinear _ _ _ _)), typed_nil.
Qed.

(** The run of [SimpleQNetwork.forward] on a well-formed batch. *)
Lemma SimpleQNetwork_forward_run d states N acts labels :
  batch state_size N d states →
  prev_action_ok action_size N d acts →
  (if mode then latest_labels N d labels else 0 < num_treatment) →
  ∃ zs zl tl y0 log,
    mapM (Sequential_forward (SimpleQNetwork.encoder net)) states = Ok zs ∧
    Forall (shaped N fc2_units) zs ∧ length zs = length states ∧
    last zs = Some zl ∧
    Sequential_forward (SimpleQNetwork.logits_t net) zl = Ok tl ∧
    shaped N num_treatment tl ∧
    Sequential_forward (SimpleQNetwork.fc net) (tab N (window_row fc2_units step zs)) = Ok y0 ∧
    shaped N action_size y0 ∧
    let ind := if mode then labels else map (λ r, Z.of_nat (topk_index r)) tl in
    forward net d =
      (<["onehot_prev_action" := VTensor (map (λ a, one_hot action_size (Z.to_nat a)) acts)]>
         (<["z" := VTensors zs]> d),
       log,
       Ok (mkOut tl
             (tab N (λ i, if decide (default 0%Z (ind !! i) = 1%Z)
                          then one_hot action_size (Z.to_nat (default 0%Z (acts !! i)))
                          else row y0 i))
             (tab N (window_row fc2_units step zs)))).
Proof.
  intros [Hstate Hne HN Hshape] [Hprev Hacts Hrange] Hmode.
  destruct (mapM_typed _ _ _ N states SimpleQNetwork_encoder_typed Hshape)
    as (zs & Hzs & Hzsh & Hzlen).
  assert (zs ≠ []) as Hzne.
  { intros ->. simpl in Hzlen. symmetry in Hzlen. by apply nil_length_inv in Hzlen. }
  destruct (logits_stage _ _ _ step N zs SimpleQNetwork_logits_t_typed Hzne Hzsh)
    as (t & zl & tl & Ht & Htsh & Htlen & Htne & Hzl & Htl & Hlast & Htlsh).
  assert (shaped N (fc2_units * step) (tab N (window_row fc2_units step zs))) as Hwin.
  { apply shaped_tab. intros i Hi. by eapply length_window_row. }
  destruct (Sequential_forward_typed _ _ _ N _ SimpleQNetwork_fc_typed Hwin)
    as (y0 & Hy0 & Hy0sh).
  destruct (cat (slice_last step zs)) as [zc|] eqn:Hcat.
  2: { rewrite (cat_tab N) in Hcat; [done | by apply slice_last_nonempty |].
       apply Forall_slice_last. eapply Forall_impl; [done|]. by intros ? [? _]. }
  assert (∀ ks : list Z, length ks = N →
    where_ (eq_1 (column ks)) (map (λ a, one_hot action_size (Z.to_nat a)) acts) y0
    = Ok (tab N (λ i, if decide (default 0%Z (ks !! i) = 1%Z)
                      then one_hot action_size (Z.to_nat (default 0%Z (acts !! i)))
                      else row y0 i))) as Hwhere.
  { intros ks Hks. rewrite (map_as_tab _ acts 0%Z), Hacts.
    rewrite (shaped_tab_rows N action_size y0 Hy0sh) at 1.
    apply (where_column N action_size); try done.
    - intros i Hi. apply length_one_hot.
    - intros i Hi. by eapply shaped_row. }
  exists zs, zl, tl, y0.
  destruct mode; eexists; (split_and!; try done); cbv zeta; unfold forward;
  (eapply run_bind; [by apply run_get_tensors|]);
  (eapply run_bind; [by apply run_mapM_call_Ok|]);
  (eapply run_bind; [reflexivity|]);
  change (_forward ?n) with (SimpleQNetwork._forward n);
  unfold SimpleQNetwork._forward;
  (eapply run_bind; [apply run_get_tensors, lookup_insert_eq|]); cbv zeta;
  (eapply run_bind; [by apply run_mapM_call_Ok|]);
  (eapply run_bind; [by apply run_lift|]);
  (eapply run_bind; [apply run_lift; by apply (window_block fc2_units step N zs zc)|]);
  (eapply run_bind; [by apply run_call_module|]);
  (eapply run_bind; [apply run_get_long; by rewrite lookup_insert_ne|]);
  (eapply run_bind;
    [apply run_lift; rewrite (zeros_like_shaped N action_size) by done;
     rewrite <- Hacts; by apply scatter1_one_hot|]);
  (eapply run_bind; [reflexivity|]); simpl.
  - destruct Hmode as [(ts & Hts & Hlab) Hlen].
    eapply run_bind.
    { eapply run_bind; [apply run_get_longs; by rewrite !lookup_insert_ne|].
      eapply run_bind; [apply run_lift; unfold item_last; by rewrite Hlab|].
      eapply run_bind; [apply run_get_tensor, lookup_insert_eq|].
      apply run_lift. by apply Hwhere. }
    eapply run_bind; [apply run_lift; unfold item_last; by rewrite Hlast|].
    reflexivity.
  - eapply run_bind.
    { eapply run_bind; [apply run_lift; unfold item_last; by rewrite Hlast|].
      eapply run_bind; [apply run_lift; by eapply topk1_column|].
      eapply run_bind; [apply run_get_tensor, lookup_insert_eq|].
      apply run_lift. apply Hwhere. rewrite length_map. apply Htlsh. }
    eapply run_bind; [apply run_lift; unfold item_last; by rewrite Hlast|].
    reflexivity.
Qed.

End SimpleQNetwork_forward.

Lemma slice_last_map {A B} (f : A → B) k (l : list A) :
  slice_last k (map f l) = map f (slice_last k l).
Proof. rewrite !slice_last_drop, length_map. by rewrite <- fmap_drop. Qed.

Lemma length_concat_one_hot {R} `{Scalar R} n (ks : list Z) :
  length (concat (map (λ k, one_hot n (Z.to_nat k)) ks) : list R) = n * length ks.
Proof.
  induction ks as [|k ks IH]; simpl; [lia|].
  rewrite length_app, IH, length_one_hot. lia.
Qed.

Section TreatmentBlock.
Context {R : Type} `{Scalar R}.
Implicit Types d : gmap string (value R).

Lemma shaped_column N (col : list Z) : length col = N → shaped N 1 (column col).
Proof.
  intros Hc. split; [unfold column; by rewrite length_map|].
  unfold column. apply Forall_map. by apply Forall_true.
Qed.

(** Lines 94-97 and 143-146. *)
Lemma run_onehot_truth num_treatment step N L d labs (t : list (tensor R)) :
  labels_ok num_treatment N L d labs → 0 < N → 0 < L →
  Forall (shaped N num_treatment) t → length t = length (slice_last step labs) →
  onehot_truth step (tab N (λ i, rows_at i t)) d
  = (d, [], Ok (tab N (λ i, concat (map (λ k, one_hot num_treatment (Z.to_nat k))
                                        (labels_at i (slice_last step labs)))))).
Proof.
  intros [Hfield Hlen Hrange] HN HL Ht Htlen. unfold onehot_truth.
  assert (Forall (λ col, length col = N ∧
            Forall (λ k, 0 ≤ k < Z.of_nat num_treatment)%Z col) (slice_last step labs))
    as Hsl by by apply Forall_slice_last.
  eapply (run_bind _ _ _ _ [] _ _ []); [by apply run_get_longs|].
  eapply (run_bind _ _ _ _ [] _ _ []).
  { apply run_lift. rewrite slice_last_map. apply (stack1_tab N 1).
    - intros Hnil. apply (f_equal length) in Hnil. rewrite length_map in Hnil.
      simpl in Hnil. apply nil_length_inv in Hnil.
      revert Hnil. apply slice_last_nonempty. intros ->. simpl in Hlen. lia.
    - apply Forall_map. eapply Forall_impl; [done|]. intros col [Hc _].
      exact (shaped_column N col Hc).
    - done. }
  eapply (run_bind _ _ _ _ [] _ _ []).
  { apply run_lift.
    rewrite (zeros_like3_tab N (length t) num_treatment).
    2: { intros i Hi. by apply (rows_at_shaped N). }
    assert (tab N (λ i, rows_at i (map column (slice_last step labs)))
            = tab N (λ i, column (labels_at i (slice_last step labs)))) as ->.
    { apply tab_ext. intros i Hi. apply rows_at_column.
      eapply Forall_impl; [done|]. intros col [Hc _]. simpl. lia. }
    apply scatter2_one_hot. intros i Hi. split.
    - unfold labels_at. by rewrite length_map.
    - unfold labels_at. apply Forall_map. eapply Forall_impl; [done|].
      intros col [Hc Hr]. simpl.
      destruct (lookup_lt_is_Some_2 col i) as [k Hk]; [lia|]. rewrite Hk. simpl.
      by eapply (proj1 (Forall_lookup _ _) Hr). }
  apply run_lift. by apply view_flat_tab.
Qed.

(** Lines 99-101 and 150-152. *)
Lemma run_onehot_predicted num_treatment N d (t : list (tensor R)) :
  0 < N → 0 < num_treatment → Forall (shaped N num_treatment) t →
  onehot_predicted (tab N (λ i, rows_at i t)) d
  = (d, [], Ok (tab N (λ i, concat (map (λ k, one_hot num_treatment (Z.to_nat k))
                                        (predicted_at i t))))).
Proof.
  intros HN Hnt Ht. unfold onehot_predicted.
  eapply (run_bind _ _ _ _ [] _ _ []).
  { apply run_lift. unfold topk1_3.
    apply (mapM_tab _ N _ (λ i, column (predicted_at i t))).
    intros i Hi. apply (topk1_column (length t) num_treatment); [|done].
    by apply (rows_at_shaped N). }
  eapply (run_bind _ _ _ _ [] _ _ []).
  { apply run_lift.
    rewrite (zeros_like3_tab N (length t) num_treatment).
    2: { intros i Hi. by apply (rows_at_shaped N). }
    apply scatter2_one_hot. intros i Hi. unfold predicted_at. split.
    - unfold rows_at. by rewrite !length_map.
    - apply Forall_map. 
      eapply Forall_impl; [apply (rows_at_shaped N num_treatment t i Ht Hi)|].
      intros r Hr. simpl in *.
      pose proof (topk_index_lt r) as Hlt. rewrite Hr in Hlt.
      split; [lia|]. apply inj_lt, Hlt. intros ->. simpl in Hr. lia. }
  apply run_lift. by apply view_flat_tab.
Qed.

(** Line 103 (and 157): the block left-padded to [step] slots. *)
Lemma treatment_pad num_treatment step N L (ks : nat → list Z) :
  0 < N →
  (∀ i, i < N → length (ks i) = if decide (step = 0) then L else min step L) →
  let block := tab N (λ i, concat (map (λ k, one_hot num_treatment (Z.to_nat k)) (ks i))) in
  pad_left (Z.of_nat (num_treatment * step) - Z.of_nat (size1 block)) block
  = Ok (tab N (λ i, treatment_row num_treatment step L
                      (if decide (step = 0) then [] else ks i))).
Proof.
  intros HN Hks block. unfold block.
  rewrite (cat_pad_slots N num_treatment step L); [|done|].
  - f_equal. apply tab_ext. intros i Hi. unfold treatment_row. f_equal.
    by destruct (decide (step = 0)).
  - intros i Hi. by rewrite length_concat_one_hot, Hks.
Qed.

End TreatmentBlock.

Section BlendFacts.
Context {R : Type} `{Scalar R}.

Lemma length_treatment_row num_treatment step L (classes : list Z) :
  length classes = L - (L - step) →
  length (treatment_row num_treatment step L classes : list R) = num_treatment * step.
Proof.
  intros Hc. unfold treatment_row.
  rewrite length_app, length_replicate, length_concat_one_hot, Hc. nia.
Qed.

Lemma float_column (ks : list Z) :
  float (column ks) = tab (length ks) (λ i, [of_Z (default 0%Z (ks !! i))]).
Proof. unfold float. by rewrite column_tab, map_tab. Qed.

Lemma mul_column N w (c : nat → R) (f : nat → list R) :
  0 < N → (∀ i, i < N → length (f i) = w) →
  mul (tab N (λ i, [c i])) (tab N f) = Ok (tab N (λ i, map (smul (c i)) (f i))).
Proof. intros HN Hf. unfold mul. by rewrite (broadcast2_column N w). Qed.

Lemma add_same N w (f g : nat → list R) :
  0 < N → (∀ i, i < N → length (f i) = w) → (∀ i, i < N → length (g i) = w) →
  add (tab N f) (tab N g) = Ok (tab N (λ i, zip_with sadd (f i) (g i))).
Proof. intros HN Hf Hg. unfold add. by apply (broadcast2_same N w). Qed.

(** Line 161, for a column of integer weights. *)
Lemma blend_tab N w (ks : list Z) (f1 f0 : nat → list R) :
  length ks = N → 0 < N →
  (∀ i, i < N → length (f1 i) = w) → (∀ i, i < N → length (f0 i) = w) →
  ∃ a b,
    mul (float (column ks)) (tab N f1) = Ok a ∧
    mul (one_minus (float (column ks))) (tab N f0) = Ok b ∧
    add a b = Ok (tab N (λ i, blend_row (default 0%Z (ks !! i)) (f1 i) (f0 i))).
Proof.
  intros Hks HN H1 H0. rewrite float_column, Hks.
  unfold one_minus. rewrite map_tab. simpl.
  eexists _, _. split_and!.
  - by apply (mul_column N w).
  - by apply (mul_column N w (λ i, ssub s1 (of_Z (default 0%Z (ks !! i))))).
  - apply (add_same N w); [done| |].
    + intros i Hi. by rewrite length_map, H1.
    + intros i Hi. by rewrite length_map, H0.
Qed.

(** The classes of the window, read from the sliced list, are those of the
    last [step] timesteps. *)
Lemma window_classes {A} (f : list A → list Z) step (l : list A) :
  f [] = [] →
  (if decide (step = 0) then [] else f (slice_last step l)) = f (drop (length l - step) l).
Proof.
  intros Hf. rewrite slice_last_drop. destruct (decide (step = 0)) as [->|]; [|done].
  by rewrite Nat.sub_0_r, drop_all.
Qed.

End BlendFacts.

Section TreatmentBlockRun.
Context {R : Type} `{Scalar R}.
Implicit Types d : gmap string (value R).

(** Lines 74, 89 and 94-103 (120, 137 and 143-157): the treatment block that
    [_forward] assembles from the logits of the window, on a dict [d] that
    holds the labels in training mode. *)
Lemma treatment_block_run (logits_t : Sequential R) fc2_units num_treatment step N
    (mode : bool) d (labs : list (list Z)) (zs t : list (tensor R)) :
  typed logits_t fc2_units num_treatment →
  0 < N → zs ≠ [] → Forall (shaped N fc2_units) zs →
  (if mode then labels_ok num_treatment N (length zs) d labs else 0 < num_treatment) →
  mapM (Sequential_forward logits_t) (drop (length zs - step) zs) = Ok t →
  ∃ tc t_stack raw,
    mapM (Sequential_forward logits_t) (slice_last step zs) = Ok tc ∧
    stack1 tc = Ok t_stack ∧
    (if mode then onehot_truth step t_stack else onehot_predicted t_stack) d
    = (d, [], Ok raw) ∧
    pad_left (Z.of_nat (num_treatment * step) - Z.of_nat (size1 raw)) raw
    = Ok (tab N (λ i, treatment_row num_treatment step (length zs)
                        (window_classes_at mode step labs t i))).
Proof.
  intros Hty HN Hzne Hzsh Hmode Ht.
  assert (0 < length zs) as HL by (destruct zs; simpl; [done|lia]).
  destruct (logits_stage _ _ _ step N zs Hty Hzne Hzsh)
    as (tc & zl & tl & Htc & Htcsh & Htclen & Htcne & _).
  exists tc, (tab N (λ i, rows_at i tc)).
  destruct mode; eexists; (split; [exact Htc|]);
    (split; [by apply (stack1_tab N num_treatment)|]).
  - destruct Hmode as [Hf Hal Hr]. split.
    + apply (run_onehot_truth num_treatment step N (length zs)); try done.
      by rewrite Htclen, !length_slice_last, Hal.
    + rewrite (treatment_pad num_treatment step N (length zs)); [|done|].
      * f_equal. apply tab_ext. intros i Hi. unfold window_classes_at. f_equal.
        by rewrite (window_classes (labels_at i)).
      * intros i Hi. unfold labels_at. by rewrite length_map, length_slice_last, Hal.
  - split.
    + by apply (run_onehot_predicted num_treatment N).
    + rewrite (treatment_pad num_treatment step N (length zs)); [|done|].
      * f_equal. apply tab_ext. intros i Hi. unfold window_classes_at. f_equal.
        destruct (decide (step = 0)) as [->|Hstep].
        -- rewrite Nat.sub_0_r, drop_all in Ht. simpl in Ht. by injection Ht as <-.
        -- rewrite slice_last_drop, decide_False in Htc by done. congruence.
      * intros i Hi. unfold predicted_at, rows_at.
        by rewrite !length_map, Htclen, length_slice_last.
Qed.

End TreatmentBlockRun.

Section CEQNetwork_1_forward.
Context {R : Type} `{Scalar R}.
Variables (θ : params R).
Variables (state_size action_size fc1_units fc2_units step num_treatment : nat).
Variable mode : bool.

#[local] Abbreviation net :=
  (CEQNetwork_1.train mode
     (CEQNetwork_1.__init__ θ state_size action_size fc1_units fc2_units step num_treatment)).

Lemma CEQNetwork_1_encoder_typed : typed (CEQNetwork_1.encoder net) state_size fc2_units.
Proof.
  simpl. unfold AbstractDQN_init, nn_Linear.
  apply (typed_Linear (mkLinear _ _ _ _)), typed_ReLU,
        (typed_Linear (mkLinear _ _ _ _)), typed_ReLU, typed_nil.
Qed.

Lemma CEQNetwork_1_logits_t_typed :
  typed (CEQNetwork_1.logits_t net) fc2_units num_treatment.
Proof.
  simpl. unfold nn_Linear.
  apply (typed_Linear (mkLinear _ _ _ _)), typed_ReLU,
        (typed_Linear (mkLinear _ _ _ _)), typed_nil.
Qed.

Lemma CEQNetwork_1_fc_typed :
  typed (CEQNetwork_1.fc net) ((fc2_units + num_treatment) * step) action_size.
Proof.
  simpl. unfold nn_Linear.
  apply (typed_Linear (mkLinear _ _ _ _)), typed_ReLU,
        (typed_Linear (mkLinear _ _ _ _)), typed_nil.
Qed.

(** The run of [CEQNetwork_1.forward] on a well-formed batch. *)
Lemma CEQNetwork_1_forward_run d states N labs :
  batch state_size N d states →
  (if mode then labels_ok num_treatment N (length states) d labs else 0 < num_treatment) →
  ∃ zs zl tl t y log,
    mapM (Sequential_forward (CEQNetwork_1.encoder net)) states = Ok zs ∧
    Forall (shaped N fc2_units) zs ∧ length zs = length states ∧
    last zs = Some zl ∧
    Sequential_forward (CEQNetwork_1.logits_t net) zl = Ok tl ∧
    shaped N num_treatment tl ∧
    mapM (Sequential_forward (CEQNetwork_1.logits_t net)) (drop (length zs - step) zs) = Ok t ∧
    Forall (shaped N num_treatment) t ∧
    Sequential_forward (CEQNetwork_1.fc net)
      (tab N (λ i, joint_row fc2_units num_treatment step zs
                     (window_classes_at mode step labs t i) i)) = Ok y ∧
    shaped N action_size y ∧
    forward net d =
      (<["z" := VTensors zs]> d, log,
       Ok (mkOut tl y (tab N (window_row fc2_units step zs)))).
Proof.
  intros [Hstate Hne HN Hshape] Hmode.
  destruct (mapM_typed _ _ _ N states CEQNetwork_1_encoder_typed Hshape)
    as (zs & Hzs & Hzsh & Hzlen).
  assert (zs ≠ []) as Hzne.
  { intros ->. simpl in Hzlen. symmetry in Hzlen. by apply nil_length_inv in Hzlen. }
  assert (0 < length zs) as HL by (destruct zs; simpl; [done|lia]).
  destruct (logits_stage _ _ _ step N zs CEQNetwork_1_logits_t_typed Hzne Hzsh)
    as (tc & zl & tl & Htc & Htcsh & Htclen & Htcne & Hzl & Htl & Hlast & Htlsh).
  destruct (mapM_typed _ _ _ N (drop (length zs - step) zs) CEQNetwork_1_logits_t_typed)
    as (t & Ht & Htsh & Htlen); [by apply Forall_drop|].
  assert (∀ i, i < N → length (window_classes_at mode step labs t i)
                       = length zs - (length zs - step)) as Hclen.
  { intros i Hi. unfold window_classes_at. destruct mode.
    - destruct Hmode as [_ Hal _]. unfold labels_at.
      rewrite length_map, length_drop, Hal, Hzlen. done.
    - unfold predicted_at, rows_at. rewrite !length_map, Htlen, length_drop. done. }
  assert (shaped N ((fc2_units + num_treatment) * step)
            (tab N (λ i, joint_row fc2_units num_treatment step zs
                           (window_classes_at mode step labs t i) i))) as Hx.
  { apply shaped_tab. intros i Hi. unfold joint_row.
    rewrite length_app, (length_window_row _ _ N), length_treatment_row; try done; [lia|].
    by apply Hclen. }
  destruct (Sequential_forward_typed _ _ _ N _ CEQNetwork_1_fc_typed Hx) as (y & Hy & Hysh).
  destruct (cat (slice_last step zs)) as [zc|] eqn:Hcat.
  2: { rewrite (cat_tab N) in Hcat; [done | by apply slice_last_nonempty |].
       apply Forall_slice_last. eapply Forall_impl; [done|]. by intros ? [? _]. }
  exists zs, zl, tl, t, y.
  destruct mode; eexists; (split_and!; try done); unfold forward;
  (eapply run_bind; [by apply run_get_tensors|]);
  (eapply run_bind; [by apply run_mapM_call_Ok|]);
  (eapply run_bind; [reflexivity|]);
  change (_forward ?n) with (CEQNetwork_1._forward n);
  unfold CEQNetwork_1._forward;
  (eapply run_bind; [apply run_get_tensors, lookup_insert_eq|]); cbv zeta;
  (eapply run_bind; [by apply run_mapM_call_Ok|]);
  (eapply run_bind; [by apply run_lift|]);
  (eapply run_bind; [apply run_lift; by apply (window_block fc2_units step N zs zc)|]);
  (eapply run_bind; [apply run_lift; by apply (stack1_tab N num_treatment)|]); simpl.
  - eapply run_bind.
    { apply (run_onehot_truth num_treatment step N (length states)); try done.
      + destruct Hmode as [Hf Hal Hr]. split; [by rewrite lookup_insert_ne|done|done].
      + lia.
      + destruct Hmode as [_ Hal _]. rewrite Htclen, !length_slice_last. 
        rewrite Hal, Hzlen. done. }
    eapply run_bind.
    { apply run_lift. apply (treatment_pad num_treatment step N (length states)); [done|].
      intros i Hi. destruct Hmode as [_ Hal _]. unfold labels_at.
      rewrite length_map, length_slice_last, Hal. done. }
    eapply run_bind.
    { apply run_lift. simpl. apply cat2_tab. }
    eapply run_bind.
    { apply run_call_module. rewrite <- Hy. f_equal. apply tab_ext. intros i Hi.
      unfold joint_row, window_classes_at. do 2 f_equal; [done|].
      rewrite (window_classes (labels_at i)) by done. done. }
    eapply run_bind; [apply run_lift; unfold item_last; by rewrite Hlast|].
    reflexivity.
  - eapply run_bind.
    { by apply (run_onehot_predicted num_treatment N). }
    eapply run_bind.
    { apply run_lift. apply (treatment_pad num_treatment step N (length states)); [done|].
      intros i Hi. unfold predicted_at, rows_at.
      rewrite !length_map, Htclen, length_slice_last, Hzlen. done. }
    eapply run_bind.
    { apply run_lift. simpl. apply cat2_tab. }
    eapply run_bind.
    { apply run_call_module. rewrite <- Hy. f_equal. apply tab_ext. intros i Hi.
      unfold joint_row, window_classes_at. do 2 f_equal; [done|].
      destruct (decide (step = 0)) as [->|Hstep].
      + rewrite Nat.sub_0_r, drop_all in Ht. simpl in Ht. by injection Ht as <-.
      + rewrite slice_last_drop, decide_False in Htc by done. congruence. }
    eapply run_bind; [apply run_lift; unfold item_last; by rewrite Hlast|].
    reflexivity.
Qed.

End CEQNetwork_1_forward.

Section CEQNetwork_2_forward.
Context {R : Type} `{Scalar R}.
Variables (θ : params R).
Variables (state_size action_size fc1_units fc2_units step num_treatment : nat).
Variable mode : bool.

#[local] Abbreviation net :=
  (CEQNetwork_2.train mode
     (CEQNetwork_2.__init__ θ state_size action_size fc1_units fc2_units step num_treatment)).

Lemma CEQNetwork_2_encoder_typed : typed (CEQNetwork_2.encoder net) state_size fc2_units.
Proof.
  simpl. unfold AbstractDQN_init, nn_Linear.
  apply (typed_Linear (mkLinear _ _ _ _)), typed_ReLU,
        (typed_Linear (mkLinear _ _ _ _)), typed_ReLU, typed_nil.
Qed.

Lemma CEQNetwork_2_logits_t_typed :
  typed (CEQNetwork_2.logits_t net) fc2_units num_treatment.
Proof.
  simpl. unfold nn_Linear.
  apply (typed_Linear (mkLinear _ _ _ _)), typed_ReLU,
        (typed_Linear (mkLinear _ _ _ _)), typed_nil.
Qed.

Lemma CEQNetwork_2_fc_t0_typed :
  typed (CEQNetwork_2.fc_t0 net) ((fc2_units + num_treatment) * step) action_size.
Proof.
  simpl. unfold nn_Linear.
  apply (typed_Linear (mkLinear _ _ _ _)), typed_ReLU,
        (typed_Linear (mkLinear _ _ _ _)), typed_nil.
Qed.

Lemma CEQNetwork_2_fc_t1_typed :
  typed (CEQNetwork_2.fc_t1 net) ((fc2_units + num_treatment) * step) action_size.
Proof.
  simpl. unfold nn_Linear.
  apply (typed_Linear (mkLinear _ _ _ _)), typed_ReLU,
        (typed_Linear (mkLinear _ _ _ _)), typed_nil.
Qed.

(** The run of [CEQNetwork_2.forward] on a well-formed batch. *)
Lemma CEQNetwork_2_forward_run d states N labs :
  batch state_size N d states →
  (if mode then labels_ok num_treatment N (length states) d labs else 0 < num_treatment) →
  ∃ zs zl tl t y_t0 y_t1 log,
    mapM (Sequential_forward (CEQNetwork_2.encoder net)) states = Ok zs ∧
    Forall (shaped N fc2_units) zs ∧ length zs = length states ∧
    last zs = Some zl ∧
    Sequential_forward (CEQNetwork_2.logits_t net) zl = Ok tl ∧
    shaped N num_treatment tl ∧
    mapM (Sequential_forward (CEQNetwork_2.logits_t net)) (drop (length zs - step) zs) = Ok t ∧
    Forall (shaped N num_treatment) t ∧
    let x := tab N (λ i, joint_row fc2_units num_treatment step zs
                           (window_classes_at mode step labs t i) i) in
    Sequential_forward (CEQNetwork_2.fc_t0 net) x = Ok y_t0 ∧
    Sequential_forward (CEQNetwork_2.fc_t1 net) x = Ok y_t1 ∧
    shaped N action_size y_t0 ∧ shaped N action_size y_t1 ∧
    let ind := if mode then default [] (last labs)
               else map (λ r, Z.of_nat (topk_index r)) tl in
    forward net d =
      (<["z" := VTensors zs]> d, log,
       Ok (mkOut tl
             (tab N (λ i, blend_row (default 0%Z (ind !! i)) (row y_t1 i) (row y_t0 i)))
             (tab N (window_row fc2_units step zs)))).
Proof.
  intros [Hstate Hne HN Hshape] Hmode.
  destruct (mapM_typed _ _ _ N states CEQNetwork_2_encoder_typed Hshape)
    as (zs & Hzs & Hzsh & Hzlen).
  assert (zs ≠ []) as Hzne.
  { intros ->. simpl in Hzlen. symmetry in Hzlen. by apply nil_length_inv in Hzlen. }
  assert (0 < length zs) as HL by (destruct zs; simpl; [done|lia]).
  destruct (logits_stage _ _ _ step N zs CEQNetwork_2_logits_t_typed Hzne Hzsh)
    as (tc & zl & tl & Htc & Htcsh & Htclen & Htcne & Hzl & Htl & Hlast & Htlsh).
  destruct (mapM_typed _ _ _ N (drop (length zs - step) zs) CEQNetwork_2_logits_t_typed)
    as (t & Ht & Htsh & Htlen); [by apply Forall_drop|].
  assert (∀ i, i < N → length (window_classes_at mode step labs t i)
                       = length zs - (length zs - step)) as Hclen.
  { intros i Hi. unfold window_classes_at. destruct mode.
    - destruct Hmode as [_ Hal _]. unfold labels_at.
      rewrite length_map, length_drop, Hal, Hzlen. done.
    - unfold predicted_at, rows_at. rewrite !length_map, Htlen, length_drop. done. }
  assert (shaped N ((fc2_units + num_treatment) * step)
            (tab N (λ i, joint_row fc2_units num_treatment step zs
                           (window_classes_at mode step labs t i) i))) as Hx.
  { apply shaped_tab. intros i Hi. unfold joint_row.
    rewrite length_app, (length_window_row _ _ N), length_treatment_row; try done; [lia|].
    by apply Hclen. }
  destruct (Sequential_forward_typed _ _ _ N _ CEQNetwork_2_fc_t0_typed Hx)
    as (y_t0 & Hy0 & Hy0sh).
  destruct (Sequential_forward_typed _ _ _ N _ CEQNetwork_2_fc_t1_typed Hx)
    as (y_t1 & Hy1 & Hy1sh).
  destruct (cat (slice_last step zs)) as [zc|] eqn:Hcat.
  2: { rewrite (cat_tab N) in Hcat; [done | by apply slice_last_nonempty |].
       apply Forall_slice_last. eapply Forall_impl; [done|]. by intros ? [? _]. }
  assert (∀ ks : list Z, length ks = N →
    ∃ a b,
      mul (float (column ks)) y_t1 = Ok a ∧
      mul (one_minus (float (column ks))) y_t0 = Ok b ∧
      add a b = Ok (tab N (λ i, blend_row (default 0%Z (ks !! i)) (row y_t1 i) (row y_t0 i))))
    as Hblend.
  { intros ks Hks.
    pose proof (blend_tab N action_size ks (row y_t1) (row y_t0) Hks HN) as Hb.
    rewrite <- (shaped_tab_rows N action_size y_t1 Hy1sh) in Hb.
    rewrite <- (shaped_tab_rows N action_size y_t0 Hy0sh) in Hb.
    apply Hb; intros i Hi; by eapply shaped_row. }
  exists zs, zl, tl, t, y_t0, y_t1.
  destruct mode; eexists; cbv zeta; (split_and!; try done); unfold forward;
  (eapply run_bind; [by apply run_get_tensors|]);
  (eapply run_bind; [by apply run_mapM_call_Ok|]);
  (eapply run_bind; [reflexivity|]);
  change (_forward ?n) with (CEQNetwork_2._forward n);
  unfold CEQNetwork_2._forward;
  (eapply run_bind; [apply run_get_tensors, lookup_insert_eq|]); cbv zeta;
  (eapply run_bind; [by apply run_mapM_call_Ok|]);
  (eapply run_bind; [by apply run_lift|]);
  (eapply run_bind; [apply run_lift; by apply (window_block fc2_units step N zs zc)|]);
  (eapply run_bind; [apply run_lift; by apply (stack1_tab N num_treatment)|]); simpl.
  - destruct Hmode as [Hf Hal Hr].
    assert (∃ col, last labs = Some col ∧ length col = N) as (col & Hcol & Hcollen).
    { destruct (last_is_Some labs) as [col Hcol].
      - intros ->. simpl in Hal. lia.
      - exists col. split; [done|]. by apply (last_Forall _ _ _ Hr Hcol). }
    destruct (Hblend col Hcollen) as (a & b & Ha & Hb & Hab).
    eapply run_bind.
    { eapply run_bind.
      { apply (run_onehot_truth num_treatment step N (length states)); try done.
        + split; [by rewrite lookup_insert_ne|done|done].
        + lia.
        + rewrite Htclen, !length_slice_last. rewrite Hal, Hzlen. done. }
      eapply run_bind; [apply run_get_longs; by rewrite lookup_insert_ne|].
      eapply run_bind.
      { apply run_lift. unfold item_last. rewrite fmap_last, Hcol. done. }
      reflexivity. }
    simpl.
    eapply run_bind.
    { apply run_lift. apply (treatment_pad num_treatment step N (length states)); [done|].
      intros i Hi. unfold labels_at. rewrite length_map, length_slice_last, Hal. done. }
    assert (tab N (λ i, window_row fc2_units step zs i ++
               treatment_row num_treatment step (length states)
                 (if decide (step = 0) then [] else labels_at i (slice_last step labs)))
            = tab N (λ i, joint_row fc2_units num_treatment step zs
                            (window_classes_at true step labs t i) i)) as Hjoint.
    { apply tab_ext. intros i Hi.
      unfold joint_row, window_classes_at. do 2 f_equal; [done|].
      by rewrite (window_classes (labels_at i)). }
    eapply run_bind; [apply run_lift; simpl; apply cat2_tab|].
    eapply run_bind; [apply run_call_module; by rewrite Hjoint|].
    eapply run_bind; [apply run_lift; simpl; apply cat2_tab|].
    eapply run_bind; [apply run_call_module; by rewrite Hjoint|].
    eapply run_bind; [by apply run_lift|].
    eapply run_bind; [by apply run_lift|].
    eapply run_bind; [by apply run_lift|].
    eapply run_bind; [apply run_lift; unfold item_last; by rewrite Hlast|].
    rewrite Hcol. reflexivity.
  - destruct (Hblend (map (λ r, Z.of_nat (topk_index r)) tl)) as (a & b & Ha & Hb & Hab).
    { rewrite length_map. apply Htlsh. }
    eapply run_bind.
    { eapply run_bind; [by apply (run_onehot_predicted num_treatment N)|].
      eapply run_bind; [apply run_lift; unfold item_last; by rewrite Hlast|].
      eapply run_bind; [apply run_lift; by eapply topk1_column|].
      reflexivity. }
    simpl.
    eapply run_bind.
    { apply run_lift. apply (treatment_pad num_treatment step N (length states)); [done|].
      intros i Hi. unfold predicted_at, rows_at.
      rewrite !length_map, Htclen, length_slice_last, Hzlen. done. }
    assert (tab N (λ i, window_row fc2_units step zs i ++
               treatment_row num_treatment step (length states)
                 (if decide (step = 0) then [] else predicted_at i tc))
            = tab N (λ i, joint_row fc2_units num_treatment step zs
                            (window_classes_at false step labs t i) i)) as Hjoint.
    { apply tab_ext. intros i Hi.
      unfold joint_row, window_classes_at. do 2 f_equal; [done|].
      destruct (decide (step = 0)) as [->|Hstep].
      + rewrite Nat.sub_0_r, drop_all in Ht. simpl in Ht. by injection Ht as <-.
      + rewrite slice_last_drop, decide_False in Htc by done. congruence. }
    eapply run_bind; [apply run_lift; simpl; apply cat2_tab|].
    eapply run_bind; [apply run_call_module; by rewrite Hjoint|].
    eapply run_bind; [apply run_lift; simpl; apply cat2_tab|].
    eapply run_bind; [apply run_call_module; by rewrite Hjoint|].
    eapply run_bind; [by apply run_lift|].
    eapply run_bind; [by apply run_lift|].
    eapply run_bind; [by apply run_lift|].
    eapply run_bind; [apply run_lift; unfold item_last; by rewrite Hlast|].
    reflexivity.
Qed.

End CEQNetwork_2_forward.

Lemma slot_concat {A} n (ls : list (list A)) j c :
  Forall (λ l, length l = n) ls → ls !! j = Some c → slot n j (concat ls) = c.
Proof.
  intros Hall. revert j. induction Hall as [|l ls Hl _ IH]; intros j; [done|].
  destruct j as [|j]; simpl.
  - intros [= <-]. unfold slot. simpl. rewrite drop_0. by apply take_app_length'.
  - intros Hj. unfold slot. replace (S j * n) with (length l + j * n) by lia.
    rewrite drop_app_add'; [|done]. by apply IH.
Qed.

Section OneHotFacts.
Context {R : Type} `{Scalar R}.

Lemma one_hot_lookup n k j :
  k < n → j < n → (one_hot n k : list R) !! j = Some (if decide (j = k) then s1 else s0).
Proof.
  intros Hk Hj. unfold one_hot. destruct (decide (j = k)) as [->|Hne].
  - apply list_lookup_insert_eq. by rewrite length_replicate.
  - rewrite list_lookup_insert_ne by done. by apply lookup_replicate_2.
Qed.

Lemma one_hot_neq_zeros `{!ScalarUnits R} n k : k < n → (one_hot n k : list R) ≠ replicate n s0.
Proof.
  intros Hk Heq. apply (f_equal (λ l, l !! k)) in Heq.
  rewrite one_hot_lookup, lookup_replicate_2 in Heq by done.
  rewrite decide_True in Heq by done. injection Heq. apply s1_neq_s0.
Qed.

Lemma ssum_replicate_0 `{!ScalarUnits R} n : ssum (replicate n s0 : list R) = s0.
Proof. induction n as [|n IH]; simpl; [done|]. unfold ssum in *. simpl. by rewrite IH, sadd_0_0. Qed.

Lemma ssum_one_hot `{!ScalarUnits R} n k : k < n → ssum (one_hot n k : list R) = s1.
Proof.
  revert k. induction n as [|n IH]; intros k Hk; [lia|].
  destruct k as [|k]; unfold one_hot, ssum in *; simpl.
  - fold (ssum (replicate n s0 : list R)). by rewrite ssum_replicate_0, sadd_1_0.
  - rewrite IH by lia. apply sadd_0_1.
Qed.

Lemma replicate_concat n p (x : R) :
  replicate (n * p) x = concat (replicate p (replicate n x)).
Proof.
  induction p as [|p IH]; simpl.
  - by rewrite Nat.mul_0_r.
  - rewrite <- IH, <- replicate_add. f_equal. lia.
Qed.

(** The slots of a treatment block: zero where a timestep is missing, the
    one-hot vector of the class of the timestep elsewhere. *)
Lemma slot_treatment_row num_treatment step L (classes : list Z) j :
  length classes = L - (L - step) → j < step →
  slot num_treatment j (treatment_row num_treatment step L classes : list R)
  = if decide (j < step - L) then replicate num_treatment s0
    else one_hot num_treatment (Z.to_nat (default 0%Z (classes !! (j - (step - L))))).
Proof.
  intros Hc Hj. unfold treatment_row.
  rewrite replicate_concat, <- concat_app.
  apply slot_concat.
  - apply Forall_app. split.
    + apply Forall_replicate. by rewrite length_replicate.
    + apply Forall_map, Forall_true. intros k. apply length_one_hot.
  - destruct (decide (j < step - L)) as [Hlt|Hge].
    + rewrite lookup_app_l by (rewrite length_replicate; lia).
      by apply lookup_replicate_2.
    + rewrite lookup_app_r by (rewrite length_replicate; lia).
      rewrite length_replicate, list_lookup_fmap.
      destruct (lookup_lt_is_Some_2 classes (j - (step - L))) as [k Hk]; [lia|].
      by rewrite Hk.
Qed.

(** Line 161 on regular entries: the weight 0 returns the first head, the
    weight 1 the second. *)
Lemma blend_row_0 `{!ScalarUnits R} (y1 y0 : list R) :
  length y1 = length y0 → Forall regular y1 → Forall regular y0 →
  blend_row 0 y1 y0 = y0.
Proof.
  unfold blend_row. rewrite of_Z_0, ssub_1_0. intros Hlen H1. revert y0 Hlen.
  induction H1 as [|a y1 (Ha & _) _ IH]; intros [|b y0]; simpl; try done.
  intros [= Hlen] Hb0. inversion Hb0 as [|?? (_ & Hb1 & Hb & _) H0]; subst.
  by rewrite IH, Ha, Hb1, Hb.
Qed.

Lemma blend_row_1 `{!ScalarUnits R} (y1 y0 : list R) :
  length y1 = length y0 → Forall regular y1 → Forall regular y0 →
  blend_row 1 y1 y0 = y1.
Proof.
  unfold blend_row. rewrite of_Z_1, ssub_1_1. intros Hlen H1. revert y0 Hlen.
  induction H1 as [|a y1 (_ & Ha1 & _ & Ha) _ IH]; intros [|b y0]; simpl; try done.
  intros [= Hlen] Hb0. inversion Hb0 as [|?? (Hb & _) H0]; subst.
  by rewrite IH, Ha1, Hb, Ha.
Qed.

Lemma blend_row_lookup (k : Z) (y1 y0 : list R) j a b :
  y1 !! j = Some a → y0 !! j = Some b →
  blend_row k y1 y0 !! j = Some (sadd (smul (of_Z k) a) (smul (ssub s1 (of_Z k)) b)).
Proof.
  intros Ha Hb. unfold blend_row. rewrite lookup_zip_with, !list_lookup_fmap, Ha, Hb. done.
Qed.

End OneHotFacts.

Section Failures.
Context {R : Type} `{Scalar R}.
Implicit Types d : gmap string (value R).

Lemma run_bind_Err {A B} (m : M R A) (f : A → M R B) d d1 log1 e :
  m d = (d1, log1, Err e) → (m ≫= f) d = (d1, log1, Err e).
Proof. intros Hm. by rewrite bind_run, Hm. Qed.

(** The encoder rejects a state tensor that has a row of another width than
    [state_size]. *)
Lemma encoder_rejects (θ : params R) state_size fc1_units fc2_units (x : tensor R) :
  Exists (λ r, length r ≠ state_size) x →
  Sequential_forward (AbstractDQN_init θ state_size fc1_units fc2_units) x
  = Err ShapeMismatch.
Proof.
  intros Hex. unfold AbstractDQN_init, nn_Linear. simpl.
  by rewrite Linear_forward_Err.
Qed.

Lemma mapM_encoder_rejects (ms : Sequential R) (xs : list (tensor R)) :
  Exists (λ x, Sequential_forward ms x = Err ShapeMismatch) xs →
  mapM (Sequential_forward ms) xs = Err ShapeMismatch.
Proof.
  induction 1 as [x xs Hx|x xs _ IH]; simpl.
  - by rewrite Hx.
  - destruct (Sequential_forward ms x) as [y|e] eqn:Hy; simpl.
    + by rewrite IH.
    + by rewrite (Sequential_forward_Err ms x e Hy).
Qed.

(** [AbstractDQN.forward] stops in the encoder, before [_forward] starts. *)
Lemma forward_encoder_rejects `{AbstractDQN R Net} (self : Net) d states :
  d !! "state" = Some (VTensors states) →
  Exists (λ x, Sequential_forward (encoder self) x = Err ShapeMismatch) states →
  ∃ n, forward self d = (d, replicate n Encoder, Err ShapeMismatch).
Proof.
  intros Hstate Hex. unfold forward.
  destruct (run_mapM_call Encoder (encoder self) states d) as (n & _ & Hrun & _).
  rewrite (mapM_encoder_rejects _ _ Hex) in Hrun.
  exists n. eapply (run_bind _ _ _ _ [] _ _ _); [by apply run_get_tensors|].
  by apply run_bind_Err.
Qed.

End Failures.

Section SimpleQNetwork_failure.
Context {R : Type} `{Scalar R}.
Variables (θ : params R).
Variables (state_size action_size fc1_units fc2_units step num_treatment : nat).
Variable mode : bool.

#[local] Abbreviation net :=
  (SimpleQNetwork.train mode
     (SimpleQNetwork.__init__ θ state_size action_size fc1_units fc2_units step num_treatment)).

(** A previous action outside [[0, action_size)] stops the forward call at
    the [scatter] of line 52. *)
Lemma SimpleQNetwork_forward_scatter_error d states N acts :
  batch state_size N d states →
  d !! "prev_action" = Some (VLong (column acts)) →
  length acts ≤ N →
  Exists (λ a, ¬ (0 ≤ a < Z.of_nat action_size)%Z) acts →
  ∃ d' log, forward net d = (d', log, Err IndexOutOfBounds).
Proof.
  intros [Hstate Hne HN Hshape] Hprev Hacts Hout.
  destruct (mapM_typed _ _ _ N states (SimpleQNetwork_encoder_typed θ state_size action_size
              fc1_units fc2_units step num_treatment mode) Hshape)
    as (zs & Hzs & Hzsh & Hzlen).
  assert (zs ≠ []) as Hzne.
  { intros ->. simpl in Hzlen. symmetry in Hzlen. by apply nil_length_inv in Hzlen. }
  destruct (logits_stage _ _ _ step N zs (SimpleQNetwork_logits_t_typed θ state_size
              action_size fc1_units fc2_units step num_treatment mode) Hzne Hzsh)
    as (t & zl & tl & Ht & Htsh & Htlen & Htne & Hzl & Htl & Hlast & Htlsh).
  assert (shaped N (fc2_units * step) (tab N (window_row fc2_units step zs))) as Hwin.
  { apply shaped_tab. intros i Hi. by eapply length_window_row. }
  destruct (Sequential_forward_typed _ _ _ N _ (SimpleQNetwork_fc_typed θ state_size
              action_size fc1_units fc2_units step num_treatment mode) Hwin)
    as (y0 & Hy0 & Hy0sh).
  destruct (cat (slice_last step zs)) as [zc|] eqn:Hcat.
  2: { rewrite (cat_tab N) in Hcat; [done | by apply slice_last_nonempty |].
       apply Forall_slice_last. eapply Forall_impl; [done|]. by intros ? [? _]. }
  eexists _, _. unfold forward.
  eapply run_bind; [by apply run_get_tensors|].
  eapply run_bind; [by apply run_mapM_call_Ok|].
  eapply run_bind; [reflexivity|].
  change (_forward ?n) with (SimpleQNetwork._forward n).
  unfold SimpleQNetwork._forward.
  eapply run_bind; [apply run_get_tensors, lookup_insert_eq|]. cbv zeta.
  eapply run_bind; [by apply run_mapM_call_Ok|].
  eapply run_bind; [by apply run_lift|].
  eapply run_bind; [apply run_lift; by apply (window_block fc2_units step N zs zc)|].
  eapply run_bind; [by apply run_call_module|].
  eapply run_bind; [apply run_get_long; by rewrite lookup_insert_ne|].
  apply run_bind_Err. unfold lift.
  rewrite (zeros_like_shaped N action_size) by done.
  by rewrite scatter1_out.
Qed.

End SimpleQNetwork_failure.

Section ForwardEffects.
Context {R : Type} `{Scalar R}.

Ltac writes_go :=
  lazymatch goal with
  | |- writes_only _ (mret _) => apply writes_only_ret
  | |- writes_only _ (lift _) => apply writes_only_lift
  | |- writes_only _ (call_module _ _ _) => apply writes_only_call_module
  | |- writes_only _ (getitem _) => apply writes_only_getitem
  | |- writes_only _ (setitem _ _) => apply writes_only_setitem; set_solver
  | |- writes_only _ (mapM _ _) => apply writes_only_mapM; intros; writes_go
  | |- writes_only _ (_ ≫= _) => apply writes_only_bind; [writes_go | intros; writes_go]
  | |- writes_only _ (if _ then _ else _) => apply writes_only_if; writes_go
  | |- writes_only _ (match ?p with (_, _) => _ end) => destruct p; writes_go
  | |- writes_only _ (let _ := _ in _) => cbv zeta; writes_go
  | |- writes_only _ ?m => let h := head_of m in unfold h; writes_go
  end.

Lemma SimpleQNetwork_writes_only (self : SimpleQNetwork.t R) :
  writes_only {["z"; "onehot_prev_action"]} (forward self).
Proof. unfold forward. simpl. unfold SimpleQNetwork._forward. writes_go. Qed.

Lemma CEQNetwork_1_writes_only (self : CEQNetwork_1.t R) :
  writes_only {["z"]} (forward self).
Proof. unfold forward. simpl. unfold CEQNetwork_1._forward. writes_go. Qed.

Lemma CEQNetwork_2_writes_only (self : CEQNetwork_2.t R) :
  writes_only {["z"]} (forward self).
Proof. unfold forward. simpl. unfold CEQNetwork_2._forward. writes_go. Qed.

Lemma SimpleQNetwork_indep (self : SimpleQNetwork.t R) :
  indep {["z"; "onehot_prev_action"]} ∅ (forward self).
Proof.
  eapply indep_weaken; [|set_solver].
  unfold forward. simpl. unfold SimpleQNetwork._forward. indep_go.
Qed.

Lemma CEQNetwork_1_indep (self : CEQNetwork_1.t R) : indep {["z"]} ∅ (forward self).
Proof.
  eapply indep_weaken; [|set_solver].
  unfold forward. simpl. unfold CEQNetwork_1._forward. indep_go.
Qed.

Lemma CEQNetwork_2_indep (self : CEQNetwork_2.t R) : indep {["z"]} ∅ (forward self).
Proof.
  eapply indep_weaken; [|set_solver].
  unfold forward. simpl. unfold CEQNetwork_2._forward. indep_go.
Qed.

Lemma SimpleQNetwork_indep_eval (self : SimpleQNetwork.t R) :
  indep {["t"; "z"; "onehot_prev_action"]} {["t"]} (forward (SimpleQNetwork.eval self)).
Proof.
  eapply indep_weaken; [|set_solver].
  unfold forward. simpl. unfold SimpleQNetwork._forward. simpl. indep_go.
Qed.

Lemma CEQNetwork_1_indep_eval (self : CEQNetwork_1.t R) :
  indep {["t"; "z"]} {["t"]} (forward (CEQNetwork_1.eval self)).
Proof.
  eapply indep_weaken; [|set_solver].
  unfold forward. simpl. unfold CEQNetwork_1._forward. simpl. indep_go.
Qed.

Lemma CEQNetwork_2_indep_eval (self : CEQNetwork_2.t R) :
  indep {["t"; "z"]} {["t"]} (forward (CEQNetwork_2.eval self)).
Proof.
  eapply indep_weaken; [|set_solver].
  unfold forward. simpl. unfold CEQNetwork_2._forward. simpl. indep_go.
Qed.

End ForwardEffects.

(** ** Helper lemmas of the laws *)

Section LawFacts.
Context {R : Type} `{Scalar R}.
Implicit Types d : gmap string (value R).

Lemma AbstractDQN_init_typed (θ : params R) state_size fc1_units fc2_units :
  typed (AbstractDQN_init θ state_size fc1_units fc2_units) state_size fc2_units.
Proof.
  unfold AbstractDQN_init, nn_Linear.
  apply (typed_Linear (mkLinear _ _ _ _)), typed_ReLU,
        (typed_Linear (mkLinear _ _ _ _)), typed_ReLU, typed_nil.
Qed.

Lemma labels_ok_latest num_treatment N L d labs :
  labels_ok num_treatment N L d labs → 0 < L →
  latest_labels N d (default [] (last labs)).
Proof.
  intros [Hf Hal Hr] HL.
  destruct (last_is_Some labs) as [col Hcol]; [intros ->; simpl in Hal; lia|].
  rewrite Hcol. simpl. split.
  - exists (map column labs). split; [done|]. by rewrite fmap_last, Hcol.
  - by apply (last_Forall _ _ _ Hr Hcol).
Qed.

Lemma window_law_tab fc2_units step N (zs : list (tensor R)) :
  Forall (shaped N fc2_units) zs →
  window_law fc2_units step N zs (tab N (window_row fc2_units step zs)).
Proof.
  intros Hzs. split; [apply tab_length|]. intros i Hi.
  exists (window_row fc2_units step zs i). split_and!.
  - by apply tab_lookup.
  - by eapply length_window_row.
  - intros Hlt. unfold window_row. replace (length zs - step) with 0 by lia. done.
  - intros Hle. unfold window_row. replace (step - length zs) with 0 by lia.
    by rewrite Nat.mul_0_r.
Qed.

Lemma window_classes_at_range (num_treatment N L step : nat) (mode : bool) d
    (labs : list (list Z)) (t : list (tensor R)) (i : nat) :
  (if mode then labels_ok num_treatment N L d labs else 0 < num_treatment) →
  Forall (shaped N num_treatment) t → i < N →
  Forall (λ k, 0 ≤ k < Z.of_nat num_treatment)%Z (window_classes_at mode step labs t i).
Proof.
  intros Hmode Ht Hi. unfold window_classes_at. destruct mode.
  - destruct Hmode as [_ _ Hr]. unfold labels_at. apply Forall_map, Forall_drop.
    eapply Forall_impl; [done|]. intros col [Hc Hin]. simpl.
    destruct (lookup_lt_is_Some_2 col i) as [k Hk]; [lia|]. rewrite Hk. simpl.
    by eapply (proj1 (Forall_lookup _ _) Hin).
  - unfold predicted_at. apply Forall_map.
    eapply Forall_impl; [apply (rows_at_shaped N num_treatment t i Ht Hi)|].
    intros r Hr. simpl in *. pose proof (topk_index_lt r) as Hlt. rewrite Hr in Hlt.
    split; [lia|]. apply inj_lt, Hlt. intros ->. simpl in Hr. lia.
Qed.

Lemma treatment_block_law_tab `{!ScalarUnits R} num_treatment step L N
    (classes : nat → list Z) :
  (∀ i, i < N → length (classes i) = L - (L - step)) →
  (∀ i, i < N → Forall (λ k, 0 ≤ k < Z.of_nat num_treatment)%Z (classes i)) →
  treatment_block_law num_treatment step L N classes
    (tab N (λ i, treatment_row num_treatment step L (classes i))).
Proof.
  intros Hlen Hrange. split; [apply tab_length|]. intros i Hi.
  eexists. split_and!; [by apply tab_lookup | by apply length_treatment_row, Hlen |].
  intros j Hj. rewrite slot_treatment_row by (by apply Hlen || done). split.
  - intros Hlt. by rewrite decide_True.
  - intros Hge. rewrite decide_False by lia.
    destruct (lookup_lt_is_Some_2 (classes i) (j - (step - L))) as [k Hk].
    { rewrite Hlen by done. lia. }
    pose proof (proj1 (Forall_lookup _ _) (Hrange i Hi) _ k Hk) as Hin. simpl in Hin.
    exists k. rewrite Hk. simpl. split_and!; try done; try lia.
    + apply ssum_one_hot. lia.
    + apply one_hot_neq_zeros. lia.
Qed.

(** Two runs in a row on one dict: the second run, on the dict as the first
    one left it, calls the same modules and ends with the same result. *)
Lemma two_runs {A} (W : gset string) (m : M R A) d :
  writes_only W m → indep W ∅ m →
  (m (m d).1.1).2 = (m d).2 ∧
  (m (m d).1.1).1.2 = (m d).1.2 ∧
  (is_Ok (m d).2 → (m (m d).1.1).1.1 = (m d).1.1).
Proof.
  intros Hw Hi. destruct (Hi d (m d).1.1 (Hw d)) as (Hlog & Hres & _ & Hok).
  split_and!; [done|done|]. intros Hr. symmetry. by apply agree_off_empty, Hok.
Qed.

End LawFacts.

(** The batches of the scenarios are well formed. *)

Lemma Scenario_batch4 : batch 4 1 Scenario.data4 Scenario.states4.
Proof. split; [reflexivity | discriminate | lia | repeat constructor]. Defined.

Lemma Scenario_batch2 : batch 4 1 Scenario.data2 Scenario.states2.
Proof. split; [reflexivity | discriminate | lia | repeat constructor]. Defined.

Lemma Scenario_prev_action4 : prev_action_ok 2 1 Scenario.data4 [0%Z].
Proof. split; [reflexivity | reflexivity | repeat constructor; lia]. Defined.

Lemma Scenario_labels4 : labels_ok 2 1 4 Scenario.data4 Scenario.labels4.
Proof. split; [reflexivity | reflexivity | repeat constructor; lia]. Defined.

Lemma Forall_regular_Z (l : list Z) : Forall regular l.
Proof. apply Forall_forall. intros x _. apply Z_regular. Qed.

(** The outputs of some runs, by computation. *)

Lemma Examples_heads_run :
  (forward (CEQNetwork_2.train true (CEQNetwork_2.__init__ Examples.theta_heads 4 2 2 2 4 2))
     Scenario.data4).2
  = Ok (mkOut [[-2; 0]] [[6; -10]] [[2; 0; 4; 5; 4; 7; 2; 0]])%Z.
Proof. vm_compute. reflexivity. Qed.

Lemma Examples_single_class_run :
  (forward (CEQNetwork_2.train false (CEQNetwork_2.__init__ Examples.theta_heads 4 2 2 2 4 1))
     Scenario.data4).2
  = Ok (mkOut [[-2]] [[36; -25]] [[2; 0; 4; 5; 4; 7; 2; 0]])%Z.
Proof. vm_compute. reflexivity. Qed.

Lemma Scenario_eval_run :
  (forward (SimpleQNetwork.eval (SimpleQNetwork.__init__ Scenario.theta 4 2 2 2 4 2))
     Scenario.data4).2
  = Ok (mkOut [[-2; 0]] [[1; 0]] [[2; 0; 4; 5; 4; 7; 2; 0]])%Z.
Proof. vm_compute. reflexivity. Qed.

(** * The laws of the forward computation *)

Section Laws.
Context {R : Type} `{Scalar R}.
Implicit Types d : gmap string (value R).


(** C2, as amended. Variant C combination law. On a well-formed batch (in
    training mode one label per sample and timestep, aligned with the states
    and inside [[0, num_treatment)]) the forward call of [CEQNetwork_2]
    returns. Both value heads are applied to the same tensor [x]: the window
    block followed by the treatment block of the classes of the window. For
    every sample [i], with [k] its latest treatment indicator (the latest
    ground-truth label in training mode, the class that [topk] selects in the
    latest treatment logits, cast to a scalar, in evaluation mode), entry [j]
    of row [i] of the action values is [k * head1 + (1 - k) * head0] at that
    entry, as the scalar operations compute it. Where the entries of the rows
    of both heads are regular (finite, in IEEE arithmetic), the row is the row
    of [head0] for [k = 0] and the row of [head1] for [k = 1]. *)
Theorem CEQNetwork_2_combination_law `{!ScalarUnits R} (θ : params R)
    (state_size action_size fc1_units fc2_units step num_treatment : nat) (mode : bool)
    d (states : list (tensor R)) (N : nat) (labs : list (list Z)) :
  let net := CEQNetwork_2.train mode
               (CEQNetwork_2.__init__ θ state_size action_size fc1_units fc2_units
                  step num_treatment) in
  batch state_size N d states →
  (if mode then labels_ok num_treatment N (length states) d labs else 0 < num_treatment) →
  ∃ d' log out zs t head0 head1,
    forward net d = (d', log, Ok out) ∧
    mapM (Sequential_forward (CEQNetwork_2.encoder net)) states = Ok zs ∧
    mapM (Sequential_forward (CEQNetwork_2.logits_t net)) (drop (length zs - step) zs)
    = Ok t ∧
    shaped N (fc2_units * step) (out_z out) ∧
    (let x := zip_with app (out_z out)
                (tab N (λ i, treatment_row num_treatment step (length states)
                               (window_classes_at mode step labs t i))) in
     Sequential_forward (CEQNetwork_2.fc_t0 net) x = Ok head0 ∧
     Sequential_forward (CEQNetwork_2.fc_t1 net) x = Ok head1) ∧
    length (out_y out) = N ∧
    ∀ i, i < N →
      ∃ k h0 h1 y,
        (if mode then ∃ col, last labs = Some col ∧ col !! i = Some k
         else ∃ r, out_t out !! i = Some r ∧ k = Z.of_nat (topk_index r)) ∧
        head0 !! i = Some h0 ∧ head1 !! i = Some h1 ∧ out_y out !! i = Some y ∧
        length h0 = action_size ∧ length h1 = action_size ∧ length y = action_size ∧
        (∀ j a b, h1 !! j = Some a → h0 !! j = Some b →
           y !! j = Some (sadd (smul (of_Z k) a) (smul (ssub s1 (of_Z k)) b))) ∧
        (Forall regular h0 → Forall regular h1 →
         (k = 0%Z → y = h0) ∧ (k = 1%Z → y = h1)).
Proof.
  intros net Hbatch Hmode.
  destruct (CEQNetwork_2_forward_run θ state_size action_size fc1_units fc2_units step
              num_treatment mode d states N labs Hbatch Hmode)
    as (zs & zl & tl & t & y0 & y1 & log & Hzs & Hzsh & Hzlen & _ & _ & Htlsh & Ht & _
        & Hy0 & Hy1 & Hy0sh & Hy1sh & Hrun).
  cbv zeta in Hrun.
  eexists _, log, _, zs, t, y0, y1.
  split; [exact Hrun|]. cbn [out_y out_z out_t]. rewrite zip_with_tab, <- Hzlen.
  split_and!; [done|done| |done|done|apply tab_length|].
  { apply shaped_tab. intros i Hi. by eapply length_window_row. }
  intros i Hi.
  destruct (lookup_lt_is_Some_2 y0 i) as [h0 Hh0]; [rewrite (proj1 Hy0sh); lia|].
  destruct (lookup_lt_is_Some_2 y1 i) as [h1 Hh1]; [rewrite (proj1 Hy1sh); lia|].
  assert (length h0 = action_size) as Hl0
    by by eapply (proj1 (Forall_lookup _ _) (proj2 Hy0sh)).
  assert (length h1 = action_size) as Hl1
    by by eapply (proj1 (Forall_lookup _ _) (proj2 Hy1sh)).
  assert (∃ k, default 0%Z ((if mode then default [] (last labs)
                            else map (λ r, Z.of_nat (topk_index r)) tl) !! i) = k ∧
    (if mode then ∃ col, last labs = Some col ∧ col !! i = Some k
     else ∃ r, tl !! i = Some r ∧ k = Z.of_nat (topk_index r))) as (k & Hk & Hind).
  { destruct mode.
    - destruct Hmode as [_ Hal Hr].
      destruct (last_is_Some labs) as [col Hcol].
      { intros ->. simpl in Hal. destruct Hbatch as [_ Hne _ _]. destruct states; [done|].
        simpl in Hal. lia. }
      pose proof (last_Forall _ _ _ Hr Hcol) as [Hc _]. simpl in Hc.
      destruct (lookup_lt_is_Some_2 col i) as [k Hk]; [lia|].
      exists k. rewrite Hcol. simpl. rewrite Hk. eauto.
    - destruct (lookup_lt_is_Some_2 tl i) as [r Hr]; [rewrite (proj1 Htlsh); lia|].
      exists (Z.of_nat (topk_index r)). rewrite list_lookup_fmap, Hr. eauto. }
  exists k, h0, h1, (blend_row k h1 h0).
  split_and!; try done.
  - rewrite tab_lookup by done. rewrite Hk. unfold row. by rewrite Hh0, Hh1.
  - unfold blend_row. rewrite length_zip_with, !length_map. lia.
  - intros j a b. apply blend_row_lookup.
  - intros Hr0 Hr1. split; intros ->; [apply blend_row_0 | apply blend_row_1]; (done || lia).
Qed.

(** C3. Window assembler law. For a well-formed batch of [L ≥ 1] timesteps,
    with [zs] the latent tensors that the encoder returns for its states, the
    forward call of each of the three variants returns, in either mode (under
    the conditions on the other fields that the variant reads), a window
    block of [N] rows of width exactly [fc2_units * step]. If [L < step], a
    row is [fc2_units * (step - L)] zeros followed by the [L] latent vectors
    of the sample in their order; if [L ≥ step], it is the concatenation of
    the latent vectors of its last [step] timesteps. *)
Theorem window_assembler_law (θ : params R)
    (state_size action_size fc1_units fc2_units step num_treatment : nat) (mode : bool)
    d (states : list (tensor R)) (N : nat) (acts labels : list Z) (labs : list (list Z)) :
  let netA := SimpleQNetwork.train mode
                (SimpleQNetwork.__init__ θ state_size action_size fc1_units fc2_units
                   step num_treatment) in
  let netB := CEQNetwork_1.train mode
                (CEQNetwork_1.__init__ θ state_size action_size fc1_units fc2_units
                   step num_treatment) in
  let netC := CEQNetwork_2.train mode
                (CEQNetwork_2.__init__ θ state_size action_size fc1_units fc2_units
                   step num_treatment) in
  batch state_size N d states →
  ∃ zs,
    mapM (Sequential_forward (AbstractDQN_init θ state_size fc1_units fc2_units)) states
    = Ok zs ∧
    length zs = length states ∧
    (prev_action_ok action_size N d acts →
     (if mode then latest_labels N d labels else 0 < num_treatment) →
     ∃ d' log out, forward netA d = (d', log, Ok out) ∧
                   window_law fc2_units step N zs (out_z out)) ∧
    ((if mode then labels_ok num_treatment N (length states) d labs
      else 0 < num_treatment) →
     (∃ d' log out, forward netB d = (d', log, Ok out) ∧
                    window_law fc2_units step N zs (out_z out)) ∧
     (∃ d' log out, forward netC d = (d', log, Ok out) ∧
                    window_law fc2_units step N zs (out_z out))).
Proof.
  intros netA netB netC Hbatch.
  destruct (mapM_typed _ _ _ N states
              (AbstractDQN_init_typed θ state_size fc1_units fc2_units)
              (batch_shaped _ _ _ _ Hbatch))
    as (zs & Hzs & Hzsh & Hzlen).
  exists zs. split_and!; [done|done| |].
  - intros Hprev Hmode.
    destruct (SimpleQNetwork_forward_run θ state_size action_size fc1_units fc2_units step
                num_treatment mode d states N acts labels Hbatch Hprev Hmode)
      as (zs' & zl & tl & y0 & log & Hzs' & _ & _ & _ & _ & _ & _ & _ & Hrun).
    cbv zeta in Hrun. assert (Ok zs' = Ok zs) as [= ->] by (rewrite <- Hzs'; exact Hzs).
    eexists _, _, _. split; [exact Hrun|]. simpl. by apply window_law_tab.
  - intros Hmode. split.
    + destruct (CEQNetwork_1_forward_run θ state_size action_size fc1_units fc2_units step
                  num_treatment mode d states N labs Hbatch Hmode)
        as (zs' & zl & tl & t & y & log & Hzs' & _ & _ & _ & _ & _ & _ & _ & _ & _ & Hrun).
      assert (Ok zs' = Ok zs) as [= ->] by (rewrite <- Hzs'; exact Hzs).
      eexists _, _, _. split; [exact Hrun|]. simpl. by apply window_law_tab.
    + destruct (CEQNetwork_2_forward_run θ state_size action_size fc1_units fc2_units step
                  num_treatment mode d states N labs Hbatch Hmode)
        as (zs' & zl & tl & t & y0 & y1 & log & Hzs' & _ & _ & _ & _ & _ & _ & _
            & _ & _ & _ & _ & Hrun).
      cbv zeta in Hrun. assert (Ok zs' = Ok zs) as [= ->] by (rewrite <- Hzs'; exact Hzs).
      eexists _, _, _. split; [exact Hrun|]. simpl. by apply window_law_tab.
Qed.

(** C4. Treatment one-hot law. On a well-formed batch of [L] timesteps (in
    training mode one label per sample and timestep, aligned with the states
    and inside [[0, num_treatment)]), take the treatment block [block] that
    lines 89 and 94-103 (137 and 143-157) assemble from the logits of the
    window: [stack], then the one-hot branch of the mode, then [F.pad]. It
    holds [step] slots of width [num_treatment] per sample. The [step - L]
    slots on the left, for the timesteps missing when [L < step], are
    entirely zero. Every other slot is the one-hot vector of the class of its
    timestep (its label in training mode, the class that [topk] selects in its
    logits in evaluation mode): it sums to exactly 1 and is not the zero
    slot. The forward calls of Variants B and C return; their window block
    has [N] rows, and their action values are what the value heads return on
    the window block followed by this treatment block: the output of [fc]
    for Variant B, the combination of the outputs of [fc_t0] and [fc_t1] for
    Variant C. *)
Theorem treatment_one_hot_law `{!ScalarUnits R} (θ : params R)
    (state_size action_size fc1_units fc2_units step num_treatment : nat) (mode : bool)
    d (states : list (tensor R)) (N : nat) (labs : list (list Z)) :
  let netB := CEQNetwork_1.train mode
                (CEQNetwork_1.__init__ θ state_size action_size fc1_units fc2_units
                   step num_treatment) in
  let netC := CEQNetwork_2.train mode
                (CEQNetwork_2.__init__ θ state_size action_size fc1_units fc2_units
                   step num_treatment) in
  batch state_size N d states →
  (if mode then labels_ok num_treatment N (length states) d labs else 0 < num_treatment) →
  ∃ zs t block,
    mapM (Sequential_forward (AbstractDQN_init θ state_size fc1_units fc2_units)) states
    = Ok zs ∧
    mapM (Sequential_forward (CEQNetwork_1.logits_t netB)) (drop (length zs - step) zs)
    = Ok t ∧
    (∃ tc t_stack raw,
       mapM (Sequential_forward (CEQNetwork_1.logits_t netB)) (slice_last step zs) = Ok tc ∧
       stack1 tc = Ok t_stack ∧
       (if mode then onehot_truth step t_stack else onehot_predicted t_stack)
         (<["z" := VTensors zs]> d)
       = (<["z" := VTensors zs]> d, [], Ok raw) ∧
       pad_left (Z.of_nat (num_treatment * step) - Z.of_nat (size1 raw)) raw = Ok block) ∧
    treatment_block_law num_treatment step (length states) N
      (λ i, if mode then labels_at i (drop (length labs - step) labs)
            else predicted_at i t) block ∧
    (∃ d' log out,
       forward netB d = (d', log, Ok out) ∧
       shaped N (fc2_units * step) (out_z out) ∧
       shaped N action_size (out_y out) ∧
       Sequential_forward (CEQNetwork_1.fc netB) (zip_with app (out_z out) block)
       = Ok (out_y out)) ∧
    (∃ d' log out y_t0 y_t1,
       forward netC d = (d', log, Ok out) ∧
       shaped N (fc2_units * step) (out_z out) ∧
       Sequential_forward (CEQNetwork_2.fc_t0 netC) (zip_with app (out_z out) block)
       = Ok y_t0 ∧
       Sequential_forward (CEQNetwork_2.fc_t1 netC) (zip_with app (out_z out) block)
       = Ok y_t1 ∧
       length (out_y out) = N ∧
       ∀ i, i < N →
         ∃ k, (if mode then ∃ col, last labs = Some col ∧ col !! i = Some k
               else ∃ r, out_t out !! i = Some r ∧ k = Z.of_nat (topk_index r)) ∧
              out_y out !! i = Some (blend_row k (row y_t1 i) (row y_t0 i))).
Proof.
  intros netB netC Hbatch Hmode.
  destruct (CEQNetwork_1_forward_run θ state_size action_size fc1_units fc2_units step
              num_treatment mode d states N labs Hbatch Hmode)
    as (zs & zl & tl & t & y & log & Hzs & Hzsh & Hzlen & _ & _ & _ & Ht & Htsh & Hy & Hysh
        & HrunB).
  destruct (CEQNetwork_2_forward_run θ state_size action_size fc1_units fc2_units step
              num_treatment mode d states N labs Hbatch Hmode)
    as (zs' & zl' & tl' & t' & y0 & y1 & log' & Hzs' & _ & _ & _ & _ & Htlsh & Ht' & _
        & Hy0 & Hy1 & _ & _ & HrunC).
  cbv zeta in HrunC. simpl in Hzs, Hzs'. rewrite Hzs in Hzs'. injection Hzs' as <-.
  simpl in Ht, Ht'. rewrite Ht in Ht'. injection Ht' as <-.
  assert (zs ≠ []) as Hzne.
  { intros ->. destruct Hbatch as [_ Hne _ _]. destruct states; [done|]. simpl in Hzlen. lia. }
  assert (shaped N (fc2_units * step) (tab N (window_row fc2_units step zs))) as Hwin.
  { apply shaped_tab. intros i Hi. by eapply length_window_row. }
  exists zs, t, (tab N (λ i, treatment_row num_treatment step (length zs)
                               (window_classes_at mode step labs t i))).
  assert (zip_with app (tab N (window_row fc2_units step zs))
            (tab N (λ i, treatment_row num_treatment step (length zs)
                           (window_classes_at mode step labs t i)))
          = tab N (λ i, joint_row fc2_units num_treatment step zs
                          (window_classes_at mode step labs t i) i)) as Hjoin
    by by rewrite zip_with_tab.
  split_and!; [done|done| | | |].
  - apply (treatment_block_run _ fc2_units num_treatment step N mode _ labs zs t);
      try done.
    + apply (CEQNetwork_1_logits_t_typed θ state_size action_size fc1_units fc2_units step
               num_treatment mode).
    + by destruct Hbatch.
    + destruct mode; [|done]. destruct Hmode as [Hf Hal Hr].
      split; [by rewrite lookup_insert_ne | by rewrite Hzlen | done].
  - rewrite <- Hzlen.
    assert (treatment_block_law num_treatment step (length zs) N
              (window_classes_at mode step labs t)
              (tab N (λ i, treatment_row num_treatment step (length zs)
                             (window_classes_at mode step labs t i)))) as Hlaw.
    { apply treatment_block_law_tab.
      - intros i Hi. unfold window_classes_at. destruct mode.
        + destruct Hmode as [_ Hal _]. unfold labels_at.
          rewrite length_map, length_drop, Hal, Hzlen. done.
        + unfold predicted_at, rows_at. apply mapM_Ok, Forall2_length in Ht.
          rewrite !length_map, <- Ht, length_drop. done.
      - intros i Hi. by eapply window_classes_at_range. }
    unfold window_classes_at in Hlaw. by destruct mode.
  - eexists _, _, _. split; [exact HrunB|]. cbn [out_y out_z]. by rewrite Hjoin.
  - eexists _, _, _, y0, y1. split; [exact HrunC|]. cbn [out_y out_z out_t].
    rewrite Hjoin. split_and!; [done|done|done|apply tab_length|].
    intros i Hi. rewrite tab_lookup by done.
    destruct mode.
    + destruct Hmode as [_ Hal Hr].
      destruct (last_is_Some labs) as [col Hcol].
      { intros ->. simpl in Hal. rewrite <- Hzlen in Hal. by destruct zs. }
      pose proof (last_Forall _ _ _ Hr Hcol) as [Hc _]. simpl in Hc.
      destruct (lookup_lt_is_Some_2 col i) as [k Hk]; [lia|].
      exists k. rewrite Hcol. simpl. rewrite Hk. eauto.
    + destruct (lookup_lt_is_Some_2 tl' i) as [r Hr]; [rewrite (proj1 Htlsh); lia|].
      exists (Z.of_nat (topk_index r)). rewrite list_lookup_fmap, Hr. eauto.
Qed.

(** C5, as amended. Evaluation-mode arg-max selection. In evaluation mode,
    on a well-formed batch, the treatment logits returned as [out['t']] are
    the output of the Treatment Head on the latent tensor of the latest
    timestep, and the class that Variant A compares with 1 in its override,
    and that Variant C casts to the weight of its combination, is for every
    sample the index that [topk] returns on its row of these logits. It is a
    class of [[0, num_treatment)] and a function of the row: nothing is
    sampled. With what the documentation of [topk] states of this index, it
    is an index of a largest score, and the class that scores strictly above
    every other class when there is one. Which class is selected among
    several classes of the largest score is left to [topk]. *)
Theorem eval_argmax_selection `{!TopkLargest R} (θ : params R)
    (state_size action_size fc1_units fc2_units step num_treatment : nat)
    d (states : list (tensor R)) (N : nat) (acts : list Z) :
  let netA := SimpleQNetwork.eval
                (SimpleQNetwork.__init__ θ state_size action_size fc1_units fc2_units
                   step num_treatment) in
  let netC := CEQNetwork_2.eval
                (CEQNetwork_2.__init__ θ state_size action_size fc1_units fc2_units
                   step num_treatment) in
  batch state_size N d states →
  0 < num_treatment →
  ∃ zs zl treatment_logits,
    mapM (Sequential_forward (AbstractDQN_init θ state_size fc1_units fc2_units)) states
    = Ok zs ∧
    last zs = Some zl ∧
    Sequential_forward (SimpleQNetwork.logits_t netA) zl = Ok treatment_logits ∧
    Sequential_forward (CEQNetwork_2.logits_t netC) zl = Ok treatment_logits ∧
    length treatment_logits = N ∧
    topk1 treatment_logits
    = Ok (column (map (λ r, Z.of_nat (topk_index r)) treatment_logits)) ∧
    (∀ i r, treatment_logits !! i = Some r →
       topk_index r < num_treatment ∧
       largest r (topk_index r) ∧
       ∀ k v, r !! k = Some v →
              (∀ j x, j ≠ k → r !! j = Some x → sltb x v = true) →
              topk_index r = k) ∧
    (prev_action_ok action_size N d acts →
     ∃ d' log out y0,
       forward netA d = (d', log, Ok out) ∧
       out_t out = treatment_logits ∧
       Sequential_forward (SimpleQNetwork.fc netA) (out_z out) = Ok y0 ∧
       length (out_y out) = N ∧
       ∀ i r a, treatment_logits !! i = Some r → acts !! i = Some a →
         out_y out !! i
         = Some (if decide (topk_index r = 1) then one_hot action_size (Z.to_nat a)
                 else row y0 i)) ∧
    (∃ d' log out t y_t0 y_t1,
       forward netC d = (d', log, Ok out) ∧
       out_t out = treatment_logits ∧
       mapM (Sequential_forward (CEQNetwork_2.logits_t netC)) (drop (length zs - step) zs)
       = Ok t ∧
       (let x := zip_with app (out_z out)
                   (tab N (λ i, treatment_row num_treatment step (length states)
                                  (predicted_at i t))) in
        Sequential_forward (CEQNetwork_2.fc_t0 netC) x = Ok y_t0 ∧
        Sequential_forward (CEQNetwork_2.fc_t1 netC) x = Ok y_t1) ∧
       length (out_y out) = N ∧
       ∀ i r, treatment_logits !! i = Some r →
         out_y out !! i
         = Some (blend_row (Z.of_nat (topk_index r)) (row y_t1 i) (row y_t0 i))).
Proof.
  intros netA netC Hbatch Hnt.
  destruct (CEQNetwork_2_forward_run θ state_size action_size fc1_units fc2_units step
              num_treatment false d states N [] Hbatch Hnt)
    as (zs & zl & tl & t & y0 & y1 & log & Hzs & _ & Hzlen & Hzl & Htl & Htlsh & Ht & _
        & Hy0 & Hy1 & Hy0sh & Hy1sh & HrunC).
  cbv zeta in HrunC. simpl in Hzs.
  exists zs, zl, tl. split_and!; try done.
  - apply Htlsh.
  - by apply (topk1_column N num_treatment).
  - intros i r Hr.
    pose proof (proj1 (Forall_lookup _ _) (proj2 Htlsh) i r Hr) as Hlen. simpl in Hlen.
    assert (r ≠ []) as Hne by (intros ->; simpl in Hlen; lia).
    split_and!.
    + rewrite <- Hlen. by apply topk_index_lt.
    + by apply topk_index_largest.
    + intros k v. apply topk_index_unique.
  - intros Hprev.
    destruct (SimpleQNetwork_forward_run θ state_size action_size fc1_units fc2_units step
                num_treatment false d states N acts [] Hbatch Hprev Hnt)
      as (zs' & zl' & tl' & yA & logA & Hzs' & _ & _ & Hzl' & Htl' & _ & HyA & HyAsh
          & HrunA).
    cbv zeta in HrunA. simpl in Hzs'. rewrite Hzs in Hzs'. injection Hzs' as <-.
    rewrite Hzl in Hzl'. injection Hzl' as <-.
    simpl in Htl, Htl'. rewrite Htl in Htl'. injection Htl' as <-.
    eexists _, logA, _, yA. split; [exact HrunA|]. cbn [out_y out_z out_t].
    split_and!; [done|done|apply tab_length|].
    intros i r a Hr Ha.
    assert (i < N) as Hi by (rewrite <- (proj1 Htlsh); by eapply lookup_lt_Some).
    rewrite tab_lookup by done. rewrite list_lookup_fmap, Hr, Ha. simpl.
    destruct (decide (Z.of_nat (topk_index r) = 1%Z)), (decide (topk_index r = 1));
      try done; lia.
  - eexists _, log, _, t, y0, y1.
    split; [exact HrunC|]. cbn [out_y out_z out_t]. rewrite zip_with_tab, <- Hzlen.
    split_and!; [done|done|done|done|apply tab_length|].
    intros i r Hr.
    assert (i < N) as Hi by (rewrite <- (proj1 Htlsh); by eapply lookup_lt_Some).
    rewrite tab_lookup by done. by rewrite list_lookup_fmap, Hr.
Qed.

(** C6. Evaluation-mode determinism (two-run property). For each of the
    three variants, whatever its weights and whatever the batch, running the
    forward computation in evaluation mode a second time, on the batch dict as
    the first run left it, ends with the same result (the same outputs
    [out['t']], [out['y']], [out['z']], or the same exception) after the same
    calls of the sub-modules; when the run returns, the second run also
    leaves the dict as the first one did. The computation is a function of
    the weights and of the batch: nothing is sampled. *)
Theorem eval_two_runs_agree
    (selfA : SimpleQNetwork.t R) (selfB : CEQNetwork_1.t R) (selfC : CEQNetwork_2.t R) d :
  let two_runs_agree (m : M R (Out R)) :=
    let '(d1, log1, r1) := m d in
    let '(d2, log2, r2) := m d1 in
    r2 = r1 ∧ log2 = log1 ∧ (is_Ok r1 → d2 = d1) in
  two_runs_agree (forward (SimpleQNetwork.eval selfA)) ∧
  two_runs_agree (forward (CEQNetwork_1.eval selfB)) ∧
  two_runs_agree (forward (CEQNetwork_2.eval selfC)).
Proof.
  intros two_runs_agree. unfold two_runs_agree. split_and!.
  - pose proof (two_runs _ (forward (SimpleQNetwork.eval selfA)) d
                  (SimpleQNetwork_writes_only _) (SimpleQNetwork_indep _)) as Hruns.
    destruct (forward (SimpleQNetwork.eval selfA) d) as [[d1 log1] r1]. simpl in Hruns.
    by destruct (forward (SimpleQNetwork.eval selfA) d1) as [[d2 log2] r2].
  - pose proof (two_runs _ (forward (CEQNetwork_1.eval selfB)) d
                  (CEQNetwork_1_writes_only _) (CEQNetwork_1_indep _)) as Hruns.
    destruct (forward (CEQNetwork_1.eval selfB) d) as [[d1 log1] r1]. simpl in Hruns.
    by destruct (forward (CEQNetwork_1.eval selfB) d1) as [[d2 log2] r2].
  - pose proof (two_runs _ (forward (CEQNetwork_2.eval selfC)) d
                  (CEQNetwork_2_writes_only _) (CEQNetwork_2_indep _)) as Hruns.
    destruct (forward (CEQNetwork_2.eval selfC) d) as [[d1 log1] r1]. simpl in Hruns.
    by destruct (forward (CEQNetwork_2.eval selfC) d1) as [[d2 log2] r2].
Qed.

(** C7, as amended. Shape check of the states. In a forward call of any
    variant, in either mode, in which some state tensor of the batch has a row
    whose width differs from [state_size], the State Encoder raises a shape
    error: the call fails with [ShapeMismatch], the batch dict is left as it
    was, and the only sub-module called is the encoder, so that neither the
    Treatment Head nor an action-value head is called. *)
Theorem state_encoder_fails_fast (θ : params R)
    (state_size action_size fc1_units fc2_units step num_treatment : nat) (mode : bool)
    d (states : list (tensor R)) :
  let netA := SimpleQNetwork.train mode
                (SimpleQNetwork.__init__ θ state_size action_size fc1_units fc2_units
                   step num_treatment) in
  let netB := CEQNetwork_1.train mode
                (CEQNetwork_1.__init__ θ state_size action_size fc1_units fc2_units
                   step num_treatment) in
  let netC := CEQNetwork_2.train mode
                (CEQNetwork_2.__init__ θ state_size action_size fc1_units fc2_units
                   step num_treatment) in
  d !! "state" = Some (VTensors states) →
  Exists (λ x, Exists (λ r, length r ≠ state_size) x) states →
  let fails_in_encoder (m : M R (Out R)) :=
    ∃ log, m d = (d, log, Err ShapeMismatch) ∧ Forall (λ c, c = Encoder) log in
  fails_in_encoder (forward netA) ∧
  fails_in_encoder (forward netB) ∧
  fails_in_encoder (forward netC).
Proof.
  intros netA netB netC Hstate Hbad fails_in_encoder.
  unfold fails_in_encoder. clear fails_in_encoder.
  assert (Exists (λ x, Sequential_forward
                         (AbstractDQN_init θ state_size fc1_units fc2_units) x
                       = Err ShapeMismatch) states) as Hex.
  { eapply Exists_impl; [done|]. intros x Hx. by apply encoder_rejects. }
  split; [|split].
  - destruct (forward_encoder_rejects netA d states Hstate) as [n Hrun]; [exact Hex|].
    exists (replicate n Encoder). split; [done|]. by apply Forall_replicate.
  - destruct (forward_encoder_rejects netB d states Hstate) as [n Hrun]; [exact Hex|].
    exists (replicate n Encoder). split; [done|]. by apply Forall_replicate.
  - destruct (forward_encoder_rejects netC d states Hstate) as [n Hrun]; [exact Hex|].
    exists (replicate n Encoder). split; [done|]. by apply Forall_replicate.
Qed.

(** C8, as amended. Frame of a forward call. A forward call changes the
    batch dict of its caller at the keys ['z'] (all variants) and
    ['onehot_prev_action'] (Variant A) only: every other field, the states,
    the previous actions and the labels included, is left as it was, whether
    the call returns or raises. Its result does not depend on the entries
    that the batch holds at these keys, from an earlier call or otherwise. *)
Theorem forward_frame
    (selfA : SimpleQNetwork.t R) (selfB : CEQNetwork_1.t R) (selfC : CEQNetwork_2.t R) d :
  ((∀ k, k ≠ "z" → k ≠ "onehot_prev_action" → (forward selfA d).1.1 !! k = d !! k) ∧
   (∀ d', (∀ k, k ≠ "z" → k ≠ "onehot_prev_action" → d !! k = d' !! k) →
          (forward selfA d).2 = (forward selfA d').2)) ∧
  ((∀ k, k ≠ "z" → (forward selfB d).1.1 !! k = d !! k) ∧
   (∀ d', (∀ k, k ≠ "z" → d !! k = d' !! k) →
          (forward selfB d).2 = (forward selfB d').2)) ∧
  ((∀ k, k ≠ "z" → (forward selfC d).1.1 !! k = d !! k) ∧
   (∀ d', (∀ k, k ≠ "z" → d !! k = d' !! k) →
          (forward selfC d).2 = (forward selfC d').2)).
Proof.
  split_and!.
  - intros k Hz Hoh. symmetry. apply (SimpleQNetwork_writes_only selfA d). set_solver.
  - intros d' Hd. apply (SimpleQNetwork_indep selfA d d').
    intros k Hk. apply Hd; set_solver.
  - intros k Hz. symmetry. apply (CEQNetwork_1_writes_only selfB d). set_solver.
  - intros d' Hd. apply (CEQNetwork_1_indep selfB d d').
    intros k Hk. apply Hd; set_solver.
  - intros k Hz. symmetry. apply (CEQNetwork_2_writes_only selfC d). set_solver.
  - intros d' Hd. apply (CEQNetwork_2_indep selfC d d').
    intros k Hk. apply Hd; set_solver.
Qed.

(** C9. Evaluation-mode noninterference from the labels. For each of the
    three variants, the forward calls in evaluation mode on two batches that
    agree on every field but ['t'] (the label sequence, present or absent)
    end with the same result, the same outputs [out['t']], [out['y']],
    [out['z']] or the same exception, after the same calls of the
    sub-modules; when they return, the dicts they leave agree on every
    field but ['t']. *)
Theorem eval_ignores_treatment_sequence
    (selfA : SimpleQNetwork.t R) (selfB : CEQNetwork_1.t R) (selfC : CEQNetwork_2.t R)
    d1 d2 :
  (∀ k, k ≠ "t" → d1 !! k = d2 !! k) →
  let same_outputs (m : M R (Out R)) :=
    (m d1).2 = (m d2).2 ∧ (m d1).1.2 = (m d2).1.2 ∧
    (is_Ok (m d1).2 → ∀ k, k ≠ "t" → (m d1).1.1 !! k = (m d2).1.1 !! k) in
  same_outputs (forward (SimpleQNetwork.eval selfA)) ∧
  same_outputs (forward (CEQNetwork_1.eval selfB)) ∧
  same_outputs (forward (CEQNetwork_2.eval selfC)).
Proof.
  intros Hd same_outputs. unfold same_outputs. clear same_outputs.
  assert (∀ U : gset string, "t" ∈ U → agree_off U d1 d2) as Hagree.
  { intros U HU k Hk. apply Hd. by intros ->. }
  split; [|split].
  - destruct (SimpleQNetwork_indep_eval selfA d1 d2) as (Hlog & Hres & _ & Hok).
    { apply Hagree. set_solver. }
    split; [done|]. split; [done|].
    intros Hr k Hk. apply (Hok Hr). set_solver.
  - destruct (CEQNetwork_1_indep_eval selfB d1 d2) as (Hlog & Hres & _ & Hok).
    { apply Hagree. set_solver. }
    split; [done|]. split; [done|].
    intros Hr k Hk. apply (Hok Hr). set_solver.
  - destruct (CEQNetwork_2_indep_eval selfC d1 d2) as (Hlog & Hres & _ & Hok).
    { apply Hagree. set_solver. }
    split; [done|]. split; [done|].
    intros Hr k Hk. apply (Hok Hr). set_solver.
Qed.

(** C10. Precondition on [prev_action] in Variant A. On a batch with one
    previous action per sample, when every action index lies in
    [[0, action_size)] the forward call of [SimpleQNetwork] returns (the
    out-of-bounds branch of [scatter] is not taken) and the buffer it stores
    under ['onehot_prev_action'] has the shape of the output of the value
    head, [N] rows of width [action_size], row [i] holding a one at index
    [prev_action[i]] and zeros elsewhere. When some index lies outside
    [[0, action_size)], the call fails in [scatter] and returns no output. *)
Theorem SimpleQNetwork_prev_action_precondition (θ : params R)
    (state_size action_size fc1_units fc2_units step num_treatment : nat) (mode : bool)
    d (states : list (tensor R)) (N : nat) (acts labels : list Z) :
  let net := SimpleQNetwork.train mode
               (SimpleQNetwork.__init__ θ state_size action_size fc1_units fc2_units
                  step num_treatment) in
  batch state_size N d states →
  d !! "prev_action" = Some (VLong (column acts)) →
  length acts = N →
  (Forall (λ a, 0 ≤ a < Z.of_nat action_size)%Z acts →
   (if mode then latest_labels N d labels else 0 < num_treatment) →
   ∃ d' log out y0 onehot,
     forward net d = (d', log, Ok out) ∧
     Sequential_forward (SimpleQNetwork.fc net) (out_z out) = Ok y0 ∧
     d' !! "onehot_prev_action" = Some (VTensor onehot) ∧
     size0 onehot = size0 y0 ∧ size1 onehot = size1 y0 ∧
     shaped N action_size onehot ∧
     ∀ i a j, acts !! i = Some a → j < action_size →
              row onehot i !! j = Some (if decide (j = Z.to_nat a) then s1 else s0)) ∧
  (Exists (λ a, ¬ (0 ≤ a < Z.of_nat action_size)%Z) acts →
   ∃ d' log, forward net d = (d', log, Err IndexOutOfBounds)).
Proof.
  intros net Hbatch Hfield Hlen. split.
  - intros Hrange Hmode.
    assert (prev_action_ok action_size N d acts) as Hprev by (by split).
    destruct (SimpleQNetwork_forward_run θ state_size action_size fc1_units fc2_units step
                num_treatment mode d states N acts labels Hbatch Hprev Hmode)
      as (zs & zl & tl & y0 & log & _ & _ & _ & _ & _ & _ & Hy0 & Hy0sh & Hrun).
    cbv zeta in Hrun.
    assert (shaped N action_size (map (λ a, one_hot action_size (Z.to_nat a)) acts : tensor R))
      as Hsh.
    { split; [by rewrite length_map|]. apply Forall_map, Forall_true. intros a.
      apply length_one_hot. }
    eexists _, log, _, y0, _. split; [exact Hrun|]. simpl. split_and!.
    + done.
    + apply lookup_insert_eq.
    + unfold size0. by rewrite (proj1 Hsh), (proj1 Hy0sh).
    + destruct Hbatch as [_ _ HN _].
      by rewrite (size1_shaped N action_size _ Hsh), (size1_shaped N action_size _ Hy0sh).
    + done.
    + intros i a j Ha Hj. unfold row. rewrite list_lookup_fmap, Ha. simpl.
      apply one_hot_lookup; [|done].
      pose proof (proj1 (Forall_lookup _ _) Hrange i a Ha) as Hin. simpl in Hin. lia.
  - intros Hout.
    apply (SimpleQNetwork_forward_scatter_error θ state_size action_size fc1_units fc2_units
             step num_treatment mode d states N acts); try done. lia.
Qed.

End Laws.

(** * The laws on the scenarios *)


(** C2, witness: training mode, latest label 1, with two heads that differ:
    the action values are those of the second head. *)
Lemma CEQNetwork_2_combination_law_witness :
  ∃ out head0 head1 block,
    (forward (CEQNetwork_2.train true Examples.netC_heads) Scenario.data4).2 = Ok out ∧
    Sequential_forward (CEQNetwork_2.fc_t0 Examples.netC_heads)
      (zip_with app (out_z out) block) = Ok head0 ∧
    Sequential_forward (CEQNetwork_2.fc_t1 Examples.netC_heads)
      (zip_with app (out_z out) block) = Ok head1 ∧
    block = [[1; 0; 1; 0; 0; 1; 0; 1]]%Z ∧
    head0 = [[40; -23]]%Z ∧ head1 = [[6; -10]]%Z ∧ out_y out = head1.
Proof.
  unfold Examples.netC_heads.
  destruct (CEQNetwork_2_combination_law Examples.theta_heads 4 2 2 2 4 2 true Scenario.data4
              Scenario.states4 1 Scenario.labels4 Scenario_batch4 Scenario_labels4)
    as (d' & log & out & zs & t & head0 & head1 & Hrun & _ & _ & _ & [Hh0 Hh1] & _ & Hrows).
  destruct (Hrows 0) as (k & h0 & h1 & y & (col & Hcol & Hk) & Hr0 & Hr1 & Hy & _ & _ & _ & _
                         & Hsel); [lia|].
  injection Hcol as <-. injection Hk as <-.
  destruct (Hsel (Forall_regular_Z h0) (Forall_regular_Z h1)) as [_ Hone].
  specialize (Hone eq_refl). subst y.
  pose proof Examples_heads_run as Hc. rewrite Hrun in Hc. injection Hc as ->.
  exists (mkOut [[-2; 0]] [[6; -10]] [[2; 0; 4; 5; 4; 7; 2; 0]])%Z, head0, head1,
    (tab 1 (λ i, treatment_row 2 4 (length Scenario.states4)
                   (window_classes_at true 4 Scenario.labels4 t i))).
  split; [exact (f_equal snd Hrun)|]. split; [exact Hh0|]. split; [exact Hh1|].
  split; [reflexivity|].
  vm_compute in Hh0. injection Hh0 as <-.
  vm_compute in Hh1. injection Hh1 as <-.
  split; [reflexivity|]. split; reflexivity.
Defined.

(** C2, counterexample: the scenario in training mode, latest label 1, with
    a first head [fc_t0] whose last bias is infinite. The second head returns
    the finite row [[6; -10]], and the action values are not this row: they
    are [[NaN; NaN]], since the weight 0 of the first head multiplies an
    infinity. *)
Lemma combination_counterexample :
  ∃ out head1,
    (forward (CEQNetwork_2.train true Overflow.netC_inf) Overflow.data4_fin).2 = Ok out ∧
    (∃ ts, Overflow.data4_fin !! "t" = Some (VLongs ts) ∧ last ts = Some [[1%Z]]) ∧
    Sequential_forward (CEQNetwork_2.fc_t1 Overflow.netC_inf)
      (zip_with app (out_z out)
         [[Fin 1; Fin 0; Fin 1; Fin 0; Fin 0; Fin 1; Fin 0; Fin 1]]) = Ok head1 ∧
    head1 = [[Fin 6; Fin (-10)]] ∧
    out_y out = [[NaN; NaN]] ∧
    out_y out ≠ head1.
Proof.
  eexists _, _. split; [vm_compute; reflexivity|].
  split; [eexists; split; vm_compute; reflexivity|].
  split; [vm_compute; reflexivity|].
  split; [reflexivity|]. split; [reflexivity|]. discriminate.
Qed.

(** C3, witness: two timesteps where [step = 4], evaluation mode. *)
Lemma window_assembler_law_witness :
  ∃ zs d' log out,
    forward (SimpleQNetwork.train false Scenario.netA) Scenario.data2 = (d', log, Ok out) ∧
    window_law 2 4 1 zs (out_z out).
Proof.
  unfold Scenario.netA.
  destruct (window_assembler_law Scenario.theta 4 2 2 2 4 2 false Scenario.data2
              Scenario.states2 1 [1%Z] [] [] Scenario_batch2)
    as (zs & _ & _ & HA & _).
  destruct HA as (d' & log & out & Hrun & Hlaw).
  - split; [reflexivity | reflexivity | repeat constructor; lia].
  - simpl. lia.
  - exists zs, d', log, out. split; [exact Hrun | exact Hlaw].
Defined.

(** C4, witness: four timesteps with their labels, training mode. The slot
    of the latest timestep, whose label is 1, is [[0; 1]]. *)
Lemma treatment_one_hot_law_witness :
  ∃ block r d' log out,
    forward (CEQNetwork_1.train true Scenario.netB) Scenario.data4 = (d', log, Ok out) ∧
    Sequential_forward (CEQNetwork_1.fc (CEQNetwork_1.train true Scenario.netB))
      (zip_with app (out_z out) block)
    = Ok (out_y out) ∧
    length (out_z out) = 1 ∧
    block !! 0 = Some r ∧ slot 2 3 r = [0; 1]%Z ∧ ssum (slot 2 3 r) = 1%Z.
Proof.
  unfold Scenario.netB.
  destruct (treatment_one_hot_law Scenario.theta 4 2 2 2 4 2 true Scenario.data4
              Scenario.states4 1 Scenario.labels4 Scenario_batch4 Scenario_labels4)
    as (zs & t & block & _ & _ & _ & [_ Hslots]
        & (d' & log & out & Hrun & [Hz _] & _ & Hfc) & _).
  destruct (Hslots 0) as (r & Hr & _ & Hslot); [lia|].
  destruct (Hslot 3) as [_ Hone]; [lia|].
  destruct Hone as (k & Hk & _ & Hoh & Hsum & _); [simpl; lia|].
  vm_compute in Hk. injection Hk as <-.
  exists block, r, d', log, out.
  split; [exact Hrun|]. split; [exact Hfc|]. split; [exact Hz|]. split; [exact Hr|].
  split; [exact Hoh | exact Hsum].
Defined.

(** C5, witness: Variant C in evaluation mode on the scenario. The class
    selected for its sample holds a largest score. *)
Lemma eval_argmax_selection_witness :
  ∃ d' log out r,
    forward (CEQNetwork_2.eval Scenario.netC) Scenario.data4 = (d', log, Ok out) ∧
    out_t out !! 0 = Some r ∧
    topk_index r < 2 ∧ largest r (topk_index r).
Proof.
  unfold Scenario.netC.
  destruct (eval_argmax_selection Scenario.theta 4 2 2 2 4 2 Scenario.data4
              Scenario.states4 1 [0%Z] Scenario_batch4)
    as (zs & zl & tl & _ & _ & _ & _ & Hlen & _ & Hsel & _
        & (d' & log & out & t & y_t0 & y_t1 & Hrun & Ht & _)).
  - lia.
  - destruct (lookup_lt_is_Some_2 tl 0) as [r Hr]; [rewrite Hlen; lia|].
    destruct (Hsel 0 r Hr) as (Hlt & Hmax & _).
    exists d', log, out, r. split; [exact Hrun|]. rewrite Ht.
    split; [exact Hr|]. split; [exact Hlt | exact Hmax].
Defined.

(** C5, counterexample: four treatment classes whose scores are
    [[0; 2; 2; 2]], in evaluation mode of Variant A, with previous action 0.
    The lowest class of the largest score is class 1, for which the action
    values would be overridden by [[1; 0]]; [topk] returns class 2, and the
    action values are the output [[-22; -5]] of the value head. *)
Lemma tie_break_counterexample :
  ∃ out,
    (forward (SimpleQNetwork.eval Examples.netA_tie) Scenario.data4).2 = Ok out ∧
    out_t out = [[0; 2; 2; 2]]%Z ∧
    first_max [0; 2; 2; 2]%Z 1 ∧
    topk1 (out_t out) = Ok [[2%Z]] ∧
    ¬ first_max [0; 2; 2; 2]%Z 2 ∧
    Sequential_forward (SimpleQNetwork.fc Examples.netA_tie) (out_z out)
    = Ok [[-22; -5]]%Z ∧
    out_y out = [[-22; -5]]%Z.
Proof.
  eexists. split; [vm_compute; reflexivity|]. cbn [out_t out_y out_z].
  split; [reflexivity|]. split_and!.
  - exists 2%Z. split; [reflexivity|]. split.
    + intros j x Hj. do 4 (destruct j as [|j]; [by injection Hj as <-|]). by destruct j.
    + intros j x Hlt Hj. destruct j as [|j]; [by injection Hj as <-|lia].
  - vm_compute. reflexivity.
  - intros (v & Hv & _ & Hfirst). injection Hv as <-.
    by specialize (Hfirst 1 2%Z ltac:(lia) eq_refl).
  - vm_compute. reflexivity.
  - reflexivity.
Qed.

(** C6, witness: a second run of Variant A in evaluation mode. *)
Lemma eval_two_runs_agree_witness :
  let '(d1, log1, r1) := forward (SimpleQNetwork.eval Scenario.netA) Scenario.data4 in
  let '(d2, log2, r2) := forward (SimpleQNetwork.eval Scenario.netA) d1 in
  r2 = r1 ∧ log2 = log1 ∧ (is_Ok r1 → d2 = d1).
Proof.
  exact (proj1 (eval_two_runs_agree Scenario.netA Scenario.netB Scenario.netC
                  Scenario.data4)).
Defined.

(** C7, witness: a state of three features where [state_size = 4]. *)
Lemma state_encoder_fails_fast_witness :
  ∃ log, forward (CEQNetwork_2.train true Scenario.netC) Scenario.data_narrow
         = (Scenario.data_narrow, log, Err ShapeMismatch) ∧
         Forall (λ c, c = Encoder) log.
Proof.
  unfold Scenario.netC.
  destruct (state_encoder_fails_fast Scenario.theta 4 2 2 2 4 2 true Scenario.data_narrow
              [[[1; 0; 2; -1]]; [[0; 1; 1]]]%Z)
    as (_ & _ & HC).
  - reflexivity.
  - apply Exists_cons_tl, Exists_cons_hd, Exists_cons_hd. simpl. lia.
  - exact HC.
Defined.

(** C7, counterexample: malformed batches that are not rejected before a
    value head runs. In Variant A: with a latest label outside
    [[0, num_treatment)], the call returns action values; with a label tensor
    of one row for a batch of two samples, the label is broadcast to both
    samples, whose action values are both overridden; with three previous
    actions for a batch of two samples, the call fails with a shape error, but
    only after the value head [fc] has been called. In Variants B and C: with
    label tensors of one row for a batch of two samples, the call returns
    action values for both samples. *)
Lemma fails_fast_counterexample :
  ¬ fails_fast (forward Scenario.netA) Scenario.data_label5 ∧
  (∃ out, (forward Scenario.netA Scenario.data_one_label).2 = Ok out ∧
          out_y out = [[1; 0]; [0; 1]]%Z) ∧
  ¬ fails_fast (forward Scenario.netA) Scenario.data_three_actions ∧
  (forward Scenario.netA Scenario.data_three_actions).2 = Err ShapeMismatch ∧
  Fc ∈ (forward Scenario.netA Scenario.data_three_actions).1.2 ∧
  (∃ out, (forward Scenario.netB Examples.data_labels_one_row).2 = Ok out ∧
          out_y out = [[-70; -29]; [-26; 2]]%Z) ∧
  (∃ out, (forward Scenario.netC Examples.data_labels_one_row).2 = Ok out ∧
          out_y out = [[40; -23]; [76; -70]]%Z).
Proof.
  split_and!.
  - intros (d' & log & Hrun & _). apply (f_equal snd) in Hrun.
    vm_compute in Hrun. discriminate.
  - eexists. split; [vm_compute; reflexivity | reflexivity].
  - intros (d' & log & Hrun & Hlog). apply (f_equal (λ x, x.1.2)) in Hrun.
    vm_compute in Hrun. subst log.
    apply Forall_lookup with (i := 8) (x := Fc) in Hlog; [discriminate | reflexivity].
  - vm_compute. reflexivity.
  - vm_compute. apply list_elem_of_lookup. by exists 8.
  - eexists. split; [vm_compute; reflexivity | reflexivity].
  - eexists. split; [vm_compute; reflexivity | reflexivity].
Qed.

(** C8, witness: the states of the batch are left as they were, and the
    result is the same on a batch that holds a field ['z']. *)
Lemma forward_frame_witness :
  (forward Scenario.netC Scenario.data4).1.1 !! "state" = Scenario.data4 !! "state" ∧
  (forward Scenario.netC Scenario.data4).2 = (forward Scenario.netC Scenario.data_reused).2.
Proof.
  destruct (forward_frame Scenario.netA Scenario.netB Scenario.netC Scenario.data4)
    as (_ & _ & Hframe & Hindep).
  split.
  - apply Hframe. discriminate.
  - apply Hindep. intros k Hk. unfold Scenario.data_reused.
    rewrite lookup_insert_ne; [reflexivity|]. intros Heq. apply Hk. by symmetry.
Defined.

(** C8, counterexample: the call adds a field ['z'] to the batch, and
    replaces the one that a batch already has. *)
Lemma forward_changes_batch :
  (forward Scenario.netA Scenario.data4).1.1 ≠ Scenario.data4 ∧
  (forward Scenario.netA Scenario.data_reused).1.1 !! "z" ≠ Scenario.data_reused !! "z".
Proof.
  split.
  - intros Heq. apply (f_equal (λ d : gmap string (value Z), d !! "z")) in Heq.
    vm_compute in Heq. discriminate.
  - vm_compute. discriminate.
Qed.

(** C9, witness: two batches that differ in their labels only. *)
Lemma eval_ignores_treatment_sequence_witness :
  (forward (CEQNetwork_1.eval Scenario.netB) Scenario.data4).2
  = (forward (CEQNetwork_1.eval Scenario.netB) Scenario.data4').2.
Proof.
  destruct (eval_ignores_treatment_sequence Scenario.netA Scenario.netB Scenario.netC
              Scenario.data4 Scenario.data4') as (_ & (HB & _) & _).
  - intros k Hk. unfold Scenario.data4'. rewrite lookup_insert_ne; [reflexivity|].
    intros Heq. apply Hk. by symmetry.
  - exact HB.
Defined.

(** C10, witness: previous action 0 where [action_size = 2]. *)
Lemma SimpleQNetwork_prev_action_precondition_witness :
  ∃ d' log out,
    forward (SimpleQNetwork.train true Scenario.netA) Scenario.data4 = (d', log, Ok out) ∧
    ∃ onehot, d' !! "onehot_prev_action" = Some (VTensor onehot) ∧
              row onehot 0 !! 0 = Some 1%Z ∧ row onehot 0 !! 1 = Some 0%Z.
Proof.
  unfold Scenario.netA.
  destruct (SimpleQNetwork_prev_action_precondition Scenario.theta 4 2 2 2 4 2 true
              Scenario.data4 Scenario.states4 1 [0%Z] [1%Z] Scenario_batch4)
    as [Hin _].
  - reflexivity.
  - reflexivity.
  - destruct Hin as (d' & log & out & y0 & onehot & Hrun & _ & Hoh & _ & _ & _ & Hrow).
    + repeat constructor; lia.
    + split; [|reflexivity]. eexists. split; reflexivity.
    + exists d', log, out. split; [exact Hrun|]. exists onehot. split; [exact Hoh|].
      split; [apply (Hrow 0 0%Z 0) | apply (Hrow 0 0%Z 1)]; (reflexivity || lia).
Defined.

(** * Further properties of the forward computation *)

(** ** The schedule of the sub-module calls *)

Section Schedule.
Context {R : Type} `{Scalar R}.
Implicit Types d : gmap string (value R).

Lemma follows_pure {A} T (m : M R A) :
  (∀ d, ∃ d' r, m d = (d', T, r)) → follows T m.
Proof. intros Hm d. unfold on_schedule. destruct (Hm d) as (d' & r & ->). simpl. done. Qed.

Lemma follows_ret {A} (a : A) : follows [] (mret a : M R A).
Proof. apply follows_pure. intros d. by eexists _, _. Qed.

Lemma follows_lift {A} (r : result A) : follows [] (lift r : M R A).
Proof. apply follows_pure. intros d. by eexists _, _. Qed.

Lemma follows_getitem k : follows [] (getitem (R:=R) k).
Proof. apply follows_pure. intros d. by eexists _, _. Qed.

Lemma follows_setitem k (v : value R) : follows [] (setitem k v).
Proof. apply follows_pure. intros d. by eexists _, _. Qed.

Lemma follows_call_module nm (ms : Sequential R) x : follows [nm] (call_module nm ms x).
Proof. apply follows_pure. intros d. by eexists _, _. Qed.

Lemma follows_bind T1 T2 {A B} (m : M R A) (f : A → M R B) :
  follows T1 m → (∀ a, follows T2 (f a)) → follows (T1 ++ T2) (m ≫= f).
Proof.
  intros Hm Hf d. unfold on_schedule. rewrite bind_run. destruct (Hm d) as [Hp Hok].
  destruct (m d) as [[d1 l1] [a|e]]; simpl in *.
  - rewrite (Hok (ex_intro _ a eq_refl)). destruct (Hf a d1) as [Hp2 Hok2].
    destruct (f a d1) as [[d2 l2] r]; simpl in *. split.
    + by apply prefix_app.
    + intros Hr. by rewrite Hok2.
  - split; [by apply prefix_app_r | by intros [??]].
Qed.

Lemma follows_if T {A} (b : bool) (m1 m2 : M R A) :
  follows T m1 → follows T m2 → follows T (if b then m1 else m2).
Proof. by destruct b. Qed.

Lemma follows_mapM_call nm (ms : Sequential R) (xs : list (tensor R)) :
  follows (replicate (length xs) nm) (mapM (call_module nm ms) xs).
Proof.
  intros d. unfold on_schedule.
  destruct (run_mapM_call nm ms xs d) as (n & Hn & -> & Hok). simpl. split.
  - exists (replicate (length xs - n) nm). rewrite <- replicate_add. f_equal. lia.
  - intros Hr. by rewrite (Hok Hr).
Qed.

End Schedule.

Ltac silent_go :=
  lazymatch goal with
  | |- follows [] (mret _) => apply follows_ret
  | |- follows [] (lift _) => apply follows_lift
  | |- follows [] (getitem _) => apply follows_getitem
  | |- follows [] (setitem _ _) => apply follows_setitem
  | |- follows [] (_ ≫= _) => apply (follows_bind [] []); [silent_go | intros; silent_go]
  | |- follows [] (if _ then _ else _) => apply follows_if; silent_go
  | |- follows [] (match ?p with (_, _) => _ end) => destruct p; silent_go
  | |- follows [] (let _ := _ in _) => cbv zeta; silent_go
  | |- follows [] ?m => let h := head_of m in unfold h; silent_go
  end.

Section ScheduleOfForward.
Context {R : Type} `{Scalar R}.
Implicit Types d : gmap string (value R).

Lemma mapM_length {A B} (f : A → result B) (l : list A) (k : list B) :
  mapM f l = Ok k → length k = length l.
Proof. intros Hk. apply mapM_Ok, Forall2_length in Hk. done. Qed.

(** [AbstractDQN.forward]: the call stops in the encoder stage with the
    batch as it was, or stores the latent tensors and goes on with
    [_forward]. *)
Lemma forward_cases `{AbstractDQN R Net} (self : Net) d :
  (∃ n e, forward self d = (d, replicate n Encoder, Err e) ∧
          match d !! "state" with
          | Some (VTensors states) =>
              n ≤ length states ∧
              mapM (Sequential_forward (encoder self)) states = Err e
          | _ => n = 0
          end) ∨
  (∃ states zs,
     d !! "state" = Some (VTensors states) ∧
     mapM (Sequential_forward (encoder self)) states = Ok zs ∧
     forward self d =
       let '(d2, log2, r) := _forward self (<["z" := VTensors zs]> d) in
       (d2, replicate (length states) Encoder ++ log2, r)).
Proof.
  destruct (d !! "state") as [v|] eqn:Hstate.
  2: { left. exists 0, (KeyError "state"). split; [|done].
       unfold forward. rewrite bind_run. unfold get_tensors. rewrite bind_run.
       unfold getitem. by rewrite Hstate. }
  destruct v as [t|states|t|ts];
    try (left; exists 0, TypeError; split; [|done];
         unfold forward; rewrite bind_run; unfold get_tensors; rewrite bind_run;
         unfold getitem; by rewrite Hstate).
  destruct (run_mapM_call Encoder (encoder self) states d) as (n & Hn & Hrun & Hok).
  destruct (mapM (Sequential_forward (encoder self)) states) as [zs|e] eqn:Hzs.
  - right. exists states, zs. split_and!; [done|done|].
    rewrite (Hok (ex_intro _ zs eq_refl)) in Hrun.
    unfold forward. rewrite bind_run, (run_get_tensors _ _ _ Hstate), bind_run, Hrun.
    rewrite bind_run. simpl.
    by destruct (_forward self (<["z" := VTensors zs]> d)) as [[d2 log2] r].
  - left. exists n, e. split; [|done].
    unfold forward. by rewrite bind_run, (run_get_tensors _ _ _ Hstate), bind_run, Hrun.
Qed.

Lemma SimpleQNetwork__forward_follows (self : SimpleQNetwork.t R) d zs :
  d !! "z" = Some (VTensors zs) →
  let T := replicate (length (slice_last (SimpleQNetwork.step self) zs)) LogitsT ++ [Fc] in
  (SimpleQNetwork._forward self d).1.2 `prefix_of` T ∧
  (is_Ok (SimpleQNetwork._forward self d).2 → (SimpleQNetwork._forward self d).1.2 = T).
Proof.
  intros Hz T. unfold SimpleQNetwork._forward.
  rewrite bind_run, (run_get_tensors _ _ _ Hz). cbv zeta.
  match goal with |- context [match ?m d with _ => _ end] => assert (follows T m) as Hf end.
  { apply follows_bind; [apply follows_mapM_call | intros t].
    apply (follows_bind [] [Fc]); [silent_go | intros z].
    apply (follows_bind [] [Fc]); [silent_go | intros z'].
    apply (follows_bind [Fc] []); [apply follows_call_module | intros y]. silent_go. }
  destruct (Hf d) as [Hp Hok].
  match goal with |- context [match ?m d with _ => _ end] => destruct (m d) as [[d2 l2] r] end.
  done.
Qed.

Lemma CEQNetwork_1__forward_follows (self : CEQNetwork_1.t R) d zs :
  d !! "z" = Some (VTensors zs) →
  let T := replicate (length (slice_last (CEQNetwork_1.step self) zs)) LogitsT ++ [Fc] in
  (CEQNetwork_1._forward self d).1.2 `prefix_of` T ∧
  (is_Ok (CEQNetwork_1._forward self d).2 → (CEQNetwork_1._forward self d).1.2 = T).
Proof.
  intros Hz T. unfold CEQNetwork_1._forward.
  rewrite bind_run, (run_get_tensors _ _ _ Hz). cbv zeta.
  match goal with |- context [match ?m d with _ => _ end] => assert (follows T m) as Hf end.
  { apply follows_bind; [apply follows_mapM_call | intros t].
    do 6 (apply (follows_bind [] [Fc]); [silent_go | intros ?]).
    apply (follows_bind [Fc] []); [apply follows_call_module | intros y]. silent_go. }
  destruct (Hf d) as [Hp Hok].
  match goal with |- context [match ?m d with _ => _ end] => destruct (m d) as [[d2 l2] r] end.
  done.
Qed.

Lemma CEQNetwork_2__forward_follows (self : CEQNetwork_2.t R) d zs :
  d !! "z" = Some (VTensors zs) →
  let T := replicate (length (slice_last (CEQNetwork_2.step self) zs)) LogitsT
           ++ [FcT0; FcT1] in
  (CEQNetwork_2._forward self d).1.2 `prefix_of` T ∧
  (is_Ok (CEQNetwork_2._forward self d).2 → (CEQNetwork_2._forward self d).1.2 = T).
Proof.
  intros Hz T. unfold CEQNetwork_2._forward.
  rewrite bind_run, (run_get_tensors _ _ _ Hz). cbv zeta.
  match goal with |- context [match ?m d with _ => _ end] => assert (follows T m) as Hf end.
  { apply follows_bind; [apply follows_mapM_call | intros t].
    do 3 (apply (follows_bind [] [FcT0; FcT1]); [silent_go | intros ?]).
    apply (follows_bind [] [FcT0; FcT1]); [silent_go | intros [onehot_t t_bernoulli]].
    do 2 (apply (follows_bind [] [FcT0; FcT1]); [silent_go | intros ?]).
    apply (follows_bind [FcT0] [FcT1]); [apply follows_call_module | intros y0].
    apply (follows_bind [] [FcT1]); [silent_go | intros ?].
    apply (follows_bind [FcT1] []); [apply follows_call_module | intros y1]. silent_go. }
  destruct (Hf d) as [Hp Hok].
  match goal with |- context [match ?m d with _ => _ end] => destruct (m d) as [[d2 l2] r] end.
  done.
Qed.

(** From the schedule of [_forward] to the schedule of [forward]. *)
Lemma forward_follows `{AbstractDQN R Net} (self : Net) (step : nat) heads d :
  (∀ zs d1, d1 !! "z" = Some (VTensors zs) →
     let T := replicate (length (slice_last step zs)) LogitsT ++ heads in
     (_forward self d1).1.2 `prefix_of` T ∧
     (is_Ok (_forward self d1).2 → (_forward self d1).1.2 = T)) →
  (forward self d).1.2 `prefix_of` schedule step heads d ∧
  (is_Ok (forward self d).2 → (forward self d).1.2 = schedule step heads d).
Proof.
  intros Hfw. unfold schedule.
  destruct (forward_cases self d) as [(n & e & -> & Hn)|(states & zs & Hstate & Hzs & ->)].
  - simpl. split; [|by intros [??]].
    destruct (d !! "state") as [[t|states|t|ts]|]; try (by subst n).
    destruct Hn as [Hn _]. apply prefix_app_r.
    exists (replicate (length states - n) Encoder). rewrite <- replicate_add. f_equal. lia.
  - rewrite Hstate.
    destruct (Hfw zs (<["z" := VTensors zs]> d) (lookup_insert_eq _ _ _)) as [Hp Hok].
    rewrite !length_slice_last in *. rewrite (mapM_length _ _ _ Hzs) in *.
    destruct (_forward self (<["z" := VTensors zs]> d)) as [[d2 log2] r]. simpl in *.
    split; [by apply prefix_app|]. intros Hr. by rewrite Hok.
Qed.

End ScheduleOfForward.

(** ** The frame of [_forward], and the stages of [forward] *)

Ltac frame_go :=
  lazymatch goal with
  | |- writes_only _ (mret _) => apply writes_only_ret
  | |- writes_only _ (lift _) => apply writes_only_lift
  | |- writes_only _ (call_module _ _ _) => apply writes_only_call_module
  | |- writes_only _ (getitem _) => apply writes_only_getitem
  | |- writes_only _ (setitem _ _) => apply writes_only_setitem; set_solver
  | |- writes_only _ (mapM _ _) => apply writes_only_mapM; intros; frame_go
  | |- writes_only _ (_ ≫= _) => apply writes_only_bind; [frame_go | intros; frame_go]
  | |- writes_only _ (if _ then _ else _) => apply writes_only_if; frame_go
  | |- writes_only _ (match ?p with (_, _) => _ end) => destruct p; frame_go
  | |- writes_only _ (let _ := _ in _) => cbv zeta; frame_go
  | |- writes_only _ ?m => let h := head_of m in unfold h; frame_go
  end.

Section Frames.
Context {R : Type} `{Scalar R}.
Implicit Types d : gmap string (value R).

Lemma SimpleQNetwork__forward_writes_only (self : SimpleQNetwork.t R) :
  writes_only {["onehot_prev_action"]} (SimpleQNetwork._forward self).
Proof. unfold SimpleQNetwork._forward. frame_go. Qed.

Lemma CEQNetwork_1__forward_writes_only (self : CEQNetwork_1.t R) :
  writes_only ∅ (CEQNetwork_1._forward self).
Proof. unfold CEQNetwork_1._forward. frame_go. Qed.

Lemma CEQNetwork_2__forward_writes_only (self : CEQNetwork_2.t R) :
  writes_only ∅ (CEQNetwork_2._forward self).
Proof. unfold CEQNetwork_2._forward. frame_go. Qed.

End Frames.

Section ForwardStages.
Context {R : Type} `{Scalar R}.
Implicit Types d : gmap string (value R).

(** Failures of the encoder stage. A forward call on a batch without the
    field ['state'] raises [KeyError('state')] at once; a call in which the
    encoder raises on some state tensor ends with that exception, after at
    most one encoder call per timestep. In both cases the batch dict is left
    as it was and no other sub-module has been called. *)
Theorem forward_encoder_stage_failure `{AbstractDQN R Net} (self : Net) d :
  (d !! "state" = None → forward self d = (d, [], Err (KeyError "state"))) ∧
  (∀ states e,
     d !! "state" = Some (VTensors states) →
     mapM (Sequential_forward (encoder self)) states = Err e →
     ∃ n, n ≤ length states ∧ forward self d = (d, replicate n Encoder, Err e)).
Proof.
  split.
  - intros Hstate. unfold forward. rewrite bind_run. unfold get_tensors.
    rewrite bind_run. unfold getitem. by rewrite Hstate.
  - intros states e Hstate Hzs.
    destruct (forward_cases self d) as [(n & e' & Hrun & Hn)|(states' & zs & Hstate' & Hzs' & _)].
    + rewrite Hstate in Hn. destruct Hn as [Hn He]. rewrite Hzs in He. injection He as <-.
      by exists n.
    + rewrite Hstate in Hstate'. injection Hstate' as <-. by rewrite Hzs in Hzs'.
Qed.

(** The latent tensors a forward call leaves in the batch. When the encoder
    accepts the states, the batch holds under ['z'], after the call and
    whether [_forward] returned or raised, the latent tensors of all
    timesteps, those before the window included; Variants B and C change
    nothing else. *)
Theorem forward_stores_latents
    (selfA : SimpleQNetwork.t R) (selfB : CEQNetwork_1.t R) (selfC : CEQNetwork_2.t R)
    d (states : list (tensor R)) :
  d !! "state" = Some (VTensors states) →
  (∀ zs, mapM (Sequential_forward (SimpleQNetwork.encoder selfA)) states = Ok zs →
         length zs = length states ∧
         (forward selfA d).1.1 !! "z" = Some (VTensors zs)) ∧
  (∀ zs, mapM (Sequential_forward (CEQNetwork_1.encoder selfB)) states = Ok zs →
         (forward selfB d).1.1 = <["z" := VTensors zs]> d) ∧
  (∀ zs, mapM (Sequential_forward (CEQNetwork_2.encoder selfC)) states = Ok zs →
         (forward selfC d).1.1 = <["z" := VTensors zs]> d).
Proof.
  intros Hstate. split_and!; intros zs Hzs.
  - split; [by eapply mapM_length|].
    destruct (forward_cases selfA d) as [(n & e & _ & Hn)|(states' & zs' & Hstate' & Hzs' & ->)].
    { rewrite Hstate in Hn. destruct Hn as [_ He]. simpl in He. by rewrite Hzs in He. }
    rewrite Hstate in Hstate'. injection Hstate' as <-.
    simpl in Hzs'. rewrite Hzs in Hzs'. injection Hzs' as <-.
    pose proof (SimpleQNetwork__forward_writes_only selfA (<["z" := VTensors zs]> d) "z")
      as Hframe.
    simpl in *. destruct (SimpleQNetwork._forward selfA _) as [[d2 log2] r]. simpl in *.
    rewrite <- Hframe; [apply lookup_insert_eq | set_solver].
  - destruct (forward_cases selfB d) as [(n & e & _ & Hn)|(states' & zs' & Hstate' & Hzs' & ->)].
    { rewrite Hstate in Hn. destruct Hn as [_ He]. simpl in He. by rewrite Hzs in He. }
    rewrite Hstate in Hstate'. injection Hstate' as <-.
    simpl in Hzs'. rewrite Hzs in Hzs'. injection Hzs' as <-.
    pose proof (CEQNetwork_1__forward_writes_only selfB (<["z" := VTensors zs]> d)) as Hframe.
    apply agree_off_empty in Hframe.
    simpl in *. destruct (CEQNetwork_1._forward selfB _) as [[d2 log2] r]. by simpl in *.
  - destruct (forward_cases selfC d) as [(n & e & _ & Hn)|(states' & zs' & Hstate' & Hzs' & ->)].
    { rewrite Hstate in Hn. destruct Hn as [_ He]. simpl in He. by rewrite Hzs in He. }
    rewrite Hstate in Hstate'. injection Hstate' as <-.
    simpl in Hzs'. rewrite Hzs in Hzs'. injection Hzs' as <-.
    pose proof (CEQNetwork_2__forward_writes_only selfC (<["z" := VTensors zs]> d)) as Hframe.
    apply agree_off_empty in Hframe.
    simpl in *. destruct (CEQNetwork_2._forward selfC _) as [[d2 log2] r]. by simpl in *.
Qed.

(** The order of the sub-module calls. On a batch whose field ['state'] is
    absent or a list of tensors, a forward call calls the sub-modules along
    one schedule, whatever the other fields hold: the encoder once per
    timestep of ['state'], then the Treatment Head once per timestep of the
    window [data['z'][-step:]], then the value head [fc] (Variants A and B),
    or [fc_t0] and then [fc_t1] (Variant C). A call that raises has gone
    through a prefix of the schedule; a call that returns has gone through
    all of it, so that every value head has been called exactly once. *)
Theorem forward_call_schedule
    (selfA : SimpleQNetwork.t R) (selfB : CEQNetwork_1.t R) (selfC : CEQNetwork_2.t R) d :
  d !! "state" = None ∨ (∃ states, d !! "state" = Some (VTensors states)) →
  on_schedule (forward selfA) (schedule (SimpleQNetwork.step selfA) [Fc] d) d ∧
  on_schedule (forward selfB) (schedule (CEQNetwork_1.step selfB) [Fc] d) d ∧
  on_schedule (forward selfC) (schedule (CEQNetwork_2.step selfC) [FcT0; FcT1] d) d.
Proof.
  intros _. split_and!.
  - apply forward_follows. intros zs d1. apply SimpleQNetwork__forward_follows.
  - apply forward_follows. intros zs d1. apply CEQNetwork_1__forward_follows.
  - apply forward_follows. intros zs d1. apply CEQNetwork_2__forward_follows.
Qed.

(** An empty list of states. On a batch whose ['state'] is the empty list,
    the forward call of each variant stores the empty list under ['z'] and
    raises at [torch.cat], which rejects an empty list of tensors, before any
    sub-module has been called, whatever the mode and the step. *)
Theorem forward_empty_state_list
    (selfA : SimpleQNetwork.t R) (selfB : CEQNetwork_1.t R) (selfC : CEQNetwork_2.t R) d :
  d !! "state" = Some (VTensors []) →
  forward selfA d = (<["z" := VTensors []]> d, [], Err EmptyTensorList) ∧
  forward selfB d = (<["z" := VTensors []]> d, [], Err EmptyTensorList) ∧
  forward selfC d = (<["z" := VTensors []]> d, [], Err EmptyTensorList).
Proof.
  intros Hstate.
  assert (∀ k, slice_last k ([] : list (tensor R)) = []) as Hslice.
  { intros k. unfold slice_last. by destruct (decide (k = 0)). }
  split_and!; unfold forward;
    (eapply (run_bind _ _ _ _ [] _ _ []); [by apply run_get_tensors|]);
    (eapply (run_bind _ _ _ _ [] _ _ []); [reflexivity|]);
    (eapply (run_bind _ _ _ _ [] _ _ []); [reflexivity|]); simpl.
  - unfold SimpleQNetwork._forward.
    eapply (run_bind _ _ _ _ [] _ _ []); [apply run_get_tensors, lookup_insert_eq|].
    cbv zeta. rewrite Hslice.
    eapply (run_bind _ _ _ _ [] _ _ []); [reflexivity|]. by apply run_bind_Err.
  - unfold CEQNetwork_1._forward.
    eapply (run_bind _ _ _ _ [] _ _ []); [apply run_get_tensors, lookup_insert_eq|].
    cbv zeta. rewrite Hslice.
    eapply (run_bind _ _ _ _ [] _ _ []); [reflexivity|]. by apply run_bind_Err.
  - unfold CEQNetwork_2._forward.
    eapply (run_bind _ _ _ _ [] _ _ []); [apply run_get_tensors, lookup_insert_eq|].
    cbv zeta. rewrite Hslice.
    eapply (run_bind _ _ _ _ [] _ _ []); [reflexivity|]. by apply run_bind_Err.
Qed.

End ForwardStages.

(** ** Missing fields *)

Section Trunk.
Context {R : Type} `{Scalar R}.
Implicit Types d : gmap string (value R).

(** The stages shared by the three variants, on well-formed states: the
    encoder, the Treatment Head on the window, and the window block. *)
Lemma trunk_stage (enc logits_t : Sequential R) state_size fc2_units num_treatment step N
    (states : list (tensor R)) :
  typed enc state_size fc2_units → typed logits_t fc2_units num_treatment →
  states ≠ [] → 0 < N → Forall (shaped N state_size) states →
  ∃ zs t zl tl zc,
    mapM (Sequential_forward enc) states = Ok zs ∧
    Forall (shaped N fc2_units) zs ∧ length zs = length states ∧ zs ≠ [] ∧
    mapM (Sequential_forward logits_t) (slice_last step zs) = Ok t ∧
    Forall (shaped N num_treatment) t ∧ length t = length (slice_last step states) ∧
    t ≠ [] ∧
    last zs = Some zl ∧ Sequential_forward logits_t zl = Ok tl ∧
    last t = Some tl ∧ shaped N num_treatment tl ∧
    cat (slice_last step zs) = Ok zc ∧
    pad_left (Z.of_nat (fc2_units * step) - Z.of_nat (size1 zc)) zc
    = Ok (tab N (window_row fc2_units step zs)).
Proof.
  intros Henc Hlog Hne HN Hshape.
  destruct (mapM_typed _ _ _ N states Henc Hshape) as (zs & Hzs & Hzsh & Hzlen).
  assert (zs ≠ []) as Hzne.
  { intros ->. simpl in Hzlen. symmetry in Hzlen. by apply nil_length_inv in Hzlen. }
  destruct (logits_stage _ _ _ step N zs Hlog Hzne Hzsh)
    as (t & zl & tl & Ht & Htsh & Htlen & Htne & Hzl & Htl & Hlast & Htlsh).
  destruct (cat (slice_last step zs)) as [zc|] eqn:Hcat.
  2: { rewrite (cat_tab N) in Hcat; [done | by apply slice_last_nonempty |].
       apply Forall_slice_last. eapply Forall_impl; [done|]. by intros ? [? _]. }
  exists zs, t, zl, tl, zc. split_and!; try done.
  - by rewrite Htlen, !length_slice_last, Hzlen.
  - by apply (window_block fc2_units step N zs zc).
Qed.

End Trunk.

Section MissingFields.
Context {R : Type} `{Scalar R}.
Variables (θ : params R).
Variables (state_size action_size fc1_units fc2_units step num_treatment : nat).
Implicit Types d : gmap string (value R).

#[local] Abbreviation netA mode :=
  (SimpleQNetwork.train mode
     (SimpleQNetwork.__init__ θ state_size action_size fc1_units fc2_units step num_treatment)).
#[local] Abbreviation netB mode :=
  (CEQNetwork_1.train mode
     (CEQNetwork_1.__init__ θ state_size action_size fc1_units fc2_units step num_treatment)).
#[local] Abbreviation netC mode :=
  (CEQNetwork_2.train mode
     (CEQNetwork_2.__init__ θ state_size action_size fc1_units fc2_units step num_treatment)).

Ltac run_encoder :=
  unfold forward;
  (eapply run_bind; [by apply run_get_tensors|]);
  (eapply run_bind; [by apply run_mapM_call_Ok|]);
  (eapply run_bind; [reflexivity|]).

Ltac run_window :=
  (eapply run_bind; [apply run_get_tensors, lookup_insert_eq|]); cbv zeta;
  (eapply run_bind; [by apply run_mapM_call_Ok|]);
  (eapply run_bind; [by apply run_lift|]);
  (eapply run_bind; [by apply run_lift|]).

(** A batch without ['prev_action'] in Variant A. On well-formed states, in
    either mode, the forward call of [SimpleQNetwork] raises
    [KeyError('prev_action')], but only after the encoder, the Treatment Head
    and the value head [fc] have run, and with the latent tensors left in the
    batch under ['z']. *)
Theorem SimpleQNetwork_missing_prev_action (mode : bool) d (states : list (tensor R))
    (N : nat) :
  batch state_size N d states →
  d !! "prev_action" = None →
  ∃ zs,
    mapM (Sequential_forward (SimpleQNetwork.encoder (netA mode))) states = Ok zs ∧
    forward (netA mode) d =
      (<["z" := VTensors zs]> d,
       replicate (length states) Encoder
       ++ replicate (length (slice_last step states)) LogitsT ++ [Fc],
       Err (KeyError "prev_action")).
Proof.
  intros [Hstate Hne HN Hshape] Hprev.
  destruct (trunk_stage _ _ _ _ _ step N states
              (SimpleQNetwork_encoder_typed θ state_size action_size fc1_units fc2_units
                 step num_treatment mode)
              (SimpleQNetwork_logits_t_typed θ state_size action_size fc1_units fc2_units
                 step num_treatment mode) Hne HN Hshape)
    as (zs & t & zl & tl & zc & Hzs & Hzsh & Hzlen & Hzne & Ht & Htsh & Htlen & Htne
        & Hzl & Htl & Hlast & Htlsh & Hcat & Hpad).
  assert (shaped N (fc2_units * step) (tab N (window_row fc2_units step zs))) as Hwin.
  { apply shaped_tab. intros i Hi. by eapply length_window_row. }
  destruct (Sequential_forward_typed _ _ _ N _
              (SimpleQNetwork_fc_typed θ state_size action_size fc1_units fc2_units
                 step num_treatment mode) Hwin) as (y0 & Hy0 & Hy0sh).
  exists zs. split; [done|].
  assert (∃ log, forward (netA mode) d
                 = (<["z" := VTensors zs]> d, log, Err (KeyError "prev_action")) ∧
                 log = replicate (length states) Encoder
                       ++ replicate (length (slice_last step states)) LogitsT ++ [Fc])
    as (log & -> & ->); [|done].
  eexists. split.
  - run_encoder. change (_forward ?n) with (SimpleQNetwork._forward n).
    unfold SimpleQNetwork._forward. run_window.
    eapply run_bind; [by apply run_call_module|].
    apply run_bind_Err. unfold get_long. apply run_bind_Err.
    unfold getitem. by rewrite lookup_insert_ne, Hprev.
  - simpl. by rewrite !length_slice_last, Hzlen.
Qed.

(** A batch without labels in training mode. On well-formed states, in
    training mode, the forward call of each variant raises [KeyError('t')].
    Variant A raises only after the value head [fc] has run and the one-hot
    buffer of the previous actions has been stored in the batch; Variants B
    and C raise before any value head is called. *)
Theorem training_requires_labels d (states : list (tensor R)) (N : nat) (acts : list Z) :
  batch state_size N d states →
  d !! "t" = None →
  ∃ zs,
    mapM (Sequential_forward (AbstractDQN_init θ state_size fc1_units fc2_units)) states
    = Ok zs ∧
    (prev_action_ok action_size N d acts →
     forward (netA true) d =
       (<["onehot_prev_action" :=
            VTensor (map (λ a, one_hot action_size (Z.to_nat a)) acts)]>
          (<["z" := VTensors zs]> d),
        replicate (length states) Encoder
        ++ replicate (length (slice_last step states)) LogitsT ++ [Fc],
        Err (KeyError "t"))) ∧
    forward (netB true) d =
      (<["z" := VTensors zs]> d,
       replicate (length states) Encoder
       ++ replicate (length (slice_last step states)) LogitsT,
       Err (KeyError "t")) ∧
    forward (netC true) d =
      (<["z" := VTensors zs]> d,
       replicate (length states) Encoder
       ++ replicate (length (slice_last step states)) LogitsT,
       Err (KeyError "t")).
Proof.
  intros [Hstate Hne HN Hshape] Hlabels.
  destruct (trunk_stage _ _ _ _ _ step N states
              (AbstractDQN_init_typed θ state_size fc1_units fc2_units)
              (SimpleQNetwork_logits_t_typed θ state_size action_size fc1_units fc2_units
                 step num_treatment true) Hne HN Hshape)
    as (zs & t & zl & tl & zc & Hzs & Hzsh & Hzlen & Hzne & Ht & Htsh & Htlen & Htne
        & Hzl & Htl & Hlast & Htlsh & Hcat & Hpad).
  exists zs. split; [done|]. split_and!.
  - intros [Hprev Hacts Hrange].
    assert (shaped N (fc2_units * step) (tab N (window_row fc2_units step zs))) as Hwin.
    { apply shaped_tab. intros i Hi. by eapply length_window_row. }
    destruct (Sequential_forward_typed _ _ _ N _
                (SimpleQNetwork_fc_typed θ state_size action_size fc1_units fc2_units
                   step num_treatment true) Hwin) as (y0 & Hy0 & Hy0sh).
    match goal with |- ?m d = (?d', ?T, ?r) =>
      assert (∃ log, m d = (d', log, r) ∧ log = T) as (log & -> & ->); [|done] end.
    eexists. split.
    + run_encoder. change (_forward ?n) with (SimpleQNetwork._forward n).
      unfold SimpleQNetwork._forward. run_window.
      eapply run_bind; [by apply run_call_module|].
      eapply run_bind; [apply run_get_long; by rewrite lookup_insert_ne|].
      eapply run_bind;
        [apply run_lift; rewrite (zeros_like_shaped N action_size) by done;
         rewrite <- Hacts; by apply scatter1_one_hot|].
      eapply run_bind; [reflexivity|]. simpl.
      apply run_bind_Err. apply run_bind_Err. unfold get_longs. apply run_bind_Err.
      unfold getitem. by rewrite !lookup_insert_ne, Hlabels.
    + simpl. by rewrite !length_slice_last, Hzlen.
  - match goal with |- ?m d = (?d', ?T, ?r) =>
      assert (∃ log, m d = (d', log, r) ∧ log = T) as (log & -> & ->); [|done] end.
    eexists. split.
    + run_encoder. change (_forward ?n) with (CEQNetwork_1._forward n).
      unfold CEQNetwork_1._forward. run_window.
      eapply run_bind; [apply run_lift; by apply (stack1_tab N num_treatment)|]. simpl.
      apply run_bind_Err. unfold onehot_truth. apply run_bind_Err.
      unfold get_longs. apply run_bind_Err.
      unfold getitem. by rewrite !lookup_insert_ne, Hlabels.
    + simpl. by rewrite !app_nil_r, !length_slice_last, Hzlen.
  - match goal with |- ?m d = (?d', ?T, ?r) =>
      assert (∃ log, m d = (d', log, r) ∧ log = T) as (log & -> & ->); [|done] end.
    eexists. split.
    + run_encoder. change (_forward ?n) with (CEQNetwork_2._forward n).
      unfold CEQNetwork_2._forward. run_window.
      eapply run_bind; [apply run_lift; by apply (stack1_tab N num_treatment)|]. simpl.
      apply run_bind_Err. apply run_bind_Err. unfold onehot_truth. apply run_bind_Err.
      unfold get_longs. apply run_bind_Err.
      unfold getitem. by rewrite !lookup_insert_ne, Hlabels.
    + simpl. by rewrite !app_nil_r, !length_slice_last, Hzlen.
Qed.

End MissingFields.

(** ** Outputs on well-formed batches *)

Section Outputs.
Context {R : Type} `{Scalar R}.
Implicit Types d : gmap string (value R).

Lemma labels_ok_positive num_treatment N L d labs :
  labels_ok (R:=R) num_treatment N L d labs → 0 < N → 0 < L → 0 < num_treatment.
Proof.
  intros [_ Hal Hr] HN HL. destruct labs as [|col labs]; [simpl in Hal; lia|].
  inversion Hr as [|?? [Hc Hin] _]; subst. destruct col as [|k col]; [simpl in HN; lia|].
  inversion Hin; subst. lia.
Qed.

Lemma length_blend_row (k : Z) (y1 y0 : list R) w :
  length y1 = w → length y0 = w → length (blend_row k y1 y0) = w.
Proof. intros H1 H0. unfold blend_row. rewrite length_zip_with, !length_map. lia. Qed.

(** The shapes of the outputs. On a well-formed batch of [N] samples, in
    either mode, the forward call of each variant returns treatment logits of
    shape [N × num_treatment], action values of shape [N × action_size] and a
    window block of shape [N × (fc2_units * step)], whatever the number of
    timesteps of the batch. *)
Theorem forward_output_shapes (θ : params R)
    (state_size action_size fc1_units fc2_units step num_treatment : nat) (mode : bool)
    d (states : list (tensor R)) (N : nat) (acts labels : list Z) (labs : list (list Z)) :
  let netA := SimpleQNetwork.train mode
                (SimpleQNetwork.__init__ θ state_size action_size fc1_units fc2_units
                   step num_treatment) in
  let netB := CEQNetwork_1.train mode
                (CEQNetwork_1.__init__ θ state_size action_size fc1_units fc2_units
                   step num_treatment) in
  let netC := CEQNetwork_2.train mode
                (CEQNetwork_2.__init__ θ state_size action_size fc1_units fc2_units
                   step num_treatment) in
  let well_shaped (out : Out R) :=
    shaped N num_treatment (out_t out) ∧ shaped N action_size (out_y out) ∧
    shaped N (fc2_units * step) (out_z out) in
  batch state_size N d states →
  (prev_action_ok action_size N d acts →
   (if mode then latest_labels N d labels else 0 < num_treatment) →
   ∃ d' log out, forward netA d = (d', log, Ok out) ∧ well_shaped out) ∧
  ((if mode then labels_ok num_treatment N (length states) d labs
    else 0 < num_treatment) →
   (∃ d' log out, forward netB d = (d', log, Ok out) ∧ well_shaped out) ∧
   (∃ d' log out, forward netC d = (d', log, Ok out) ∧ well_shaped out)).
Proof.
  intros netA netB netC well_shaped Hbatch. unfold well_shaped. clear well_shaped.
  assert (∀ zs : list (tensor R), Forall (shaped N fc2_units) zs →
            shaped N (fc2_units * step) (tab N (window_row fc2_units step zs))) as Hwin.
  { intros zs Hzs. apply shaped_tab. intros i Hi. by eapply length_window_row. }
  split.
  - intros Hprev Hmode.
    destruct (SimpleQNetwork_forward_run θ state_size action_size fc1_units fc2_units step
                num_treatment mode d states N acts labels Hbatch Hprev Hmode)
      as (zs & zl & tl & y0 & log & _ & Hzsh & _ & _ & _ & Htl & _ & Hy0sh & Hrun).
    cbv zeta in Hrun. eexists _, log, _. split; [exact Hrun|]. simpl.
    split_and!; [done| |by apply Hwin].
    apply shaped_tab. intros i Hi. destruct (decide _).
    + apply length_one_hot.
    + by eapply shaped_row.
  - intros Hmode. split.
    + destruct (CEQNetwork_1_forward_run θ state_size action_size fc1_units fc2_units step
                  num_treatment mode d states N labs Hbatch Hmode)
        as (zs & zl & tl & t & y & log & _ & Hzsh & _ & _ & _ & Htl & _ & _ & _ & Hysh
            & Hrun).
      eexists _, log, _. split; [exact Hrun|]. simpl. split_and!; [done|done|by apply Hwin].
    + destruct (CEQNetwork_2_forward_run θ state_size action_size fc1_units fc2_units step
                  num_treatment mode d states N labs Hbatch Hmode)
        as (zs & zl & tl & t & y0 & y1 & log & _ & Hzsh & _ & _ & _ & Htl & _ & _
            & _ & _ & Hy0sh & Hy1sh & Hrun).
      cbv zeta in Hrun. eexists _, log, _. split; [exact Hrun|]. simpl.
      split_and!; [done| |by apply Hwin].
      apply shaped_tab. intros i Hi.
      apply length_blend_row; by eapply shaped_row.
Qed.

(** The shared trunk. On a batch that is well formed for the three variants
    (states, previous actions and labels), networks built from the same
    parameters return the same treatment logits and the same window block,
    whichever the variant and whichever the mode: only the action values
    depend on them. *)
Theorem forward_shared_trunk (θ : params R)
    (state_size action_size fc1_units fc2_units step num_treatment : nat)
    d (states : list (tensor R)) (N : nat) (acts : list Z) (labs : list (list Z)) :
  batch state_size N d states →
  prev_action_ok action_size N d acts →
  labels_ok num_treatment N (length states) d labs →
  ∃ treatment_logits window_block,
    ∀ mode : bool,
      let returns {Net} `{AbstractDQN R Net} (self : Net) :=
        ∃ d' log out, forward self d = (d', log, Ok out) ∧
                      out_t out = treatment_logits ∧ out_z out = window_block in
      returns (SimpleQNetwork.train mode
                 (SimpleQNetwork.__init__ θ state_size action_size fc1_units fc2_units
                    step num_treatment)) ∧
      returns (CEQNetwork_1.train mode
                 (CEQNetwork_1.__init__ θ state_size action_size fc1_units fc2_units
                    step num_treatment)) ∧
      returns (CEQNetwork_2.train mode
                 (CEQNetwork_2.__init__ θ state_size action_size fc1_units fc2_units
                    step num_treatment)).
Proof.
  intros Hbatch Hprev Hlabels.
  assert (0 < length states) as HL.
  { destruct Hbatch as [_ Hne _ _]. destruct states; simpl; [done|lia]. }
  assert (0 < num_treatment) as Hnt.
  { eapply labels_ok_positive; [done | apply Hbatch | done]. }
  pose proof (labels_ok_latest _ _ _ _ _ Hlabels HL) as Hlatest.
  destruct (trunk_stage _ _ state_size fc2_units num_treatment step N states
              (AbstractDQN_init_typed θ state_size fc1_units fc2_units)
              (SimpleQNetwork_logits_t_typed θ state_size action_size fc1_units fc2_units
                 step num_treatment true)
              (batch_nonempty _ _ _ _ Hbatch) (batch_size _ _ _ _ Hbatch)
              (batch_shaped _ _ _ _ Hbatch))
    as (zs & t & zl & tl & zc & Hzs & _ & _ & _ & _ & _ & _ & _ & Hzl & Htl & _).
  exists tl, (tab N (window_row fc2_units step zs)). intros mode returns.
  unfold returns. clear returns.
  assert (if mode then latest_labels N d (default [] (last labs)) else 0 < num_treatment)
    as HmodeA by by destruct mode.
  assert (if mode then labels_ok num_treatment N (length states) d labs
          else 0 < num_treatment) as Hmode by by destruct mode.
  split_and!.
  - destruct (SimpleQNetwork_forward_run θ state_size action_size fc1_units fc2_units step
                num_treatment mode d states N acts _ Hbatch Hprev HmodeA)
      as (zs' & zl' & tl' & y0 & log & Hzs' & _ & _ & Hzl' & Htl' & _ & _ & _ & Hrun).
    cbv zeta in Hrun.
    assert (Ok zs' = Ok zs) as [= ->] by (rewrite <- Hzs'; exact Hzs).
    assert (zl' = zl) as -> by congruence.
    assert (Ok tl' = Ok tl) as [= ->] by (rewrite <- Htl'; exact Htl).
    eexists _, log, _. split; [exact Hrun|]. done.
  - destruct (CEQNetwork_1_forward_run θ state_size action_size fc1_units fc2_units step
                num_treatment mode d states N labs Hbatch Hmode)
      as (zs' & zl' & tl' & t' & y & log & Hzs' & _ & _ & Hzl' & Htl' & _ & _ & _ & _ & _
          & Hrun).
    assert (Ok zs' = Ok zs) as [= ->] by (rewrite <- Hzs'; exact Hzs).
    assert (zl' = zl) as -> by congruence.
    assert (Ok tl' = Ok tl) as [= ->] by (rewrite <- Htl'; exact Htl).
    eexists _, log, _. split; [exact Hrun|]. done.
  - destruct (CEQNetwork_2_forward_run θ state_size action_size fc1_units fc2_units step
                num_treatment mode d states N labs Hbatch Hmode)
      as (zs' & zl' & tl' & t' & y0 & y1 & log & Hzs' & _ & _ & Hzl' & Htl' & _ & _ & _
          & _ & _ & _ & _ & Hrun).
    cbv zeta in Hrun.
    assert (Ok zs' = Ok zs) as [= ->] by (rewrite <- Hzs'; exact Hzs).
    assert (zl' = zl) as -> by congruence.
    assert (Ok tl' = Ok tl) as [= ->] by (rewrite <- Htl'; exact Htl).
    eexists _, log, _. split; [exact Hrun|]. done.
Qed.

(** Two treatment classes: the combination selects. With
    [num_treatment ≤ 2], on a well-formed batch and in either mode, every row
    of the action values of Variant C for which the entries of the rows of
    both heads are regular (finite, in IEEE arithmetic) is the row of one of
    the two heads: the row of [fc_t0] or the row of [fc_t1], never a mixture
    of them. *)
Theorem CEQNetwork_2_selects_a_head `{!ScalarUnits R} (θ : params R)
    (state_size action_size fc1_units fc2_units step num_treatment : nat) (mode : bool)
    d (states : list (tensor R)) (N : nat) (labs : list (list Z)) :
  let net := CEQNetwork_2.train mode
               (CEQNetwork_2.__init__ θ state_size action_size fc1_units fc2_units
                  step num_treatment) in
  batch state_size N d states →
  (if mode then labels_ok num_treatment N (length states) d labs else 0 < num_treatment) →
  num_treatment ≤ 2 →
  ∃ d' log out zs t y_t0 y_t1,
    forward net d = (d', log, Ok out) ∧
    mapM (Sequential_forward (CEQNetwork_2.encoder net)) states = Ok zs ∧
    mapM (Sequential_forward (CEQNetwork_2.logits_t net)) (drop (length zs - step) zs)
    = Ok t ∧
    shaped N (fc2_units * step) (out_z out) ∧
    (let x := zip_with app (out_z out)
                (tab N (λ i, treatment_row num_treatment step (length states)
                               (window_classes_at mode step labs t i))) in
     Sequential_forward (CEQNetwork_2.fc_t0 net) x = Ok y_t0 ∧
     Sequential_forward (CEQNetwork_2.fc_t1 net) x = Ok y_t1) ∧
    length (out_y out) = N ∧
    ∀ i, i < N →
      Forall regular (row y_t0 i) → Forall regular (row y_t1 i) →
      out_y out !! i = y_t0 !! i ∨ out_y out !! i = y_t1 !! i.
Proof.
  intros net Hbatch Hmode Hnt.
  destruct (CEQNetwork_2_forward_run θ state_size action_size fc1_units fc2_units step
              num_treatment mode d states N labs Hbatch Hmode)
    as (zs & zl & tl & t & y0 & y1 & log & Hzs & Hzsh & Hzlen & _ & _ & Htlsh & Ht & _
        & Hy0 & Hy1 & Hy0sh & Hy1sh & Hrun).
  cbv zeta in Hrun.
  eexists _, log, _, zs, t, y0, y1.
  split; [exact Hrun|]. cbn [out_y out_z out_t]. rewrite zip_with_tab, <- Hzlen.
  split_and!; [done|done| |done|done|apply tab_length|].
  { apply shaped_tab. intros i Hi. by eapply length_window_row. }
  intros i Hi Hr0 Hr1. rewrite tab_lookup by done.
  destruct (lookup_lt_is_Some_2 y0 i) as [h0 Hh0]; [rewrite (proj1 Hy0sh); lia|].
  destruct (lookup_lt_is_Some_2 y1 i) as [h1 Hh1]; [rewrite (proj1 Hy1sh); lia|].
  assert (length h1 = length h0) as Hlen.
  { rewrite (proj1 (Forall_lookup _ _) (proj2 Hy0sh) _ _ Hh0).
    by rewrite (proj1 (Forall_lookup _ _) (proj2 Hy1sh) _ _ Hh1). }
  unfold row in *. rewrite Hh0, Hh1 in *. simpl in Hr0, Hr1. simpl.
  assert (0 ≤ default 0 ((if mode then default [] (last labs)
                          else map (λ r, Z.of_nat (topk_index r)) tl) !! i) < 2)%Z as Hk.
  { destruct mode.
    - destruct Hmode as [_ Hal Hr].
      destruct (last labs) as [col|] eqn:Hcol; simpl; [|rewrite ?lookup_nil; simpl; lia].
      pose proof (last_Forall _ _ _ Hr Hcol) as [_ Hin]. simpl in Hin.
      destruct (col !! i) as [k|] eqn:Hki; simpl; [|lia].
      pose proof (proj1 (Forall_lookup _ _) Hin _ _ Hki) as Hrange. simpl in Hrange. lia.
    - rewrite list_lookup_fmap.
      destruct (tl !! i) as [r|] eqn:Hr; simpl; [|lia].
      pose proof (proj1 (Forall_lookup _ _) (proj2 Htlsh) _ _ Hr) as Hrl. simpl in Hrl.
      pose proof (topk_index_lt r) as Hlt. rewrite Hrl in Hlt.
      assert (topk_index r < num_treatment) by (apply Hlt; intros ->; simpl in Hrl; lia).
      lia. }
  destruct (decide (default 0%Z ((if mode then default [] (last labs)
                          else map (λ r, Z.of_nat (topk_index r)) tl) !! i) = 0%Z)) as [->|Hne].
  - left. f_equal. by apply blend_row_0.
  - right. f_equal.
    replace (default 0%Z ((if mode then default [] (last labs)
                          else map (λ r, Z.of_nat (topk_index r)) tl) !! i)) with 1%Z by lia.
    by apply blend_row_1.
Qed.

(** A single treatment class. With [num_treatment = 1], the class predicted
    in evaluation mode is always 0: on a well-formed batch Variant A returns
    the output of its value head [fc] with no row overridden, and Variant C
    applies both heads to the window block followed by the one-hot block of
    class 0 and returns the row of [fc_t0] for every sample for which the
    entries of the rows of both heads are regular (finite, in IEEE
    arithmetic). *)
Theorem eval_single_treatment_class `{!ScalarUnits R} (θ : params R)
    (state_size action_size fc1_units fc2_units step : nat)
    d (states : list (tensor R)) (N : nat) (acts : list Z) :
  let netA := SimpleQNetwork.eval
                (SimpleQNetwork.__init__ θ state_size action_size fc1_units fc2_units
                   step 1) in
  let netC := CEQNetwork_2.eval
                (CEQNetwork_2.__init__ θ state_size action_size fc1_units fc2_units
                   step 1) in
  batch state_size N d states →
  (prev_action_ok action_size N d acts →
   ∃ d' log out,
     forward netA d = (d', log, Ok out) ∧
     shaped N (fc2_units * step) (out_z out) ∧
     Sequential_forward (SimpleQNetwork.fc netA) (out_z out) = Ok (out_y out)) ∧
  (∃ d' log out y_t0 y_t1,
     forward netC d = (d', log, Ok out) ∧
     shaped N (fc2_units * step) (out_z out) ∧
     (let x := zip_with app (out_z out)
                 (replicate N (treatment_row 1 step (length states)
                                 (replicate (length states - (length states - step)) 0%Z))) in
      Sequential_forward (CEQNetwork_2.fc_t0 netC) x = Ok y_t0 ∧
      Sequential_forward (CEQNetwork_2.fc_t1 netC) x = Ok y_t1) ∧
     length (out_y out) = N ∧
     ∀ i, i < N →
       Forall regular (row y_t0 i) → Forall regular (row y_t1 i) →
       out_y out !! i = y_t0 !! i).
Proof.
  intros netA netC Hbatch. subst netA netC. unfold SimpleQNetwork.eval, CEQNetwork_2.eval.
  assert (∀ r : list R, length r = 1 → Z.of_nat (topk_index r) = 0%Z) as Hone.
  { intros r Hrl. pose proof (topk_index_lt r) as Hlt. rewrite Hrl in Hlt.
    assert (topk_index r < 1) by (apply Hlt; intros ->; simpl in Hrl; lia). lia. }
  assert (∀ (tl : tensor R) i, shaped N 1 tl → i < N →
            default 0%Z (map (λ r, Z.of_nat (topk_index r)) tl !! i) = 0%Z) as Hzero.
  { intros tl i Htl Hi. rewrite list_lookup_fmap.
    destruct (tl !! i) as [r|] eqn:Hr; simpl; [|done].
    apply Hone. by apply (proj1 (Forall_lookup _ _) (proj2 Htl) _ _ Hr). }
  assert (∀ zs : list (tensor R),
            shaped N (fc2_units * step) (tab N (window_row fc2_units step zs)) ∨
            ¬ Forall (shaped N fc2_units) zs) as Hwin.
  { intros zs. destruct (decide (Forall (shaped N fc2_units) zs)) as [Hz|Hz]; [left|by right].
    apply shaped_tab. intros i Hi. by eapply length_window_row. }
  split.
  - intros Hprev.
    destruct (SimpleQNetwork_forward_run θ state_size action_size fc1_units fc2_units step
                1 false d states N acts [] Hbatch Hprev)
      as (zs & zl & tl & y0 & log & _ & Hzsh & _ & _ & _ & Htl & Hy0 & Hy0sh & Hrun); [lia|].
    cbv zeta in Hrun. eexists _, log, _. split; [exact Hrun|]. cbn [out_y out_z].
    split; [by destruct (Hwin zs)|].
    rewrite Hy0. f_equal. rewrite (shaped_tab_rows N action_size y0 Hy0sh) at 1.
    apply tab_ext. intros i Hi. rewrite Hzero by done. by rewrite decide_False.
  - destruct (CEQNetwork_2_forward_run θ state_size action_size fc1_units fc2_units step
                1 false d states N [] Hbatch)
      as (zs & zl & tl & t & y0 & y1 & log & _ & Hzsh & Hzlen & _ & _ & Htl & Ht & Htsh
          & Hy0 & Hy1 & Hy0sh & Hy1sh & Hrun); [lia|].
    cbv zeta in Hrun.
    eexists _, log, _, y0, y1.
    split; [exact Hrun|]. cbn [out_y out_z].
    assert (replicate N (treatment_row 1 step (length states)
                           (replicate (length states - (length states - step)) 0%Z))
            = tab N (λ i, treatment_row 1 step (length zs)
                            (window_classes_at false step [] t i)) :> tensor R) as ->.
    { apply list_eq. intros i. destruct (decide (i < N)) as [Hi|Hi].
      2: { rewrite !lookup_ge_None_2; [done | rewrite tab_length; lia
                                       | rewrite length_replicate; lia]. }
      rewrite lookup_replicate_2, tab_lookup by done.
      rewrite Hzlen. do 2 f_equal. unfold window_classes_at, predicted_at.
      apply list_eq. intros n. rewrite list_lookup_fmap.
      apply mapM_Ok, Forall2_length in Ht. rewrite length_drop, Hzlen in Ht.
      destruct (decide (n < length states - (length states - step))) as [Hn|Hn].
      - rewrite lookup_replicate_2 by done.
        destruct (lookup_lt_is_Some_2 (rows_at i t) n) as [r Hr].
        { unfold rows_at. rewrite length_map. lia. }
        rewrite Hr. simpl. f_equal. symmetry. apply Hone.
        pose proof (rows_at_shaped N 1 t i Htsh Hi) as [_ Hall].
        by apply (proj1 (Forall_lookup _ _) Hall _ _ Hr).
      - rewrite !lookup_ge_None_2; [done | | rewrite length_replicate; lia].
        unfold rows_at. rewrite length_map. lia. }
    rewrite zip_with_tab.
    split_and!; [by destruct (Hwin zs)|done|done|apply tab_length|].
    intros i Hi Hr0 Hr1. rewrite tab_lookup by done. rewrite Hzero by done.
    rewrite blend_row_0; try done.
    + unfold row. destruct (lookup_lt_is_Some_2 y0 i) as [h0 Hh0]; [|by rewrite Hh0].
      rewrite (proj1 Hy0sh). lia.
    + by rewrite (shaped_row N action_size y1 i), (shaped_row N action_size y0 i).
Qed.

(** An empty window. With [step = 0] the slice [data['z'][-0:]] is the whole
    list, so that the Treatment Head runs on every timestep, but the padding
    of negative width removes every latent entry: on a well-formed batch the
    forward call returns, the rows of the window block are empty, and the
    value head of Variants A and B is applied to [N] empty rows, so that its
    output does not depend on the states. *)
Theorem forward_step_zero (θ : params R)
    (state_size action_size fc1_units fc2_units num_treatment : nat) (mode : bool)
    d (states : list (tensor R)) (N : nat) (acts labels : list Z) (labs : list (list Z)) :
  let netA := SimpleQNetwork.train mode
                (SimpleQNetwork.__init__ θ state_size action_size fc1_units fc2_units
                   0 num_treatment) in
  let netB := CEQNetwork_1.train mode
                (CEQNetwork_1.__init__ θ state_size action_size fc1_units fc2_units
                   0 num_treatment) in
  batch state_size N d states →
  (prev_action_ok action_size N d acts →
   (if mode then latest_labels N d labels else 0 < num_treatment) →
   ∃ d' out y0,
     forward netA d
     = (d', replicate (length states) Encoder ++ replicate (length states) LogitsT ++ [Fc],
        Ok out) ∧
     out_z out = replicate N [] ∧
     Sequential_forward (SimpleQNetwork.fc netA) (replicate N []) = Ok y0) ∧
  ((if mode then labels_ok num_treatment N (length states) d labs
    else 0 < num_treatment) →
   ∃ d' out,
     forward netB d
     = (d', replicate (length states) Encoder ++ replicate (length states) LogitsT ++ [Fc],
        Ok out) ∧
     out_z out = replicate N [] ∧
     Sequential_forward (CEQNetwork_1.fc netB) (replicate N []) = Ok (out_y out)).
Proof.
  intros netA netB Hbatch. subst netA netB.
  assert (∀ zs : list (tensor R), tab N (window_row fc2_units 0 zs) = replicate N [])
    as Hwin.
  { intros zs. apply list_eq. intros i. destruct (decide (i < N)) as [Hi|Hi].
    - rewrite tab_lookup, lookup_replicate_2 by done. f_equal. unfold window_row.
      by rewrite Nat.sub_0_r, drop_all, Nat.mul_0_r.
    - rewrite !lookup_ge_None_2; [done | rewrite length_replicate; lia
                                  | rewrite tab_length; lia]. }
  assert (schedule 0 [Fc] d = replicate (length states) Encoder
                               ++ replicate (length states) LogitsT ++ [Fc]) as Hsched.
  { unfold schedule. by rewrite (batch_state _ _ _ _ Hbatch). }
  split.
  - intros Hprev Hmode.
    destruct (SimpleQNetwork_forward_run θ state_size action_size fc1_units fc2_units 0
                num_treatment mode d states N acts labels Hbatch Hprev Hmode)
      as (zs & zl & tl & y0 & log & _ & _ & _ & _ & _ & _ & Hy0 & _ & Hrun).
    cbv zeta in Hrun. rewrite Hwin in Hrun, Hy0.
    set (net := SimpleQNetwork.train mode _) in *.
    assert (on_schedule (forward net) (schedule 0 [Fc] d) d) as [_ Hlog].
    { apply (forward_follows net (SimpleQNetwork.step net)). intros zs' d1.
      apply SimpleQNetwork__forward_follows. }
    rewrite Hrun, Hsched in Hlog. simpl in Hlog.
    rewrite (Hlog (ex_intro _ _ eq_refl)) in Hrun.
    eexists _, _, y0. split_and!; [exact Hrun|reflexivity|done].
  - intros Hmode.
    destruct (CEQNetwork_1_forward_run θ state_size action_size fc1_units fc2_units 0
                num_treatment mode d states N labs Hbatch Hmode)
      as (zs & zl & tl & t & y & log & _ & _ & _ & _ & _ & _ & Ht & _ & Hy & _ & Hrun).
    rewrite Hwin in Hrun.
    assert (tab N (λ i, joint_row fc2_units num_treatment 0 zs
                          (window_classes_at mode 0 labs t i) i) = replicate N []) as Hx.
    { rewrite Nat.sub_0_r, drop_all in Ht. simpl in Ht. injection Ht as <-.
      apply list_eq. intros i. destruct (decide (i < N)) as [Hi|Hi].
      - rewrite tab_lookup, lookup_replicate_2 by done. f_equal.
        unfold joint_row, window_row, treatment_row, window_classes_at, labels_at,
          predicted_at.
        rewrite !Nat.sub_0_r, !drop_all, !Nat.mul_0_r. by destruct mode.
      - rewrite !lookup_ge_None_2; [done | rewrite length_replicate; lia
                                    | rewrite tab_length; lia]. }
    rewrite Hx in Hy.
    set (net := CEQNetwork_1.train mode _) in *.
    assert (on_schedule (forward net) (schedule 0 [Fc] d) d) as [_ Hlog].
    { apply (forward_follows net (CEQNetwork_1.step net)). intros zs' d1.
      apply CEQNetwork_1__forward_follows. }
    rewrite Hrun, Hsched in Hlog. simpl in Hlog.
    rewrite (Hlog (ex_intro _ _ eq_refl)) in Hrun.
    eexists _, _. split_and!; [exact Hrun|reflexivity|done].
Qed.

End Outputs.

(** ** The window of the history *)

Section WindowOnly.
Context {R : Type} `{Scalar R}.
Implicit Types d : gmap string (value R).

Lemma mapM_slice_last {A B} (f : A → result B) k (l : list A) (l' : list B) :
  mapM f l = Ok l' → mapM f (slice_last k l) = Ok (slice_last k l').
Proof.
  intros Hl. pose proof (mapM_length _ _ _ Hl) as Hlen.
  rewrite !slice_last_drop, Hlen. apply mapM_Ok. apply Forall2_drop. by apply mapM_Ok.
Qed.

(** Two sequences with the same window have the same number of missing
    timesteps and the same last [step] items. *)
Lemma slice_last_eq {A} k (l1 l2 : list A) :
  slice_last k l1 = slice_last k l2 →
  k - length l1 = k - length l2 ∧
  drop (length l1 - k) l1 = drop (length l2 - k) l2 ∧
  last l1 = last l2.
Proof.
  intros Heq. pose proof (f_equal length Heq) as Hlen.
  rewrite !length_slice_last in Hlen.
  pose proof (last_slice_last k l1) as H1. pose proof (last_slice_last k l2) as H2.
  rewrite Heq, H2 in H1. rewrite !slice_last_drop in Heq.
  destruct (decide (k = 0)) as [->|Hk].
  - rewrite !drop_0 in Heq. by subst l1.
  - split_and!; [lia|done|done].
Qed.

(** Only the window matters. In evaluation mode, two well-formed batches
    whose state sequences have the same last [step] timesteps
    ([state[-step:]]), and the same previous actions for Variant A, give the
    same outputs: the timesteps before the window have no influence on the
    treatment logits, the action values or the window block. *)
Theorem eval_depends_on_window_only (θ : params R)
    (state_size action_size fc1_units fc2_units step num_treatment : nat)
    d1 d2 (states1 states2 : list (tensor R)) (N : nat) (acts : list Z) :
  let netA := SimpleQNetwork.eval
                (SimpleQNetwork.__init__ θ state_size action_size fc1_units fc2_units
                   step num_treatment) in
  let netB := CEQNetwork_1.eval
                (CEQNetwork_1.__init__ θ state_size action_size fc1_units fc2_units
                   step num_treatment) in
  let netC := CEQNetwork_2.eval
                (CEQNetwork_2.__init__ θ state_size action_size fc1_units fc2_units
                   step num_treatment) in
  batch state_size N d1 states1 → batch state_size N d2 states2 →
  slice_last step states1 = slice_last step states2 →
  0 < num_treatment →
  (prev_action_ok action_size N d1 acts → prev_action_ok action_size N d2 acts →
   ∃ out, (forward netA d1).2 = Ok out ∧ (forward netA d2).2 = Ok out) ∧
  (∃ out, (forward netB d1).2 = Ok out ∧ (forward netB d2).2 = Ok out) ∧
  (∃ out, (forward netC d1).2 = Ok out ∧ (forward netC d2).2 = Ok out).
Proof.
  intros netA netB netC Hb1 Hb2 Hwin Hnt.
  assert (∀ (enc : Sequential R) zs1 zs2,
            mapM (Sequential_forward enc) states1 = Ok zs1 →
            mapM (Sequential_forward enc) states2 = Ok zs2 →
            step - length zs1 = step - length zs2 ∧
            drop (length zs1 - step) zs1 = drop (length zs2 - step) zs2 ∧
            last zs1 = last zs2) as Hzs.
  { intros enc zs1 zs2 H1 H2. apply slice_last_eq.
    apply (mapM_slice_last _ step) in H1, H2. rewrite Hwin in H1. congruence. }
  assert (∀ zs1 zs2 : list (tensor R),
            step - length zs1 = step - length zs2 →
            drop (length zs1 - step) zs1 = drop (length zs2 - step) zs2 →
            tab N (window_row fc2_units step zs1) = tab N (window_row fc2_units step zs2))
    as Hrow.
  { intros zs1 zs2 Hpad Hdrop. apply tab_ext. intros i Hi. unfold window_row.
    by rewrite Hpad, Hdrop. }
  split_and!.
  - intros Hp1 Hp2.
    destruct (SimpleQNetwork_forward_run θ state_size action_size fc1_units fc2_units step
                num_treatment false d1 states1 N acts [] Hb1 Hp1 Hnt)
      as (zs1 & zl1 & tl1 & y1 & log1 & Hzs1 & _ & _ & Hzl1 & Htl1 & _ & Hy1 & _ & Hrun1).
    destruct (SimpleQNetwork_forward_run θ state_size action_size fc1_units fc2_units step
                num_treatment false d2 states2 N acts [] Hb2 Hp2 Hnt)
      as (zs2 & zl2 & tl2 & y2 & log2 & Hzs2 & _ & _ & Hzl2 & Htl2 & _ & Hy2 & _ & Hrun2).
    cbv zeta in Hrun1, Hrun2.
    destruct (Hzs _ _ _ Hzs1 Hzs2) as (Hpad & Hdrop & Hlast).
    rewrite (Hrow _ _ Hpad Hdrop) in Hrun1, Hy1.
    assert (zl1 = zl2) as -> by congruence.
    assert (tl1 = tl2) as -> by congruence.
    assert (y1 = y2) as -> by congruence.
    eexists. split; [exact (f_equal snd Hrun1) | exact (f_equal snd Hrun2)].
  - destruct (CEQNetwork_1_forward_run θ state_size action_size fc1_units fc2_units step
                num_treatment false d1 states1 N [] Hb1 Hnt)
      as (zs1 & zl1 & tl1 & t1 & y1 & log1 & Hzs1 & _ & _ & Hzl1 & Htl1 & _ & Ht1 & _
          & Hy1 & _ & Hrun1).
    destruct (CEQNetwork_1_forward_run θ state_size action_size fc1_units fc2_units step
                num_treatment false d2 states2 N [] Hb2 Hnt)
      as (zs2 & zl2 & tl2 & t2 & y2 & log2 & Hzs2 & _ & _ & Hzl2 & Htl2 & _ & Ht2 & _
          & Hy2 & _ & Hrun2).
    destruct (Hzs _ _ _ Hzs1 Hzs2) as (Hpad & Hdrop & Hlast).
    rewrite (Hrow _ _ Hpad Hdrop) in Hrun1.
    assert (zl1 = zl2) as -> by congruence.
    assert (tl1 = tl2) as -> by congruence.
    assert (t1 = t2) as -> by (rewrite Hdrop in Ht1; congruence).
    assert (Ok y1 = Ok y2) as [= ->].
    { rewrite <- Hy1, <- Hy2. f_equal. apply tab_ext. intros i Hi.
      unfold joint_row, window_row, treatment_row.
      replace (step - length zs1) with (step - length zs2) by lia. by rewrite Hdrop. }
    eexists. split; [exact (f_equal snd Hrun1) | exact (f_equal snd Hrun2)].
  - destruct (CEQNetwork_2_forward_run θ state_size action_size fc1_units fc2_units step
                num_treatment false d1 states1 N [] Hb1 Hnt)
      as (zs1 & zl1 & tl1 & t1 & y01 & y11 & log1 & Hzs1 & _ & _ & Hzl1 & Htl1 & _ & Ht1
          & _ & Hy01 & Hy11 & _ & _ & Hrun1).
    destruct (CEQNetwork_2_forward_run θ state_size action_size fc1_units fc2_units step
                num_treatment false d2 states2 N [] Hb2 Hnt)
      as (zs2 & zl2 & tl2 & t2 & y02 & y12 & log2 & Hzs2 & _ & _ & Hzl2 & Htl2 & _ & Ht2
          & _ & Hy02 & Hy12 & _ & _ & Hrun2).
    cbv zeta in Hrun1, Hrun2.
    destruct (Hzs _ _ _ Hzs1 Hzs2) as (Hpad & Hdrop & Hlast).
    rewrite (Hrow _ _ Hpad Hdrop) in Hrun1.
    assert (zl1 = zl2) as -> by congruence.
    assert (tl1 = tl2) as -> by congruence.
    assert (t1 = t2) as -> by (rewrite Hdrop in Ht1; congruence).
    assert (tab N (λ i, joint_row fc2_units num_treatment step zs1
                          (window_classes_at false step [] t2 i) i)
            = tab N (λ i, joint_row fc2_units num_treatment step zs2
                          (window_classes_at false step [] t2 i) i)) as Hx.
    { apply tab_ext. intros i Hi. unfold joint_row, window_row, treatment_row.
      replace (step - length zs1) with (step - length zs2) by lia. by rewrite Hdrop. }
    cbv zeta in Hy01, Hy11, Hy02, Hy12. rewrite Hx in Hy01, Hy11.
    assert (y01 = y02) as -> by congruence.
    assert (y11 = y12) as -> by congruence.
    eexists. split; [exact (f_equal snd Hrun1) | exact (f_equal snd Hrun2)].
Qed.

End WindowOnly.

(** ** Parameters that are not used *)

(** Evaluates the names of the parameters, as ["encoder.0" +:+ ".weight"]. *)
Ltac eval_names :=
  repeat match goal with
  | |- context [String.append ?a ?b] =>
      let s := eval vm_compute in (String.append a b) in
      change (String.append a b) with s
  | Hn : context [String.append ?a ?b] |- _ =>
      let s := eval vm_compute in (String.append a b) in
      change (String.append a b) with s in Hn
  end.

Section Weights.
Context {R : Type} `{Scalar R}.
Implicit Types d : gmap string (value R).

(** Training mode does not read the Treatment Head for the action values.
    For two parameter sets that agree on every tensor but those of
    [logits_t], the networks in training mode leave the same batch and
    return the same action values and the same window block on a well-formed
    batch: in training mode the action values depend on the labels, not on
    the predicted treatment. *)
Theorem training_ignores_treatment_head (θ θ' : params R)
    (state_size action_size fc1_units fc2_units step num_treatment : nat)
    d (states : list (tensor R)) (N : nat) (acts labels : list Z) (labs : list (list Z)) :
  let same_values {Net} `{AbstractDQN R Net} (self self' : Net) :=
    ∃ out out',
      (forward self d).2 = Ok out ∧ (forward self' d).2 = Ok out' ∧
      out_y out = out_y out' ∧ out_z out = out_z out' ∧
      (forward self d).1.1 = (forward self' d).1.1 in
  (∀ name, String.prefix "logits_t" name = false → θ name = θ' name) →
  batch state_size N d states →
  (prev_action_ok action_size N d acts → latest_labels N d labels →
   same_values
     (SimpleQNetwork.__init__ θ state_size action_size fc1_units fc2_units step num_treatment)
     (SimpleQNetwork.__init__ θ' state_size action_size fc1_units fc2_units step
        num_treatment)) ∧
  (labels_ok num_treatment N (length states) d labs →
   same_values
     (CEQNetwork_1.__init__ θ state_size action_size fc1_units fc2_units step num_treatment)
     (CEQNetwork_1.__init__ θ' state_size action_size fc1_units fc2_units step
        num_treatment) ∧
   same_values
     (CEQNetwork_2.__init__ θ state_size action_size fc1_units fc2_units step num_treatment)
     (CEQNetwork_2.__init__ θ' state_size action_size fc1_units fc2_units step
        num_treatment)).
Proof.
  intros same_values Hθ Hbatch. unfold same_values. clear same_values.
  assert (AbstractDQN_init θ state_size fc1_units fc2_units
          = AbstractDQN_init θ' state_size fc1_units fc2_units) as Henc.
  { unfold AbstractDQN_init, nn_Linear. eval_names.
    by rewrite (Hθ "encoder.0.weight" eq_refl), (Hθ "encoder.0.bias" eq_refl),
               (Hθ "encoder.2.weight" eq_refl), (Hθ "encoder.2.bias" eq_refl). }
  split.
  - intros Hprev Hlabels.
    destruct (SimpleQNetwork_forward_run θ state_size action_size fc1_units fc2_units step
                num_treatment true d states N acts labels Hbatch Hprev Hlabels)
      as (zs & zl & tl & y & log & Hzs & _ & _ & _ & _ & _ & Hy & _ & Hrun).
    destruct (SimpleQNetwork_forward_run θ' state_size action_size fc1_units fc2_units step
                num_treatment true d states N acts labels Hbatch Hprev Hlabels)
      as (zs' & zl' & tl' & y' & log' & Hzs' & _ & _ & _ & _ & _ & Hy' & _ & Hrun').
    cbv zeta in Hrun, Hrun'.
    assert (Ok zs = Ok zs') as [= ->].
    { rewrite <- Hzs, <- Hzs'.
      exact (f_equal (λ e, mapM (Sequential_forward e) states) Henc). }
    assert (Ok y = Ok y') as [= ->].
    { rewrite <- Hy, <- Hy'.
      match goal with |- Sequential_forward ?a ?x = Sequential_forward ?b _ =>
        assert (a = b) as Hfc; [|exact (f_equal (λ e, Sequential_forward e x) Hfc)] end.
      simpl. unfold nn_Linear. eval_names.
      by rewrite (Hθ "fc.0.weight" eq_refl), (Hθ "fc.0.bias" eq_refl),
                 (Hθ "fc.2.weight" eq_refl), (Hθ "fc.2.bias" eq_refl). }
    eexists _, _. split; [exact (f_equal snd Hrun)|]. split; [exact (f_equal snd Hrun')|].
    split_and!; [done|done|].
    exact (eq_trans (f_equal (λ x, x.1.1) Hrun) (eq_sym (f_equal (λ x, x.1.1) Hrun'))).
  - intros Hlabels. split.
    + destruct (CEQNetwork_1_forward_run θ state_size action_size fc1_units fc2_units step
                  num_treatment true d states N labs Hbatch Hlabels)
        as (zs & zl & tl & t & y & log & Hzs & _ & _ & _ & _ & _ & _ & _ & Hy & _ & Hrun).
      destruct (CEQNetwork_1_forward_run θ' state_size action_size fc1_units fc2_units step
                  num_treatment true d states N labs Hbatch Hlabels)
        as (zs' & zl' & tl' & t' & y' & log' & Hzs' & _ & _ & _ & _ & _ & _ & _ & Hy' & _
            & Hrun').
      assert (Ok zs = Ok zs') as [= ->].
      { rewrite <- Hzs, <- Hzs'.
      exact (f_equal (λ e, mapM (Sequential_forward e) states) Henc). }
      assert (Ok y = Ok y') as [= ->].
      { rewrite <- Hy, <- Hy'.
      match goal with |- Sequential_forward ?a ?x = Sequential_forward ?b _ =>
        assert (a = b) as Hfc; [|exact (f_equal (λ e, Sequential_forward e x) Hfc)] end.
      simpl. unfold nn_Linear. eval_names.
        by rewrite (Hθ "fc.0.weight" eq_refl), (Hθ "fc.0.bias" eq_refl),
                   (Hθ "fc.2.weight" eq_refl), (Hθ "fc.2.bias" eq_refl). }
      eexists _, _. split; [exact (f_equal snd Hrun)|]. split; [exact (f_equal snd Hrun')|].
      split_and!; [done|done|].
      exact (eq_trans (f_equal (λ x, x.1.1) Hrun) (eq_sym (f_equal (λ x, x.1.1) Hrun'))).
    + destruct (CEQNetwork_2_forward_run θ state_size action_size fc1_units fc2_units step
                  num_treatment true d states N labs Hbatch Hlabels)
        as (zs & zl & tl & t & y0 & y1 & log & Hzs & _ & _ & _ & _ & _ & _ & _
            & Hy0 & Hy1 & _ & _ & Hrun).
      destruct (CEQNetwork_2_forward_run θ' state_size action_size fc1_units fc2_units step
                  num_treatment true d states N labs Hbatch Hlabels)
        as (zs' & zl' & tl' & t' & y0' & y1' & log' & Hzs' & _ & _ & _ & _ & _ & _ & _
            & Hy0' & Hy1' & _ & _ & Hrun').
      cbv zeta in Hrun, Hrun', Hy0, Hy1, Hy0', Hy1'.
      assert (Ok zs = Ok zs') as [= ->].
      { rewrite <- Hzs, <- Hzs'.
      exact (f_equal (λ e, mapM (Sequential_forward e) states) Henc). }
      assert (Ok y0 = Ok y0') as [= ->].
      { rewrite <- Hy0, <- Hy0'.
      match goal with |- Sequential_forward ?a ?x = Sequential_forward ?b _ =>
        assert (a = b) as Hfc; [|exact (f_equal (λ e, Sequential_forward e x) Hfc)] end.
      simpl. unfold nn_Linear. eval_names.
        by rewrite (Hθ "fc_t0.0.weight" eq_refl), (Hθ "fc_t0.0.bias" eq_refl),
                   (Hθ "fc_t0.2.weight" eq_refl), (Hθ "fc_t0.2.bias" eq_refl). }
      assert (Ok y1 = Ok y1') as [= ->].
      { rewrite <- Hy1, <- Hy1'.
      match goal with |- Sequential_forward ?a ?x = Sequential_forward ?b _ =>
        assert (a = b) as Hfc; [|exact (f_equal (λ e, Sequential_forward e x) Hfc)] end.
      simpl. unfold nn_Linear. eval_names.
        by rewrite (Hθ "fc_t1.0.weight" eq_refl), (Hθ "fc_t1.0.bias" eq_refl),
                   (Hθ "fc_t1.2.weight" eq_refl), (Hθ "fc_t1.2.bias" eq_refl). }
      eexists _, _. split; [exact (f_equal snd Hrun)|]. split; [exact (f_equal snd Hrun')|].
      split_and!; [done|done|].
      exact (eq_trans (f_equal (λ x, x.1.1) Hrun) (eq_sym (f_equal (λ x, x.1.1) Hrun'))).
Qed.

End Weights.

(** ** Labels and previous actions out of shape *)

Section LabelRange.
Context {R : Type} `{Scalar R}.
Implicit Types d : gmap string (value R).

Lemma scatter_along_tab_Err {A B} (f : A → B → result A) N (a : nat → A) (b : nat → B) e :
  (∀ i e', i < N → f (a i) (b i) = Err e' → e' = e) →
  (∃ i e', i < N ∧ f (a i) (b i) = Err e') →
  scatter_along f (tab N a) (tab N b) = Err e.
Proof.
  revert a b. induction N as [|N IH]; intros a b Hall (i & e' & Hi & He'); [lia|].
  rewrite !tab_S. simpl. destruct (f (a 0) (b 0)) as [r|e0] eqn:H0; simpl.
  - rewrite (IH (λ i, a (S i)) (λ i, b (S i))); [done | |].
    + intros j e1 Hj. apply Hall. lia.
    + destruct i as [|i]; [congruence|]. exists i, e'. split; [lia|done].
  - f_equal. apply (Hall 0); [lia|done].
Qed.

(** [scatter] of a column of classes into fresh zeros raises nothing but the
    index error. *)
Lemma scatter1_Err n (ks : list Z) e :
  scatter1 (replicate (length ks) (replicate n (s0 : R))) (column ks) s1 = Err e →
  e = IndexOutOfBounds.
Proof.
  intros He.
  destruct (Forall_Exists_dec (λ k, 0 ≤ k < Z.of_nat n)%Z (λ k, ¬ (0 ≤ k < Z.of_nat n)%Z)
              (λ k, decide _) ks) as [Hin|Hout].
  - by rewrite scatter1_one_hot in He.
  - rewrite scatter1_out in He by done. by injection He.
Qed.

(** Lines 94-96 and 143-145 with a label outside [[0, num_treatment)]. *)
Lemma run_onehot_truth_out num_treatment step N d (labs : list (list Z))
    (t : list (tensor R)) :
  d !! "t" = Some (VLongs (map column labs)) →
  labs ≠ [] → 0 < N → Forall (λ col, length col = N) labs →
  Forall (shaped N num_treatment) t → length t = length (slice_last step labs) →
  Exists (λ col, Exists (λ k, ¬ (0 ≤ k < Z.of_nat num_treatment)%Z) col)
    (slice_last step labs) →
  onehot_truth step (tab N (λ i, rows_at i t)) d = (d, [], Err IndexOutOfBounds).
Proof.
  intros Hfield Hne HN Hcols Ht Htlen Hout. unfold onehot_truth.
  assert (Forall (λ col, length col = N) (slice_last step labs)) as Hsl
    by by apply Forall_slice_last.
  eapply (run_bind _ _ _ _ [] _ _ []); [by apply run_get_longs|].
  eapply (run_bind _ _ _ _ [] _ _ []).
  { apply run_lift. rewrite slice_last_map. apply (stack1_tab N 1); [| |done].
    - intros Hnil. apply (f_equal length) in Hnil. rewrite length_map in Hnil.
      simpl in Hnil. apply nil_length_inv in Hnil. revert Hnil.
      by apply slice_last_nonempty.
    - apply Forall_map. eapply Forall_impl; [done|]. intros col Hc.
      exact (shaped_column N col Hc). }
  apply run_bind_Err. unfold lift. do 2 f_equal.
  rewrite (zeros_like3_tab N (length t) num_treatment).
  2: { intros i Hi. by apply (rows_at_shaped N). }
  assert (tab N (λ i, rows_at i (map column (slice_last step labs)))
          = tab N (λ i, column (labels_at i (slice_last step labs)))) as ->.
  { apply tab_ext. intros i Hi. apply rows_at_column.
    eapply Forall_impl; [done|]. intros col Hc. simpl in *. lia. }
  assert (∀ i, length (labels_at i (slice_last step labs)) = length t) as Hlen.
  { intros i. unfold labels_at. by rewrite length_map. }
  assert (∀ i, scatter1_kernel (replicate (length t) (replicate num_treatment (s0 : R)))
                (column (labels_at i (slice_last step labs))) s1
              = scatter1 (replicate (length t) (replicate num_treatment (s0 : R)))
                  (column (labels_at i (slice_last step labs))) s1) as Hkernel.
  { intros i. symmetry. apply scatter1_checked.
    unfold column. by rewrite length_map, length_replicate, Hlen. }
  rewrite (scatter2_checked N (length t) (length t)); [| |..|done].
  2: { intros i Hi. apply length_replicate. }
  2: { intros i Hi. unfold column. by rewrite length_map. }
  unfold scatter2_kernel. apply scatter_along_tab_Err.
  - intros i e' Hi He'. rewrite Hkernel, <- (Hlen i) in He'. by apply scatter1_Err in He'.
  - apply Exists_exists in Hout as (col & Hcol & Hk).
    apply Exists_exists in Hk as (k & Hk & Hrange).
    apply list_elem_of_lookup in Hk as [i Hi].
    assert (i < N) as HiN.
    { rewrite <- (proj1 (Forall_forall _ _) Hsl col Hcol). by eapply lookup_lt_Some. }
    exists i, IndexOutOfBounds. split; [done|]. rewrite Hkernel. apply scatter1_out.
    + by rewrite Hlen.
    + unfold labels_at. apply Exists_fmap, Exists_exists. exists col. split; [done|].
      simpl. by rewrite Hi.
Qed.

(** A label outside the classes, in training mode. On well-formed states and
    a sequence of labels aligned with them, one label per sample, a label of
    the window outside [[0, num_treatment)] makes the forward call of
    Variants B and C raise at the [scatter] of the treatment block, after the
    Treatment Head and before any value head is called; the latent tensors
    stay in the batch. *)
Theorem training_label_out_of_range (θ : params R)
    (state_size action_size fc1_units fc2_units step num_treatment : nat)
    d (states : list (tensor R)) (N : nat) (labs : list (list Z)) :
  let netB := CEQNetwork_1.__init__ θ state_size action_size fc1_units fc2_units
                step num_treatment in
  let netC := CEQNetwork_2.__init__ θ state_size action_size fc1_units fc2_units
                step num_treatment in
  batch state_size N d states →
  d !! "t" = Some (VLongs (map column labs)) →
  length labs = length states →
  Forall (λ col, length col = N) labs →
  Exists (λ col, Exists (λ k, ¬ (0 ≤ k < Z.of_nat num_treatment)%Z) col)
    (slice_last step labs) →
  ∃ zs,
    mapM (Sequential_forward (AbstractDQN_init θ state_size fc1_units fc2_units)) states
    = Ok zs ∧
    forward netB d =
      (<["z" := VTensors zs]> d,
       replicate (length states) Encoder
       ++ replicate (length (slice_last step states)) LogitsT,
       Err IndexOutOfBounds) ∧
    forward netC d =
      (<["z" := VTensors zs]> d,
       replicate (length states) Encoder
       ++ replicate (length (slice_last step states)) LogitsT,
       Err IndexOutOfBounds).
Proof.
  intros netB netC [Hstate Hne HN Hshape] Hfield Hal Hcols Hout. subst netB netC.
  destruct (trunk_stage _ _ _ _ _ step N states
              (AbstractDQN_init_typed θ state_size fc1_units fc2_units)
              (SimpleQNetwork_logits_t_typed θ state_size action_size fc1_units fc2_units
                 step num_treatment true) Hne HN Hshape)
    as (zs & t & zl & tl & zc & Hzs & Hzsh & Hzlen & Hzne & Ht & Htsh & Htlen & Htne
        & Hzl & Htl & Hlast & Htlsh & Hcat & Hpad).
  assert (labs ≠ []) as Hlne.
  { intros ->. destruct states; [done | simpl in Hal; lia]. }
  assert (length t = length (slice_last step labs)) as Htl'.
  { by rewrite Htlen, !length_slice_last, Hal. }
  exists zs. split; [done|]. split.
  - match goal with |- ?m d = (?d', ?T, ?r) =>
      assert (∃ log, m d = (d', log, r) ∧ log = T) as (log & -> & ->); [|done] end.
    eexists. split.
    + unfold forward.
      eapply run_bind; [by apply run_get_tensors|].
      eapply run_bind; [by apply run_mapM_call_Ok|].
      eapply run_bind; [reflexivity|].
      change (_forward ?n) with (CEQNetwork_1._forward n). unfold CEQNetwork_1._forward.
      eapply run_bind; [apply run_get_tensors, lookup_insert_eq|]. cbv zeta.
      eapply run_bind; [by apply run_mapM_call_Ok|].
      eapply run_bind; [by apply run_lift|].
      eapply run_bind; [by apply run_lift|].
      eapply run_bind; [apply run_lift; by apply (stack1_tab N num_treatment)|]. simpl.
      apply run_bind_Err.
      apply (run_onehot_truth_out num_treatment step N _ labs); try done.
      by rewrite lookup_insert_ne.
    + simpl. by rewrite !app_nil_r, !length_slice_last, Hzlen.
  - match goal with |- ?m d = (?d', ?T, ?r) =>
      assert (∃ log, m d = (d', log, r) ∧ log = T) as (log & -> & ->); [|done] end.
    eexists. split.
    + unfold forward.
      eapply run_bind; [by apply run_get_tensors|].
      eapply run_bind; [by apply run_mapM_call_Ok|].
      eapply run_bind; [reflexivity|].
      change (_forward ?n) with (CEQNetwork_2._forward n). unfold CEQNetwork_2._forward.
      eapply run_bind; [apply run_get_tensors, lookup_insert_eq|]. cbv zeta.
      eapply run_bind; [by apply run_mapM_call_Ok|].
      eapply run_bind; [by apply run_lift|].
      eapply run_bind; [by apply run_lift|].
      eapply run_bind; [apply run_lift; by apply (stack1_tab N num_treatment)|]. simpl.
      apply run_bind_Err. apply run_bind_Err.
      apply (run_onehot_truth_out num_treatment step N _ labs); try done.
      by rewrite lookup_insert_ne.
    + simpl. by rewrite !app_nil_r, !length_slice_last, Hzlen.
Qed.

End LabelRange.

Section PrevActionSize.
Context {R : Type} `{Scalar R}.
Implicit Types d : gmap string (value R).


(** [scatter] with an index of fewer rows than [self]: the rows it does not
    reach stay zero. *)
Lemma scatter1_short n N (ks : list Z) :
  Forall (λ k, 0 ≤ k < Z.of_nat n)%Z ks → length ks ≤ N →
  scatter1 (replicate N (replicate n (s0 : R))) (column ks) s1
  = Ok (tab N (λ i, if decide (i < length ks)
                    then one_hot n (Z.to_nat (default 0%Z (ks !! i)))
                    else replicate n s0)).
Proof.
  intros Hks HN. rewrite scatter1_checked.
  2: { unfold column. by rewrite length_map, length_replicate. }
  revert N HN. induction Hks as [|k ks Hk _ IH]; intros N HN; simpl in *.
  - unfold scatter1_kernel. simpl.
    assert (∀ self : tensor R, scatter_along (scatter_row s1) self [] = Ok self) as ->
      by (by intros []).
    f_equal. apply list_eq. intros i.
    destruct (decide (i < N)) as [Hi|Hi].
    + rewrite tab_lookup, lookup_replicate_2 by done. f_equal.
    + rewrite !lookup_ge_None_2; [done | rewrite tab_length; lia
                                  | rewrite length_replicate; lia].
  - destruct N as [|N]; [lia|]. unfold scatter1_kernel in *. simpl.
    rewrite length_replicate, decide_True by done. simpl.
    fold (column ks). rewrite IH by lia. simpl. f_equal. rewrite tab_S. f_equal.
    apply tab_ext. intros i Hi. simpl.
    destruct (decide (i < length ks)), (decide (S i < S (length ks))); try done; lia.
Qed.


End PrevActionSize.

(** ** The fields that are read *)

Section ReadSet.
Context {R : Type} `{Scalar R}.
Implicit Types d : gmap string (value R).

Lemma agree_on_off (K : gset string) d1 d2 :
  agree_on K d1 d2 →
  agree_off (((dom d1 ∪ dom d2) ∖ K) ∪ {["z"; "onehot_prev_action"]}) d1 d2.
Proof.
  intros Hon k Hk. destruct (decide (k ∈ K)) as [HK|HK]; [by apply Hon|].
  assert ((k ∉ dom d1) ∧ (k ∉ dom d2)) as [H1 H2] by set_solver.
  apply not_elem_of_dom in H1, H2. by rewrite H1, H2.
Qed.

Lemma indep_same {A} (U U' : gset string) (m : M R A) d1 d2 :
  indep U U' m → agree_off U d1 d2 →
  (m d1).2 = (m d2).2 ∧ (m d1).1.2 = (m d2).1.2.
Proof. intros Hm Hd. destruct (Hm d1 d2 Hd) as (Hlog & Hres & _). done. Qed.

(** The fields a forward call reads. The result of a forward call, outputs
    or exception, and the sub-modules it calls depend on the batch through
    the fields ['state'], ['prev_action'] and ['t'] only, whatever else the
    batch holds. Variants B and C do not read ['prev_action'], and in
    evaluation mode no variant reads ['t']. *)
Theorem forward_read_set
    (selfA : SimpleQNetwork.t R) (selfB : CEQNetwork_1.t R) (selfC : CEQNetwork_2.t R)
    d1 d2 :
  let same {A} (m : M R A) :=
    (m d1).2 = (m d2).2 ∧ (m d1).1.2 = (m d2).1.2 in
  (agree_on {["state"; "prev_action"; "t"]} d1 d2 → same (forward selfA)) ∧
  (agree_on {["state"; "prev_action"]} d1 d2 → same (forward (SimpleQNetwork.eval selfA))) ∧
  (agree_on {["state"; "t"]} d1 d2 → same (forward selfB) ∧ same (forward selfC)) ∧
  (agree_on {["state"]} d1 d2 →
   same (forward (CEQNetwork_1.eval selfB)) ∧ same (forward (CEQNetwork_2.eval selfC))).
Proof.
  intros same. unfold same. clear same. split_and!.
  - intros Hon. eapply indep_same; [|by apply agree_on_off].
    eapply indep_weaken; [|reflexivity].
    unfold forward. simpl. unfold SimpleQNetwork._forward. indep_go.
  - intros Hon. eapply indep_same; [|by apply agree_on_off].
    eapply indep_weaken; [|reflexivity].
    unfold forward. simpl. unfold SimpleQNetwork._forward. simpl. indep_go.
  - intros Hon. split.
    + eapply indep_same; [|by apply agree_on_off].
      eapply indep_weaken; [|reflexivity].
      unfold forward. simpl. unfold CEQNetwork_1._forward. indep_go.
    + eapply indep_same; [|by apply agree_on_off].
      eapply indep_weaken; [|reflexivity].
      unfold forward. simpl. unfold CEQNetwork_2._forward. indep_go.
  - intros Hon. split.
    + eapply indep_same; [|by apply agree_on_off].
      eapply indep_weaken; [|reflexivity].
      unfold forward. simpl. unfold CEQNetwork_1._forward. simpl. indep_go.
    + eapply indep_same; [|by apply agree_on_off].
      eapply indep_weaken; [|reflexivity].
      unfold forward. simpl. unfold CEQNetwork_2._forward. simpl. indep_go.
Qed.

End ReadSet.

(** ** Batch sizes *)

Section BatchSizes.
Context {R : Type} `{Scalar R}.
Implicit Types d : gmap string (value R).

(** [torch.cat] returns a tensor with the batch size of each of its
    arguments, *)
Lemma cat_Ok_size0 (ts : list (tensor R)) r :
  cat ts = Ok r → Forall (λ t, length t = length r) ts.
Proof.
  revert r. induction ts as [|t ts IH]; intros r; [done|].
  destruct ts as [|t' ts].
  - simpl. intros [= <-]. by constructor.
  - change (cat (t :: t' :: ts)) with (cat (t' :: ts) ≫= cat2 t).
    destruct (cat (t' :: ts)) as [r'|e]; simpl; [|done].
    unfold cat2, size0. destruct (decide (length t = length r')) as [Heq|]; [|done].
    intros [= <-]. specialize (IH r' eq_refl).
    assert (length (zip_with app t r') = length r') as Hlen
      by (rewrite length_zip_with; lia).
    rewrite Hlen. constructor; [done | exact IH].
Qed.

(** and raises nothing but a shape error on a list that is not empty. *)
Lemma cat_Err (ts : list (tensor R)) e : ts ≠ [] → cat ts = Err e → e = ShapeMismatch.
Proof.
  induction ts as [|t ts IH]; intros Hne; [done|].
  destruct ts as [|t' ts]; [done|].
  change (cat (t :: t' :: ts)) with (cat (t' :: ts) ≫= cat2 t).
  destruct (cat (t' :: ts)) as [r'|e'] eqn:Hcat; simpl.
  - unfold cat2. destruct (decide _); [done | by intros [= <-]].
  - intros [= <-]. by apply IH.
Qed.

Lemma cat_mismatch (ts : list (tensor R)) i j t1 t2 :
  ts !! i = Some t1 → ts !! j = Some t2 → length t1 ≠ length t2 →
  cat ts = Err ShapeMismatch.
Proof.
  intros H1 H2 Hne. destruct (cat ts) as [r|e] eqn:Hcat.
  - pose proof (cat_Ok_size0 ts r Hcat) as Hall.
    pose proof (proj1 (Forall_lookup _ _) Hall _ _ H1) as Hl1.
    pose proof (proj1 (Forall_lookup _ _) Hall _ _ H2) as Hl2.
    simpl in *. congruence.
  - f_equal. eapply cat_Err; [|done]. by intros ->.
Qed.

(** A stack of layers keeps the number of rows, whatever it is. *)
Lemma mapM_typed_rows ms i o (xs : list (tensor R)) :
  typed ms i o → Forall (Forall (λ r, length r = i)) xs →
  ∃ ys, mapM (Sequential_forward ms) xs = Ok ys ∧
        Forall2 (λ x y, length y = length x) xs ys ∧
        Forall (Forall (λ r, length r = o)) ys.
Proof.
  intros Hty Hxs. induction Hxs as [|x xs Hx _ (ys & Hys & Hrows & Hw)]; simpl.
  - exists []. by split_and!.
  - destruct (Sequential_forward_typed ms i o (length x) x Hty) as (y & -> & Hlen & Hy);
      [by split|].
    simpl. rewrite Hys. simpl. exists (y :: ys). split_and!; [done| |]; by constructor.
Qed.

(** States of different batch sizes. When two timesteps of the window hold
    state tensors with different numbers of samples (each sample of width
    [state_size]), the forward call of each variant, in either mode, raises
    the shape error of [torch.cat], after the encoder and the Treatment Head
    have run on every tensor and before any value head is called. *)
Theorem forward_batch_size_mismatch (θ : params R)
    (state_size action_size fc1_units fc2_units step num_treatment : nat) (mode : bool)
    d (states : list (tensor R)) (i j : nat) (x1 x2 : tensor R) :
  let netA := SimpleQNetwork.train mode
                (SimpleQNetwork.__init__ θ state_size action_size fc1_units fc2_units
                   step num_treatment) in
  let netB := CEQNetwork_1.train mode
                (CEQNetwork_1.__init__ θ state_size action_size fc1_units fc2_units
                   step num_treatment) in
  let netC := CEQNetwork_2.train mode
                (CEQNetwork_2.__init__ θ state_size action_size fc1_units fc2_units
                   step num_treatment) in
  d !! "state" = Some (VTensors states) →
  Forall (Forall (λ r, length r = state_size)) states →
  slice_last step states !! i = Some x1 →
  slice_last step states !! j = Some x2 →
  length x1 ≠ length x2 →
  ∃ zs,
    let fails {Net} `{AbstractDQN R Net} (self : Net) :=
      forward self d =
        (<["z" := VTensors zs]> d,
         replicate (length states) Encoder
         ++ replicate (length (slice_last step states)) LogitsT,
         Err ShapeMismatch) in
    mapM (Sequential_forward (AbstractDQN_init θ state_size fc1_units fc2_units)) states
    = Ok zs ∧
    fails netA ∧ fails netB ∧ fails netC.
Proof.
  intros netA netB netC Hstate Hshape H1 H2 Hne. subst netA netB netC.
  destruct (mapM_typed_rows _ _ _ states
              (AbstractDQN_init_typed θ state_size fc1_units fc2_units) Hshape)
    as (zs & Hzs & Hrows & Hzw).
  pose proof (mapM_length _ _ _ Hzs) as Hzlen.
  destruct (mapM_typed_rows _ _ _ (slice_last step zs)
              (SimpleQNetwork_logits_t_typed θ state_size action_size fc1_units fc2_units
                 step num_treatment mode)) as (t & Ht & _ & _).
  { by apply Forall_slice_last. }
  assert (cat (slice_last step zs) = Err ShapeMismatch) as Hcat.
  { assert (Forall2 (λ x y, length y = length x) (slice_last step states)
              (slice_last step zs)) as Hwin.
    { rewrite !slice_last_drop, Hzlen. by apply Forall2_drop. }
    destruct (Forall2_lookup_l _ _ _ _ _ Hwin H1) as (z1 & Hz1 & Hl1).
    destruct (Forall2_lookup_l _ _ _ _ _ Hwin H2) as (z2 & Hz2 & Hl2).
    apply (cat_mismatch _ i j z1 z2); [done|done|]. simpl in *. congruence. }
  exists zs. intros fails. unfold fails. clear fails. split; [done|].
  split_and!.
  - match goal with |- ?m d = (?d', ?T, ?r) =>
      assert (∃ log, m d = (d', log, r) ∧ log = T) as (log & -> & ->); [|done] end.
    eexists. split.
    + unfold forward.
      eapply run_bind; [by apply run_get_tensors|].
      eapply run_bind; [by apply run_mapM_call_Ok|].
      eapply run_bind; [reflexivity|].
      change (_forward ?n) with (SimpleQNetwork._forward n). unfold SimpleQNetwork._forward.
      eapply run_bind; [apply run_get_tensors, lookup_insert_eq|]. cbv zeta.
      eapply run_bind; [by apply run_mapM_call_Ok|].
      apply run_bind_Err. unfold lift.
      exact (f_equal (λ r, (<["z" := VTensors zs]> d, [], r)) Hcat).
    + simpl. by rewrite !app_nil_r, !length_slice_last, Hzlen.
  - match goal with |- ?m d = (?d', ?T, ?r) =>
      assert (∃ log, m d = (d', log, r) ∧ log = T) as (log & -> & ->); [|done] end.
    eexists. split.
    + unfold forward.
      eapply run_bind; [by apply run_get_tensors|].
      eapply run_bind; [by apply run_mapM_call_Ok|].
      eapply run_bind; [reflexivity|].
      change (_forward ?n) with (CEQNetwork_1._forward n). unfold CEQNetwork_1._forward.
      eapply run_bind; [apply run_get_tensors, lookup_insert_eq|]. cbv zeta.
      eapply run_bind; [by apply run_mapM_call_Ok|].
      apply run_bind_Err. unfold lift.
      exact (f_equal (λ r, (<["z" := VTensors zs]> d, [], r)) Hcat).
    + simpl. by rewrite !app_nil_r, !length_slice_last, Hzlen.
  - match goal with |- ?m d = (?d', ?T, ?r) =>
      assert (∃ log, m d = (d', log, r) ∧ log = T) as (log & -> & ->); [|done] end.
    eexists. split.
    + unfold forward.
      eapply run_bind; [by apply run_get_tensors|].
      eapply run_bind; [by apply run_mapM_call_Ok|].
      eapply run_bind; [reflexivity|].
      change (_forward ?n) with (CEQNetwork_2._forward n). unfold CEQNetwork_2._forward.
      eapply run_bind; [apply run_get_tensors, lookup_insert_eq|]. cbv zeta.
      eapply run_bind; [by apply run_mapM_call_Ok|].
      apply run_bind_Err. unfold lift.
      exact (f_equal (λ r, (<["z" := VTensors zs]> d, [], r)) Hcat).
    + simpl. by rewrite !app_nil_r, !length_slice_last, Hzlen.
Qed.

End BatchSizes.

(** ** Alignment of the labels *)

Section LabelAlignment.
Context {R : Type} `{Scalar R}.
Implicit Types d : gmap string (value R).

Lemma tab_app_replicate {A B} (f : A → B) (a : A) (z : B) (ks : list A) W :
  length ks ≤ W →
  tab W (λ j, if decide (j < length ks) then f (default a (ks !! j)) else z)
  = map f ks ++ replicate (W - length ks) z.
Proof.
  intros Hle. apply list_eq. intros j. destruct (decide (j < W)) as [Hj|Hj].
  - rewrite tab_lookup by done. destruct (decide (j < length ks)) as [Hlt|Hge].
    + rewrite lookup_app_l by (by rewrite length_map).
      rewrite list_lookup_fmap. destruct (lookup_lt_is_Some_2 ks j Hlt) as [k Hk].
      by rewrite Hk.
    + rewrite lookup_app_r by (rewrite length_map; lia).
      rewrite length_map, lookup_replicate_2; [done | lia].
  - rewrite !lookup_ge_None_2; [done | | rewrite tab_length; lia].
    rewrite length_app, length_map, length_replicate. lia.
Qed.

(** Lines 94-97 with fewer labels than timesteps in the window: [scatter]
    fills the first slots, and leaves the others zero. *)
Lemma run_onehot_truth_short num_treatment step N d (labs : list (list Z))
    (t : list (tensor R)) :
  d !! "t" = Some (VLongs (map column labs)) →
  labs ≠ [] → 0 < N →
  Forall (λ col, length col = N ∧ Forall (λ k, 0 ≤ k < Z.of_nat num_treatment)%Z col) labs →
  Forall (shaped N num_treatment) t → length (slice_last step labs) ≤ length t →
  onehot_truth step (tab N (λ i, rows_at i t)) d
  = (d, [],
     Ok (tab N (λ i, concat (map (λ k, one_hot num_treatment (Z.to_nat k))
                               (labels_at i (slice_last step labs)))
                     ++ replicate (num_treatment * (length t - length (slice_last step labs)))
                          s0))).
Proof.
  intros Hfield Hne HN Hcols Ht Hle. unfold onehot_truth.
  assert (Forall (λ col, length col = N ∧
            Forall (λ k, 0 ≤ k < Z.of_nat num_treatment)%Z col) (slice_last step labs))
    as Hsl by by apply Forall_slice_last.
  eapply (run_bind _ _ _ _ [] _ _ []); [by apply run_get_longs|].
  eapply (run_bind _ _ _ _ [] _ _ []).
  { apply run_lift. rewrite slice_last_map. apply (stack1_tab N 1); [| |done].
    - intros Hnil. apply (f_equal length) in Hnil. rewrite length_map in Hnil.
      simpl in Hnil. apply nil_length_inv in Hnil. revert Hnil.
      by apply slice_last_nonempty.
    - apply Forall_map. eapply Forall_impl; [done|]. intros col [Hc _].
      exact (shaped_column N col Hc). }
  assert (∀ i, length (labels_at i (slice_last step labs)) = length (slice_last step labs))
    as Hlen.
  { intros i. unfold labels_at. by rewrite length_map. }
  eapply (run_bind _ _ _ _ [] _ _ []).
  { apply run_lift.
    rewrite (zeros_like3_tab N (length t) num_treatment).
    2: { intros i Hi. by apply (rows_at_shaped N). }
    assert (tab N (λ i, rows_at i (map column (slice_last step labs)))
            = tab N (λ i, column (labels_at i (slice_last step labs)))) as ->.
    { apply tab_ext. intros i Hi. apply rows_at_column.
      eapply Forall_impl; [done|]. intros col [Hc _]. simpl in *. lia. }
    rewrite (scatter2_checked N (length t) (length (slice_last step labs))); [| |..|done].
    2: { intros i Hi. apply length_replicate. }
    2: { intros i Hi. unfold column. by rewrite length_map, Hlen. }
    unfold scatter2_kernel.
    apply (scatter_along_tab _ N _ _
             (λ i, map (λ k, one_hot num_treatment (Z.to_nat k))
                     (labels_at i (slice_last step labs))
                   ++ replicate (length t - length (slice_last step labs))
                        (replicate num_treatment s0))).
    intros i Hi. rewrite <- scatter1_checked.
    2: { unfold column. by rewrite length_map, length_replicate, Hlen. }
    rewrite scatter1_short.
    - f_equal. rewrite <- (Hlen i).
      apply (tab_app_replicate (λ k, one_hot num_treatment (Z.to_nat k)) 0%Z).
      by rewrite Hlen.
    - unfold labels_at. apply Forall_map. eapply Forall_impl; [done|].
      intros col [Hc Hr]. simpl.
      destruct (lookup_lt_is_Some_2 col i) as [k Hk]; [lia|]. rewrite Hk. simpl.
      by eapply (proj1 (Forall_lookup _ _) Hr).
    - by rewrite Hlen. }
  apply run_lift. rewrite view_flat_tab by done. f_equal. apply tab_ext. intros i Hi.
  by rewrite concat_app, <- replicate_concat.
Qed.

(** Lines 94-96 with more labels than timesteps in the window. *)
Lemma run_onehot_truth_long num_treatment step N d (labs : list (list Z))
    (t : list (tensor R)) :
  d !! "t" = Some (VLongs (map column labs)) →
  labs ≠ [] → 0 < N →
  Forall (λ col, length col = N ∧ Forall (λ k, 0 ≤ k < Z.of_nat num_treatment)%Z col) labs →
  Forall (shaped N num_treatment) t → length t < length (slice_last step labs) →
  onehot_truth step (tab N (λ i, rows_at i t)) d = (d, [], Err ShapeMismatch).
Proof.
  intros Hfield Hne HN Hcols Ht Hlt. unfold onehot_truth.
  assert (Forall (λ col, length col = N ∧
            Forall (λ k, 0 ≤ k < Z.of_nat num_treatment)%Z col) (slice_last step labs))
    as Hsl by by apply Forall_slice_last.
  eapply (run_bind _ _ _ _ [] _ _ []); [by apply run_get_longs|].
  eapply (run_bind _ _ _ _ [] _ _ []).
  { apply run_lift. rewrite slice_last_map. apply (stack1_tab N 1); [| |done].
    - intros Hnil. apply (f_equal length) in Hnil. rewrite length_map in Hnil.
      simpl in Hnil. apply nil_length_inv in Hnil. revert Hnil.
      by apply slice_last_nonempty.
    - apply Forall_map. eapply Forall_impl; [done|]. intros col [Hc _].
      exact (shaped_column N col Hc). }
  apply run_bind_Err. unfold lift. do 2 f_equal.
  rewrite (zeros_like3_tab N (length t) num_treatment).
  2: { intros i Hi. by apply (rows_at_shaped N). }
  assert (tab N (λ i, rows_at i (map column (slice_last step labs)))
          = tab N (λ i, column (labels_at i (slice_last step labs)))) as ->.
  { apply tab_ext. intros i Hi. apply rows_at_column.
    eapply Forall_impl; [done|]. intros col [Hc _]. simpl in *. lia. }
  apply (scatter2_long N (length t) (length (slice_last step labs))); try done.
  - intros i Hi. apply length_replicate.
  - intros i Hi. unfold labels_at. by rewrite length_map.
Qed.

(** Labels that are not aligned with the states, in training mode of
    Variant B. On well-formed states, with in-range labels, one per sample,
    and [step > 0]: when the window [data['t'][-step:]] holds more label
    tensors than the window of the states, the forward call raises the shape
    error of [scatter] before the value head is called; when it holds fewer,
    nothing is raised, and the labels fill the slots of the oldest timesteps
    of the window, the slots of the latest timesteps being left zero. *)
Theorem CEQNetwork_1_labels_misaligned (θ : params R)
    (state_size action_size fc1_units fc2_units step num_treatment : nat)
    d (states : list (tensor R)) (N : nat) (labs : list (list Z)) :
  let net := CEQNetwork_1.__init__ θ state_size action_size fc1_units fc2_units
               step num_treatment in
  let W := length (slice_last step states) in
  let W' := length (slice_last step labs) in
  batch state_size N d states →
  d !! "t" = Some (VLongs (map column labs)) →
  labs ≠ [] → 0 < step →
  Forall (λ col, length col = N ∧ Forall (λ k, 0 ≤ k < Z.of_nat num_treatment)%Z col) labs →
  (W < W' →
   ∃ zs, forward net d =
           (<["z" := VTensors zs]> d,
            replicate (length states) Encoder ++ replicate W LogitsT,
            Err ShapeMismatch)) ∧
  (W' < W →
   ∃ d' log out,
     forward net d = (d', log, Ok out) ∧
     Sequential_forward (CEQNetwork_1.fc net)
       (zip_with app (out_z out)
          (tab N (λ i, replicate (num_treatment * (step - W)) s0
                       ++ concat (map (λ k, one_hot num_treatment (Z.to_nat k))
                                    (labels_at i (slice_last step labs)))
                       ++ replicate (num_treatment * (W - W')) s0)))
     = Ok (out_y out)).
Proof.
  intros net W W' [Hstate Hne HN Hshape] Hfield Hlne Hstep Hcols. subst net W W'.
  destruct (trunk_stage _ _ _ _ _ step N states
              (AbstractDQN_init_typed θ state_size fc1_units fc2_units)
              (SimpleQNetwork_logits_t_typed θ state_size action_size fc1_units fc2_units
                 step num_treatment true) Hne HN Hshape)
    as (zs & t & zl & tl & zc & Hzs & Hzsh & Hzlen & Hzne & Ht & Htsh & Htlen & Htne
        & Hzl & Htl & Hlast & Htlsh & Hcat & Hpad).
  split.
  - intros Hlong. exists zs.
    match goal with |- ?m d = (?d', ?T, ?r) =>
      assert (∃ log, m d = (d', log, r) ∧ log = T) as (log & -> & ->); [|done] end.
    eexists. split.
    + unfold forward.
      eapply run_bind; [by apply run_get_tensors|].
      eapply run_bind; [by apply run_mapM_call_Ok|].
      eapply run_bind; [reflexivity|].
      change (_forward ?n) with (CEQNetwork_1._forward n). unfold CEQNetwork_1._forward.
      eapply run_bind; [apply run_get_tensors, lookup_insert_eq|]. cbv zeta.
      eapply run_bind; [by apply run_mapM_call_Ok|].
      eapply run_bind; [by apply run_lift|].
      eapply run_bind; [by apply run_lift|].
      eapply run_bind; [apply run_lift; by apply (stack1_tab N num_treatment)|]. simpl.
      apply run_bind_Err.
      apply (run_onehot_truth_long num_treatment step N _ labs); try done.
      * by rewrite lookup_insert_ne.
      * by rewrite Htlen.
    + simpl. by rewrite !app_nil_r, !length_slice_last, Hzlen.
  - intros Hshort.
    set (block := tab N (λ i, replicate (num_treatment * (step - length states)) s0
                       ++ concat (map (λ k, one_hot num_treatment (Z.to_nat k))
                                    (labels_at i (slice_last step labs)))
                       ++ replicate (num_treatment
                                     * (length t - length (slice_last step labs))) (s0 : R))).
    assert (∀ i, length (concat (map (λ k, one_hot num_treatment (Z.to_nat k))
                                   (labels_at i (slice_last step labs)))
                         ++ replicate (num_treatment
                                       * (length t - length (slice_last step labs))) (s0 : R))
                 = num_treatment * length t) as Hblen.
    { intros i. rewrite length_app, length_concat_one_hot, length_replicate.
      unfold labels_at. rewrite length_map. rewrite Htlen. nia. }
    assert (shaped N ((fc2_units + num_treatment) * step)
              (tab N (λ i, window_row fc2_units step zs i
                           ++ (replicate (num_treatment * (step - length states)) s0
                               ++ concat (map (λ k, one_hot num_treatment (Z.to_nat k))
                                            (labels_at i (slice_last step labs)))
                               ++ replicate (num_treatment
                                             * (length t - length (slice_last step labs)))
                                    (s0 : R))))) as Hx.
    { apply shaped_tab. intros i Hi.
      rewrite length_app, (length_window_row _ _ N) by done.
      rewrite length_app, length_replicate, Hblen, Htlen, length_slice_last.
      rewrite decide_False by lia. nia. }
    destruct (Sequential_forward_typed _ _ _ N _
                (CEQNetwork_1_fc_typed θ state_size action_size fc1_units fc2_units
                   step num_treatment true) Hx) as (y & Hy & Hysh).
    eexists _, _, _. split.
    + unfold forward.
      eapply run_bind; [by apply run_get_tensors|].
      eapply run_bind; [by apply run_mapM_call_Ok|].
      eapply run_bind; [reflexivity|].
      change (_forward ?n) with (CEQNetwork_1._forward n). unfold CEQNetwork_1._forward.
      eapply run_bind; [apply run_get_tensors, lookup_insert_eq|]. cbv zeta.
      eapply run_bind; [by apply run_mapM_call_Ok|].
      eapply run_bind; [by apply run_lift|].
      eapply run_bind; [by apply run_lift|].
      eapply run_bind; [apply run_lift; by apply (stack1_tab N num_treatment)|]. simpl.
      eapply run_bind.
      { apply (run_onehot_truth_short num_treatment step N _ labs); try done.
        - by rewrite lookup_insert_ne.
        - rewrite Htlen. lia. }
      eapply run_bind.
      { apply run_lift.
        rewrite (cat_pad_slots N num_treatment step (length states)); [|done|].
        - destruct (decide (step = 0)) as [|_]; [lia|]. reflexivity.
        - intros i Hi. rewrite Hblen, Htlen, length_slice_last. done. }
      eapply run_bind.
      { apply run_lift. simpl. apply cat2_tab. }
      eapply run_bind; [by apply run_call_module|].
      eapply run_bind; [apply run_lift; unfold item_last; by rewrite Hlast|].
      reflexivity.
    + cbn [out_y out_z]. rewrite zip_with_tab. rewrite <- Hy. f_equal.
      apply tab_ext. intros i Hi. rewrite Htlen, !length_slice_last.
      destruct (decide (step = 0)) as [|_]; [lia|]. do 2 f_equal.
      replace (step - min step (length states)) with (step - length states) by lia.
      done.
Qed.

End LabelAlignment.

(** ** Samples do not interact *)

Section PerSample.
Context {R : Type} `{Scalar R}.
Implicit Types d : gmap string (value R).

Lemma row_map {A B} (f : list A → list B) (t : list (list A)) i :
  i < length t → row (map f t) i = f (row t i).
Proof.
  intros Hi. unfold row. rewrite list_lookup_fmap.
  destruct (lookup_lt_is_Some_2 t i Hi) as [x Hx]. by rewrite Hx.
Qed.

Lemma row_tab {A} N (f : nat → list A) i : i < N → row (tab N f) i = f i.
Proof. intros Hi. unfold row. by rewrite tab_lookup. Qed.

Lemma row_column (ks : list Z) i :
  i < length ks → row (column ks) i = [default 0%Z (ks !! i)].
Proof.
  intros Hi. unfold row, column. rewrite list_lookup_fmap.
  destruct (lookup_lt_is_Some_2 ks i Hi) as [k Hk]. by rewrite Hk.
Qed.

Lemma row_elem {A} (t : list (list A)) i : i < length t → row t i ∈ t.
Proof.
  intros Hi. unfold row. destruct (lookup_lt_is_Some_2 t i Hi) as [x Hx].
  rewrite Hx. simpl. by eapply list_elem_of_lookup_2.
Qed.

Lemma tab_1 {A} (f : nat → A) : tab 1 f = [f 0].
Proof. reflexivity. Qed.

(** The layers work row by row: the output for one sample is the row of the
    output for the batch. *)
Lemma Sequential_forward_sample (ms : Sequential R) (x y : tensor R) i :
  Sequential_forward ms x = Ok y → i < length x →
  Sequential_forward ms (sample_of i x) = Ok (sample_of i y).
Proof.
  revert x. induction ms as [|m ms IH]; intros x; simpl.
  - by intros [= <-] _.
  - destruct m as [l|]; simpl.
    + unfold Linear_forward.
      destruct (forallb _ x) eqn:Hall; simpl; [|done]. intros Hy Hi.
      assert (Nat.eqb (length (row x i)) (in_features l) = true) as ->.
      { apply (proj1 (forallb_forall _ _) Hall), list_elem_of_In. by apply row_elem. }
      simpl. rewrite <- (row_map (Linear_row l)) by done.
      apply (IH _ Hy). by rewrite length_map.
    + intros Hy Hi. rewrite <- (row_map (map relu)) by done.
      apply (IH _ Hy). by rewrite length_map.
Qed.

Lemma mapM_sample (ms : Sequential R) (xs ys : list (tensor R)) i :
  mapM (Sequential_forward ms) xs = Ok ys → Forall (λ x, i < length x) xs →
  mapM (Sequential_forward ms) (map (sample_of i) xs) = Ok (map (sample_of i) ys).
Proof.
  intros Hys Hall. apply mapM_Ok. apply mapM_Ok in Hys.
  apply Forall2_fmap. induction Hys as [|x y xs ys Hy _ IH]; [constructor|].
  inversion Hall; subst. constructor; [by apply Sequential_forward_sample | by apply IH].
Qed.

Lemma rows_at_sample {A} (ts : list (list (list A))) i :
  rows_at 0 (map (sample_of i) ts) = rows_at i ts.
Proof. unfold rows_at. rewrite map_map. done. Qed.

Lemma window_row_sample fc2_units step (zs : list (tensor R)) i :
  window_row fc2_units step (map (sample_of i) zs) 0 = window_row fc2_units step zs i.
Proof.
  unfold window_row. rewrite length_map. f_equal.
  by rewrite <- fmap_drop, rows_at_sample.
Qed.

Lemma sample_of_tab {A} N (f : nat → list A) i : i < N → sample_of i (tab N f) = [f i].
Proof. intros Hi. unfold sample_of. by rewrite row_tab. Qed.

End PerSample.

Section SampleBatch.
Context {R : Type} `{Scalar R}.
Implicit Types d : gmap string (value R).

Lemma batch_sample state_size N d (states : list (tensor R)) i :
  batch state_size N d states → i < N →
  batch state_size 1 (sample i <$> d) (map (sample_of i) states).
Proof.
  intros [Hstate Hne HN Hshape] Hi. split.
  - by rewrite lookup_fmap, Hstate.
  - intros Hnil. apply (f_equal length) in Hnil. rewrite length_map in Hnil.
    by apply nil_length_inv in Hnil.
  - lia.
  - apply Forall_map. eapply Forall_impl; [done|]. intros x Hx. simpl.
    split; [done|]. constructor; [|done]. by eapply shaped_row.
Qed.

Lemma prev_action_ok_sample action_size N d (acts : list Z) i :
  prev_action_ok (R:=R) action_size N d acts → i < N →
  prev_action_ok action_size 1 (sample i <$> d) [default 0%Z (acts !! i)].
Proof.
  intros [Hfield Hlen Hrange] Hi. split.
  - rewrite lookup_fmap, Hfield. simpl. unfold sample_of. by rewrite row_column by lia.
  - done.
  - constructor; [|done].
    destruct (lookup_lt_is_Some_2 acts i) as [a Ha]; [lia|]. rewrite Ha. simpl.
    by eapply (proj1 (Forall_lookup _ _) Hrange).
Qed.

Lemma latest_labels_sample N d (labels : list Z) i :
  latest_labels (R:=R) N d labels → i < N →
  latest_labels 1 (sample i <$> d) [default 0%Z (labels !! i)].
Proof.
  intros [(ts & Hts & Hlast) Hlen] Hi. split; [|done].
  exists (map (sample_of i) ts). split.
  - by rewrite lookup_fmap, Hts.
  - rewrite fmap_last, Hlast. simpl. unfold sample_of. by rewrite row_column by lia.
Qed.

Lemma labels_ok_sample num_treatment N L d (labs : list (list Z)) i :
  labels_ok (R:=R) num_treatment N L d labs → i < N →
  labels_ok num_treatment 1 L (sample i <$> d)
    (map (λ col, [default 0%Z (col !! i)]) labs).
Proof.
  intros [Hfield Hal Hrange] Hi. split.
  - rewrite lookup_fmap, Hfield. simpl. do 2 f_equal. rewrite !map_map.
    apply map_ext_in. intros col Hcol.
    pose proof (proj1 (Forall_forall _ _) Hrange col (proj2 (list_elem_of_In _ _) Hcol))
      as [Hc _].
    unfold sample_of. by rewrite row_column by lia.
  - by rewrite length_map.
  - apply Forall_map. eapply Forall_impl; [done|]. intros col [Hc Hr]. simpl.
    split; [done|]. constructor; [|done].
    destruct (lookup_lt_is_Some_2 col i) as [k Hk]; [lia|]. rewrite Hk. simpl.
    by eapply (proj1 (Forall_lookup _ _) Hr).
Qed.

Lemma window_classes_at_sample (mode : bool) step (labs : list (list Z))
    (t : list (tensor R)) i :
  window_classes_at mode step (map (λ col, [default 0%Z (col !! i)]) labs)
    (map (sample_of i) t) 0
  = window_classes_at mode step labs t i.
Proof.
  unfold window_classes_at, labels_at, predicted_at. destruct mode.
  - rewrite length_map, <- fmap_drop, map_map. done.
  - by rewrite rows_at_sample.
Qed.

Lemma joint_row_sample fc2_units num_treatment step (zs : list (tensor R)) classes i :
  joint_row fc2_units num_treatment step (map (sample_of i) zs) classes 0
  = joint_row fc2_units num_treatment step zs classes i.
Proof. unfold joint_row. by rewrite window_row_sample, length_map. Qed.

Lemma last_sample (zs : list (tensor R)) zl i :
  last zs = Some zl → last (map (sample_of i) zs) = Some (sample_of i zl).
Proof. intros Hzl. by rewrite fmap_last, Hzl. Qed.

(** Samples do not interact. On a well-formed batch of [N] samples, in
    either mode, the forward call of each variant on the batch reduced to
    its sample [i] (row [i] of every tensor of the batch) returns row [i] of
    the outputs of the call on the whole batch: row [i] of the treatment
    logits, of the action values and of the window block depend on sample
    [i] only. *)
Theorem forward_per_sample (θ : params R)
    (state_size action_size fc1_units fc2_units step num_treatment : nat) (mode : bool)
    d (states : list (tensor R)) (N : nat) (acts labels : list Z) (labs : list (list Z))
    (i : nat) :
  let per_sample {Net} `{AbstractDQN R Net} (self : Net) :=
    ∃ out out_i,
      (forward self d).2 = Ok out ∧
      (forward self (sample i <$> d)).2 = Ok out_i ∧
      out_t out_i = sample_of i (out_t out) ∧
      out_y out_i = sample_of i (out_y out) ∧
      out_z out_i = sample_of i (out_z out) in
  batch state_size N d states → i < N →
  (prev_action_ok action_size N d acts →
   (if mode then latest_labels N d labels else 0 < num_treatment) →
   per_sample (SimpleQNetwork.train mode
                 (SimpleQNetwork.__init__ θ state_size action_size fc1_units fc2_units
                    step num_treatment))) ∧
  ((if mode then labels_ok num_treatment N (length states) d labs
    else 0 < num_treatment) →
   per_sample (CEQNetwork_1.train mode
                 (CEQNetwork_1.__init__ θ state_size action_size fc1_units fc2_units
                    step num_treatment)) ∧
   per_sample (CEQNetwork_2.train mode
                 (CEQNetwork_2.__init__ θ state_size action_size fc1_units fc2_units
                    step num_treatment))).
Proof.
  intros per_sample Hbatch Hi. unfold per_sample. clear per_sample.
  pose proof (batch_sample _ _ _ _ i Hbatch Hi) as Hbatch_i.
  assert (Forall (λ x : tensor R, i < length x) states) as Hrows.
  { eapply Forall_impl; [exact (batch_shaped _ _ _ _ Hbatch)|].
    intros x [Hx _]. simpl. lia. }
  split.
  - intros Hprev Hmode.
    pose proof (prev_action_ok_sample _ _ _ _ i Hprev Hi) as Hprev_i.
    assert (if mode then latest_labels 1 (sample i <$> d) [default 0%Z (labels !! i)]
            else 0 < num_treatment) as Hmode_i.
    { destruct mode; [by apply (latest_labels_sample N) | done]. }
    destruct (SimpleQNetwork_forward_run θ state_size action_size fc1_units fc2_units step
                num_treatment mode d states N acts labels Hbatch Hprev Hmode)
      as (zs & zl & tl & y & log & Hzs & Hzsh & _ & Hzl & Htl & Htlsh & Hy & Hysh & Hrun).
    destruct (SimpleQNetwork_forward_run θ state_size action_size fc1_units fc2_units step
                num_treatment mode _ _ 1 _ _ Hbatch_i Hprev_i Hmode_i)
      as (zs' & zl' & tl' & y' & log' & Hzs' & _ & _ & Hzl' & Htl' & _ & Hy' & _ & Hrun').
    cbv zeta in Hrun, Hrun'.
    rewrite (mapM_sample _ _ _ i Hzs Hrows) in Hzs'. injection Hzs' as <-.
    rewrite (last_sample _ _ i Hzl) in Hzl'. injection Hzl' as <-.
    rewrite (Sequential_forward_sample _ _ _ i Htl) in Htl'
      by (rewrite (proj1 (last_Forall _ _ _ Hzsh Hzl)); done).
    injection Htl' as <-.
    rewrite tab_1, window_row_sample in Hy'. rewrite !tab_1, !window_row_sample in Hrun'.
    rewrite <- (sample_of_tab N (window_row fc2_units step zs) i Hi) in Hy'.
    rewrite (Sequential_forward_sample _ _ _ i Hy) in Hy' by (by rewrite tab_length).
    injection Hy' as <-.
    eexists _, _. split; [exact (f_equal snd Hrun)|]. split; [exact (f_equal snd Hrun')|].
    cbn [out_t out_y out_z]. split_and!; [done| |by rewrite sample_of_tab].
    rewrite ?tab_1, sample_of_tab by done. f_equal.
    assert (default 0%Z ((if mode then [default 0%Z (labels !! i)]
                          else map (λ r, Z.of_nat (topk_index r)) (sample_of i tl)) !! 0)
            = default 0%Z ((if mode then labels
                            else map (λ r, Z.of_nat (topk_index r)) tl) !! i)) as ->.
    { destruct mode; [done|]. simpl. rewrite list_lookup_fmap. unfold row.
      destruct (lookup_lt_is_Some_2 tl i) as [r Hr]; [rewrite (proj1 Htlsh); lia|].
      by rewrite Hr. }
    done.
  - intros Hmode.
    assert (if mode then labels_ok num_treatment 1 (length (map (sample_of i) states))
                           (sample i <$> d) (map (λ col, [default 0%Z (col !! i)]) labs)
            else 0 < num_treatment) as Hmode_i.
    { destruct mode; [|done]. rewrite length_map. by apply (labels_ok_sample _ N). }
    split.
    + destruct (CEQNetwork_1_forward_run θ state_size action_size fc1_units fc2_units step
                  num_treatment mode d states N labs Hbatch Hmode)
        as (zs & zl & tl & t & y & log & Hzs & Hzsh & _ & Hzl & Htl & Htlsh & Ht & Htsh
            & Hy & Hysh & Hrun).
      destruct (CEQNetwork_1_forward_run θ state_size action_size fc1_units fc2_units step
                  num_treatment mode _ _ 1 _ Hbatch_i Hmode_i)
        as (zs' & zl' & tl' & t' & y' & log' & Hzs' & _ & _ & Hzl' & Htl' & _ & Ht' & _
            & Hy' & _ & Hrun').
      rewrite (mapM_sample _ _ _ i Hzs Hrows) in Hzs'. injection Hzs' as <-.
      rewrite (last_sample _ _ i Hzl) in Hzl'. injection Hzl' as <-.
      rewrite (Sequential_forward_sample _ _ _ i Htl) in Htl'
        by (rewrite (proj1 (last_Forall _ _ _ Hzsh Hzl)); done).
      injection Htl' as <-.
      assert (Ok t' = Ok (map (sample_of i) t)) as [= ->].
      { rewrite <- Ht'. rewrite <- (mapM_sample _ _ _ i Ht).
        - f_equal. rewrite length_map. symmetry. apply fmap_drop.
        - apply Forall_drop. eapply Forall_impl; [exact Hzsh|].
          intros x [Hx _]. simpl. lia. }
      rewrite tab_1, joint_row_sample, window_classes_at_sample in Hy'.
      rewrite <- (sample_of_tab N (λ i, joint_row fc2_units num_treatment step zs
                                          (window_classes_at mode step labs t i) i) i Hi)
        in Hy'.
      rewrite (Sequential_forward_sample _ _ _ i Hy) in Hy' by (by rewrite tab_length).
      injection Hy' as <-.
      rewrite !tab_1, !window_row_sample in Hrun'.
      eexists _, _. split; [exact (f_equal snd Hrun)|]. split; [exact (f_equal snd Hrun')|].
      cbn [out_t out_y out_z]. split_and!; [done|done|by rewrite sample_of_tab].
    + destruct (CEQNetwork_2_forward_run θ state_size action_size fc1_units fc2_units step
                  num_treatment mode d states N labs Hbatch Hmode)
        as (zs & zl & tl & t & y0 & y1 & log & Hzs & Hzsh & _ & Hzl & Htl & Htlsh & Ht
            & Htsh & Hy0 & Hy1 & Hy0sh & Hy1sh & Hrun).
      destruct (CEQNetwork_2_forward_run θ state_size action_size fc1_units fc2_units step
                  num_treatment mode _ _ 1 _ Hbatch_i Hmode_i)
        as (zs' & zl' & tl' & t' & y0' & y1' & log' & Hzs' & _ & _ & Hzl' & Htl' & _ & Ht'
            & _ & Hy0' & Hy1' & _ & _ & Hrun').
      cbv zeta in Hrun, Hrun', Hy0, Hy1, Hy0', Hy1'.
      rewrite (mapM_sample _ _ _ i Hzs Hrows) in Hzs'. injection Hzs' as <-.
      rewrite (last_sample _ _ i Hzl) in Hzl'. injection Hzl' as <-.
      rewrite (Sequential_forward_sample _ _ _ i Htl) in Htl'
        by (rewrite (proj1 (last_Forall _ _ _ Hzsh Hzl)); done).
      injection Htl' as <-.
      assert (Ok t' = Ok (map (sample_of i) t)) as [= ->].
      { rewrite <- Ht'. rewrite <- (mapM_sample _ _ _ i Ht).
        - f_equal. rewrite length_map. symmetry. apply fmap_drop.
        - apply Forall_drop. eapply Forall_impl; [exact Hzsh|].
          intros x [Hx _]. simpl. lia. }
      rewrite tab_1, joint_row_sample, window_classes_at_sample in Hy0', Hy1'.
      rewrite <- (sample_of_tab N (λ i, joint_row fc2_units num_treatment step zs
                                          (window_classes_at mode step labs t i) i) i Hi)
        in Hy0', Hy1'.
      rewrite (Sequential_forward_sample _ _ _ i Hy0) in Hy0' by (by rewrite tab_length).
      rewrite (Sequential_forward_sample _ _ _ i Hy1) in Hy1' by (by rewrite tab_length).
      injection Hy0' as <-. injection Hy1' as <-.
      rewrite !tab_1, !window_row_sample in Hrun'.
      eexists _, _. split; [exact (f_equal snd Hrun)|]. split; [exact (f_equal snd Hrun')|].
      cbn [out_t out_y out_z]. split_and!; [done| |by rewrite sample_of_tab].
      rewrite ?tab_1, sample_of_tab by done. f_equal.
      assert (default 0%Z ((if mode
                            then default [] (last (map (λ col, [default 0%Z (col !! i)]) labs))
                            else map (λ r, Z.of_nat (topk_index r)) (sample_of i tl)) !! 0)
              = default 0%Z ((if mode then default [] (last labs)
                              else map (λ r, Z.of_nat (topk_index r)) tl) !! i)) as ->.
      { destruct mode.
        - rewrite fmap_last. by destruct (last labs).
        - simpl. rewrite list_lookup_fmap. unfold row.
          destruct (lookup_lt_is_Some_2 tl i) as [r Hr]; [rewrite (proj1 Htlsh); lia|].
          by rewrite Hr. }
      done.
Qed.

End SampleBatch.

(** ** Training on the predicted classes *)

Section TeacherForcing.
Context {R : Type} `{Scalar R}.
Implicit Types d : gmap string (value R).

(** Training on the predicted classes is evaluation. On a well-formed
    batch, when the labels of the batch are the classes that the Treatment
    Head predicts (for Variant A the latest labels and the latest logits, for
    Variant B the labels and the logits of every timestep of the window), the
    forward call in training mode returns the outputs of the forward call in
    evaluation mode. *)
Theorem training_on_predictions_is_evaluation (θ : params R)
    (state_size action_size fc1_units fc2_units step num_treatment : nat)
    d (states : list (tensor R)) (N : nat) (acts labels : list Z) (labs : list (list Z)) :
  let netA := SimpleQNetwork.__init__ θ state_size action_size fc1_units fc2_units
                step num_treatment in
  let netB := CEQNetwork_1.__init__ θ state_size action_size fc1_units fc2_units
                step num_treatment in
  batch state_size N d states →
  (prev_action_ok action_size N d acts → latest_labels N d labels →
   0 < num_treatment →
   ∃ out,
     (forward (SimpleQNetwork.eval netA) d).2 = Ok out ∧
     (labels = map (λ r, Z.of_nat (topk_index r)) (out_t out) →
      (forward (SimpleQNetwork.train true netA) d).2 = Ok out)) ∧
  (labels_ok num_treatment N (length states) d labs →
   ∃ out zs t,
     (forward (CEQNetwork_1.eval netB) d).2 = Ok out ∧
     mapM (Sequential_forward (CEQNetwork_1.encoder netB)) states = Ok zs ∧
     mapM (Sequential_forward (CEQNetwork_1.logits_t netB)) (drop (length zs - step) zs)
     = Ok t ∧
     ((∀ i, i < N → labels_at i (drop (length labs - step) labs) = predicted_at i t) →
      (forward (CEQNetwork_1.train true netB) d).2 = Ok out)).
Proof.
  intros netA netB Hbatch. subst netA netB. split.
  - intros Hprev Hlabels Hnt.
    destruct (SimpleQNetwork_forward_run θ state_size action_size fc1_units fc2_units step
                num_treatment false d states N acts labels Hbatch Hprev Hnt)
      as (zs & zl & tl & y & log & Hzs & _ & _ & Hzl & Htl & _ & Hy & _ & Hrun).
    destruct (SimpleQNetwork_forward_run θ state_size action_size fc1_units fc2_units step
                num_treatment true d states N acts labels Hbatch Hprev Hlabels)
      as (zs' & zl' & tl' & y' & log' & Hzs' & _ & _ & Hzl' & Htl' & _ & Hy' & _ & Hrun').
    cbv zeta in Hrun, Hrun'.
    assert (Ok zs' = Ok zs) as [= ->] by (rewrite <- Hzs'; exact Hzs).
    assert (zl' = zl) as -> by congruence.
    assert (Ok tl' = Ok tl) as [= ->] by (rewrite <- Htl'; exact Htl).
    assert (Ok y' = Ok y) as [= ->] by (rewrite <- Hy'; exact Hy).
    eexists. split; [exact (f_equal snd Hrun)|]. cbn [out_t]. intros ->.
    exact (f_equal snd Hrun').
  - intros Hlabels.
    assert (0 < num_treatment) as Hnt.
    { destruct Hbatch as [_ Hne HN _]. eapply labels_ok_positive; [done|done|].
      destruct states; simpl; [done|lia]. }
    destruct (CEQNetwork_1_forward_run θ state_size action_size fc1_units fc2_units step
                num_treatment false d states N labs Hbatch Hnt)
      as (zs & zl & tl & t & y & log & Hzs & _ & _ & Hzl & Htl & _ & Ht & _ & Hy & _ & Hrun).
    destruct (CEQNetwork_1_forward_run θ state_size action_size fc1_units fc2_units step
                num_treatment true d states N labs Hbatch Hlabels)
      as (zs' & zl' & tl' & t' & y' & log' & Hzs' & _ & _ & Hzl' & Htl' & _ & Ht' & _
          & Hy' & _ & Hrun').
    assert (Ok zs' = Ok zs) as [= ->] by (rewrite <- Hzs'; exact Hzs).
    assert (zl' = zl) as -> by congruence.
    assert (Ok tl' = Ok tl) as [= ->] by (rewrite <- Htl'; exact Htl).
    exists (mkOut tl y (tab N (window_row fc2_units step zs))), zs, t.
    split; [exact (f_equal snd Hrun)|]. split; [exact Hzs|]. split; [exact Ht|].
    intros Hsame.
    assert (Ok y' = Ok y) as [= ->].
    { rewrite <- Hy', <- Hy.
      match goal with |- Sequential_forward ?a _ = Sequential_forward ?b _ =>
        change a with b end.
      f_equal. apply tab_ext. intros i Hi. unfold joint_row, window_classes_at.
      by rewrite Hsame. }
    exact (f_equal snd Hrun').
Qed.

End TeacherForcing.

(** ** The further properties on the scenarios *)

Lemma Examples_batch_no_prev_action :
  batch 4 1 Examples.data_no_prev_action Scenario.states4.
Proof. split; [reflexivity | discriminate | lia | repeat constructor]. Defined.

Lemma Examples_batch_no_labels : batch 4 1 Examples.data_no_labels Scenario.states4.
Proof. split; [reflexivity | discriminate | lia | repeat constructor]. Defined.

Lemma Examples_batch5 : batch 4 1 Examples.data5 Examples.states5.
Proof. split; [reflexivity | discriminate | lia | repeat constructor]. Defined.

Lemma Scenario_batch_label5 : batch 4 1 Scenario.data_label5 Scenario.states4.
Proof. split; [reflexivity | discriminate | lia | repeat constructor]. Defined.

Lemma Scenario_batch_three_actions :
  batch 4 2 Scenario.data_three_actions Scenario.states4x2.
Proof. split; [reflexivity | discriminate | lia | repeat constructor]. Defined.

(** A batch without ['state']. *)
Lemma forward_encoder_stage_failure_witness :
  forward Scenario.netA (∅ : gmap string (value Z)) = (∅, [], Err (KeyError "state")).
Proof.
  exact (proj1 (forward_encoder_stage_failure Scenario.netA ∅) (lookup_empty _)).
Defined.

(** The four latent tensors of the scenario. *)
Lemma forward_stores_latents_witness :
  ∃ zs, length zs = 4 ∧
        (forward Scenario.netB Scenario.data4).1.1
        = <["z" := VTensors zs]> Scenario.data4.
Proof.
  destruct (forward_stores_latents Scenario.netA Scenario.netB Scenario.netC
              Scenario.data4 Scenario.states4 eq_refl) as (_ & HB & _).
  destruct (mapM_typed _ _ _ 1 Scenario.states4
              (AbstractDQN_init_typed Scenario.theta 4 2 2)
              (batch_shaped _ _ _ _ Scenario_batch4)) as (zs & Hzs & _ & Hlen).
  exists zs. split; [exact Hlen | exact (HB zs Hzs)].
Defined.

(** The schedule of Variant A on the scenario: four timesteps, all in the
    window. *)
Lemma forward_call_schedule_witness :
  on_schedule (forward Scenario.netA)
    [Encoder; Encoder; Encoder; Encoder; LogitsT; LogitsT; LogitsT; LogitsT; Fc]
    Scenario.data4.
Proof.
  destruct (forward_call_schedule Scenario.netA Scenario.netB Scenario.netC Scenario.data4)
    as (HA & _).
  - right. exists Scenario.states4. reflexivity.
  - exact HA.
Defined.

(** A batch with no timestep. *)
Lemma forward_empty_state_list_witness :
  forward Scenario.netB Examples.data_empty
  = (<["z" := VTensors []]> Examples.data_empty, [], Err EmptyTensorList).
Proof.
  exact (proj1 (proj2 (forward_empty_state_list Scenario.netA Scenario.netB Scenario.netC
                         Examples.data_empty eq_refl))).
Defined.

(** The scenario without its previous actions, in evaluation mode. *)
Lemma SimpleQNetwork_missing_prev_action_witness :
  ∃ zs,
    forward (SimpleQNetwork.train false Scenario.netA) Examples.data_no_prev_action
    = (<["z" := VTensors zs]> Examples.data_no_prev_action,
       replicate (length Scenario.states4) Encoder
       ++ replicate (length (slice_last 4 Scenario.states4)) LogitsT ++ [Fc],
       Err (KeyError "prev_action")).
Proof.
  unfold Scenario.netA.
  destruct (SimpleQNetwork_missing_prev_action Scenario.theta 4 2 2 2 4 2 false
              Examples.data_no_prev_action Scenario.states4 1
              Examples_batch_no_prev_action eq_refl) as (zs & _ & Hrun).
  exists zs. exact Hrun.
Defined.

(** The scenario without its labels, in training mode. *)
Lemma training_requires_labels_witness :
  ∃ zs,
    forward (CEQNetwork_1.train true Scenario.netB) Examples.data_no_labels
    = (<["z" := VTensors zs]> Examples.data_no_labels,
       replicate (length Scenario.states4) Encoder
       ++ replicate (length (slice_last 4 Scenario.states4)) LogitsT,
       Err (KeyError "t")).
Proof.
  unfold Scenario.netB.
  destruct (training_requires_labels Scenario.theta 4 2 2 2 4 2
              Examples.data_no_labels Scenario.states4 1 [0%Z]
              Examples_batch_no_labels eq_refl) as (zs & _ & _ & HB & _).
  exists zs. exact HB.
Defined.

(** The shapes of the outputs of Variant B on the scenario. *)
Lemma forward_output_shapes_witness :
  ∃ d' log out,
    forward (CEQNetwork_1.train true Scenario.netB) Scenario.data4 = (d', log, Ok out) ∧
    shaped 1 2 (out_t out) ∧ shaped 1 2 (out_y out) ∧ shaped 1 (2 * 4) (out_z out).
Proof.
  unfold Scenario.netB.
  destruct (forward_output_shapes Scenario.theta 4 2 2 2 4 2 true Scenario.data4
              Scenario.states4 1 [0%Z] [1%Z] Scenario.labels4 Scenario_batch4)
    as [_ HBC].
  destruct (HBC Scenario_labels4) as [(d' & log & out & Hrun & Hshapes) _].
  exists d', log, out. split; [exact Hrun | exact Hshapes].
Defined.

(** Variant A in training mode and Variant C in evaluation mode return the
    same treatment logits on the scenario. *)
Lemma forward_shared_trunk_witness :
  ∃ treatment_logits,
    (∃ d' log out,
       forward (SimpleQNetwork.train true Scenario.netA) Scenario.data4 = (d', log, Ok out) ∧
       out_t out = treatment_logits) ∧
    (∃ d' log out,
       forward (CEQNetwork_2.train false Scenario.netC) Scenario.data4 = (d', log, Ok out) ∧
       out_t out = treatment_logits).
Proof.
  unfold Scenario.netA, Scenario.netC.
  destruct (forward_shared_trunk Scenario.theta 4 2 2 2 4 2 Scenario.data4
              Scenario.states4 1 [0%Z] Scenario.labels4
              Scenario_batch4 Scenario_prev_action4 Scenario_labels4)
    as (tl & wb & Hall).
  pose proof (Hall true) as Htrain. pose proof (Hall false) as Heval.
  cbv zeta in Htrain, Heval.
  destruct Htrain as ((d1 & log1 & out1 & Hrun1 & Ht1 & _) & _ & _).
  destruct Heval as (_ & _ & (d2 & log2 & out2 & Hrun2 & Ht2 & _)).
  exists tl. split.
  - exists d1, log1, out1. split; [exact Hrun1 | exact Ht1].
  - exists d2, log2, out2. split; [exact Hrun2 | exact Ht2].
Defined.

(** Two treatment classes on the scenario, with two heads that differ: the
    action values are the row of the second head. *)
Lemma CEQNetwork_2_selects_a_head_witness :
  ∃ out y_t0 y_t1,
    (forward (CEQNetwork_2.train true Examples.netC_heads) Scenario.data4).2 = Ok out ∧
    (out_y out !! 0 = y_t0 !! 0 ∨ out_y out !! 0 = y_t1 !! 0) ∧
    y_t0 = [[40; -23]]%Z ∧ y_t1 = [[6; -10]]%Z ∧ out_y out = y_t1.
Proof.
  unfold Examples.netC_heads.
  destruct (CEQNetwork_2_selects_a_head Examples.theta_heads 4 2 2 2 4 2 true Scenario.data4
              Scenario.states4 1 Scenario.labels4 Scenario_batch4 Scenario_labels4)
    as (d' & log & out & zs & t & y0 & y1 & Hrun & _ & _ & _ & [Hy0 Hy1] & _ & Hrows); [lia|].
  pose proof (Hrows 0 ltac:(lia) (Forall_regular_Z _) (Forall_regular_Z _)) as Hrow.
  pose proof Examples_heads_run as Hc. rewrite Hrun in Hc. injection Hc as ->.
  exists (mkOut [[-2; 0]] [[6; -10]] [[2; 0; 4; 5; 4; 7; 2; 0]])%Z, y0, y1.
  split; [exact (f_equal snd Hrun)|]. split; [exact Hrow|].
  vm_compute in Hy0. injection Hy0 as <-.
  vm_compute in Hy1. injection Hy1 as <-.
  split; [reflexivity|]. split; reflexivity.
Defined.

(** A network with a single treatment class on the scenario, with two heads
    that differ: the action values are the row of the first head. *)
Lemma eval_single_treatment_class_witness :
  ∃ out y_t0 y_t1,
    (forward (CEQNetwork_2.eval (CEQNetwork_2.__init__ Examples.theta_heads 4 2 2 2 4 1))
       Scenario.data4).2 = Ok out ∧
    out_y out !! 0 = y_t0 !! 0 ∧
    y_t0 = [[36; -25]]%Z ∧ y_t1 = [[7; -12]]%Z.
Proof.
  destruct (eval_single_treatment_class Examples.theta_heads 4 2 2 2 4 Scenario.data4
              Scenario.states4 1 [0%Z] Scenario_batch4) as [_ HC].
  destruct HC as (d' & log & out & y0 & y1 & Hrun & _ & [Hy0 Hy1] & _ & Hrows).
  pose proof (Hrows 0 ltac:(lia) (Forall_regular_Z _) (Forall_regular_Z _)) as Hrow.
  pose proof Examples_single_class_run as Hc.
  change (CEQNetwork_2.train false ?n) with (CEQNetwork_2.eval n) in Hc.
  rewrite Hrun in Hc. injection Hc as ->.
  exists (mkOut [[-2]] [[36; -25]] [[2; 0; 4; 5; 4; 7; 2; 0]])%Z, y0, y1.
  split; [exact (f_equal snd Hrun)|]. split; [exact Hrow|].
  vm_compute in Hy0. injection Hy0 as <-.
  vm_compute in Hy1. injection Hy1 as <-.
  split; reflexivity.
Defined.

(** A network with [step = 0] on the scenario. *)
Lemma forward_step_zero_witness :
  ∃ d' out,
    forward (CEQNetwork_1.train true (CEQNetwork_1.__init__ Scenario.theta 4 2 2 2 0 2))
      Scenario.data4
    = (d', replicate (length Scenario.states4) Encoder
           ++ replicate (length Scenario.states4) LogitsT ++ [Fc], Ok out) ∧
    out_z out = replicate 1 [].
Proof.
  destruct (forward_step_zero Scenario.theta 4 2 2 2 2 true Scenario.data4
              Scenario.states4 1 [0%Z] [1%Z] Scenario.labels4 Scenario_batch4)
    as [_ HB].
  destruct (HB Scenario_labels4) as (d' & out & Hrun & Hz & _).
  exists d', out. split; [exact Hrun | exact Hz].
Defined.

(** The scenario, and the scenario with one more timestep before the
    window. *)
Lemma eval_depends_on_window_only_witness :
  ∃ out,
    (forward (CEQNetwork_1.eval Scenario.netB) Scenario.data4).2 = Ok out ∧
    (forward (CEQNetwork_1.eval Scenario.netB) Examples.data5).2 = Ok out.
Proof.
  unfold Scenario.netB.
  destruct (eval_depends_on_window_only Scenario.theta 4 2 2 2 4 2 Scenario.data4
              Examples.data5 Scenario.states4 Examples.states5 1 [0%Z]
              Scenario_batch4 Examples_batch5 eq_refl) as (_ & HB & _); [lia|].
  exact HB.
Defined.

(** The scenario with other parameters in the Treatment Head. *)
Lemma training_ignores_treatment_head_witness :
  ∃ out out',
    (forward (CEQNetwork_1.__init__ Scenario.theta 4 2 2 2 4 2) Scenario.data4).2 = Ok out ∧
    (forward (CEQNetwork_1.__init__ Examples.theta_other 4 2 2 2 4 2) Scenario.data4).2
    = Ok out' ∧
    out_y out = out_y out'.
Proof.
  destruct (training_ignores_treatment_head Scenario.theta Examples.theta_other
              4 2 2 2 4 2 Scenario.data4 Scenario.states4 1 [0%Z] [1%Z] Scenario.labels4)
    as [_ HBC].
  - intros name Hname. unfold Examples.theta_other. rewrite Hname. reflexivity.
  - exact Scenario_batch4.
  - destruct (HBC Scenario_labels4) as [(out & out' & Hrun & Hrun' & Hy & _) _].
    exists out, out'. split; [exact Hrun|]. split; [exact Hrun' | exact Hy].
Defined.

(** The scenario with a latest label 5, in training mode. *)
Lemma training_label_out_of_range_witness :
  ∃ zs,
    forward (CEQNetwork_1.__init__ Scenario.theta 4 2 2 2 4 2) Scenario.data_label5
    = (<["z" := VTensors zs]> Scenario.data_label5,
       replicate (length Scenario.states4) Encoder
       ++ replicate (length (slice_last 4 Scenario.states4)) LogitsT,
       Err IndexOutOfBounds).
Proof.
  destruct (training_label_out_of_range Scenario.theta 4 2 2 2 4 2 Scenario.data_label5
              Scenario.states4 1 [[0]; [0]; [1]; [5]]%Z Scenario_batch_label5)
    as (zs & _ & HB & _).
  - reflexivity.
  - reflexivity.
  - repeat constructor.
  - do 3 apply Exists_cons_tl. apply Exists_cons_hd, Exists_cons_hd. lia.
  - exists zs. exact HB.
Defined.


(** The scenario with another previous action, for Variant B. *)
Lemma forward_read_set_witness :
  (forward Scenario.netB Scenario.data4).2
  = (forward Scenario.netB Examples.data_other_action).2.
Proof.
  destruct (forward_read_set Scenario.netA Scenario.netB Scenario.netC
              Scenario.data4 Examples.data_other_action) as (_ & _ & HBC & _).
  destruct HBC as [[HB _] _]; [|exact HB].
  intros k Hk. unfold Examples.data_other_action.
  rewrite lookup_insert_ne; [reflexivity|].
  intros <-. apply elem_of_union in Hk as [Hk|Hk]; apply elem_of_singleton in Hk;
    discriminate.
Defined.

(** Two timesteps of one and of two samples. *)
Lemma forward_batch_size_mismatch_witness :
  ∃ zs,
    forward (CEQNetwork_2.train false Scenario.netC) Examples.data_ragged
    = (<["z" := VTensors zs]> Examples.data_ragged,
       replicate (length Examples.states_ragged) Encoder
       ++ replicate (length (slice_last 4 Examples.states_ragged)) LogitsT,
       Err ShapeMismatch).
Proof.
  unfold Scenario.netC.
  destruct (forward_batch_size_mismatch Scenario.theta 4 2 2 2 4 2 false
              Examples.data_ragged Examples.states_ragged 0 1
              [[1; 0; 2; -1]]%Z [[0; 1; 1; 3]; [1; 1; 0; 0]]%Z) as (zs & Hfails).
  - reflexivity.
  - repeat constructor.
  - reflexivity.
  - reflexivity.
  - simpl. lia.
  - cbv zeta in Hfails. destruct Hfails as (_ & _ & _ & HC). exists zs. exact HC.
Defined.

(** Four timesteps with the labels of two: the labels 1 and 0 fill the two
    oldest slots of the treatment block. *)
Lemma CEQNetwork_1_labels_misaligned_witness :
  ∃ d' log out,
    forward (CEQNetwork_1.__init__ Scenario.theta 4 2 2 2 4 2) Examples.data_two_labels
    = (d', log, Ok out) ∧
    Sequential_forward (CEQNetwork_1.fc (CEQNetwork_1.__init__ Scenario.theta 4 2 2 2 4 2))
      (zip_with app (out_z out) [[0; 1; 1; 0; 0; 0; 0; 0]]%Z)
    = Ok (out_y out).
Proof.
  destruct (CEQNetwork_1_labels_misaligned Scenario.theta 4 2 2 2 4 2
              Examples.data_two_labels Scenario.states4 1 [[1]; [0]]%Z) as [_ Hshort].
  - split; [reflexivity | discriminate | lia | repeat constructor].
  - reflexivity.
  - discriminate.
  - lia.
  - repeat constructor; lia.
  - destruct Hshort as (d' & log & out & Hrun & Hfc); [simpl; lia|].
    exists d', log, out. split; [exact Hrun | exact Hfc].
Defined.

(** The second sample of a batch of two samples. *)
Lemma forward_per_sample_witness :
  ∃ out out_i,
    (forward (CEQNetwork_1.train true Scenario.netB) Examples.data4x2).2 = Ok out ∧
    (forward (CEQNetwork_1.train true Scenario.netB) (sample 1 <$> Examples.data4x2)).2
    = Ok out_i ∧
    out_y out_i = sample_of 1 (out_y out).
Proof.
  unfold Scenario.netB.
  destruct (forward_per_sample Scenario.theta 4 2 2 2 4 2 true Examples.data4x2
              Scenario.states4x2 2 [0; 1]%Z [1; 1]%Z Examples.labels4x2 1) as [_ HBC].
  - split; [reflexivity | discriminate | lia | repeat constructor].
  - lia.
  - destruct HBC as [(out & out_i & Hrun & Hrun_i & _ & Hy & _) _].
    + split; [reflexivity | reflexivity | repeat constructor; lia].
    + exists out, out_i. split; [exact Hrun|]. split; [exact Hrun_i | exact Hy].
Defined.

(** Variant A on the scenario: the latest label, 1, is the class that the
    Treatment Head predicts, and the run in training mode returns the outputs
    of the run in evaluation mode. *)
Lemma training_on_predictions_is_evaluation_witness :
  ∃ out,
    (forward (SimpleQNetwork.eval (SimpleQNetwork.__init__ Scenario.theta 4 2 2 2 4 2))
       Scenario.data4).2 = Ok out ∧
    [1%Z] = map (λ r, Z.of_nat (topk_index r)) (out_t out) ∧
    (forward (SimpleQNetwork.train true (SimpleQNetwork.__init__ Scenario.theta 4 2 2 2 4 2))
       Scenario.data4).2 = Ok out.
Proof.
  destruct (training_on_predictions_is_evaluation Scenario.theta 4 2 2 2 4 2
              Scenario.data4 Scenario.states4 1 [0%Z] [1%Z] Scenario.labels4
              Scenario_batch4) as [HA _].
  destruct (HA Scenario_prev_action4) as (out & Hrun & Hsame).
  - split; [|reflexivity]. eexists. split; reflexivity.
  - lia.
  - pose proof Scenario_eval_run as Hc. rewrite Hrun in Hc. injection Hc as ->.
    eexists. split; [exact Hrun|].
    assert ([1%Z] = map (λ r, Z.of_nat (topk_index r)) [[-2; 0]]%Z) as Hpred
      by (vm_compute; reflexivity).
    split; [exact Hpred | exact (Hsame Hpred)].
Defined.
